(** * Verification of the BTE parser (src/src/parser.ts)

    A shallow embedding of the layout-aware structuring engine of the BTE
    scraper: line reconstruction from positioned runs, the noise filter,
    metadata extraction, the stack-based tree builder and the body-text
    normaliser, followed by the properties established for them.

    Strings are sequences of Unicode code points (a lone surrogate is a code
    point of its own).  JavaScript's [length] counts UTF-16 code units and is
    modelled by [js_length].  The regular expressions of the source are kept
    as syntax trees and run by a backtracking matcher that follows the
    ECMAScript pattern semantics. *)

From Stdlib Require Import NArith ZArith Lia Bool Ascii.
From Stdlib Require String.
From stdpp Require Import base list sorting.
Import String.StringSyntax.
Bind Scope string_scope with String.string.

Set Default Proof Using "Type".
Set Warnings "-register-all".

(** ** Characters and strings *)

Definition char := N.
Abbreviation jsstring := (list char).

(** UTF-8 decoding of a source literal into code points. *)
Fixpoint utf8_decode (bs : list N) : jsstring :=
  match bs with
  | [] => []
  | b :: r =>
      if (b <? 128)%N then b :: utf8_decode r
      else if (b <? 224)%N then
        match r with
        | b1 :: r' => ((b - 192) * 64 + (b1 - 128))%N :: utf8_decode r'
        | _ => []
        end
      else if (b <? 240)%N then
        match r with
        | b1 :: b2 :: r' =>
            ((b - 224) * 4096 + (b1 - 128) * 64 + (b2 - 128))%N :: utf8_decode r'
        | _ => []
        end
      else
        match r with
        | b1 :: b2 :: b3 :: r' =>
            ((b - 240) * 262144 + (b1 - 128) * 4096 + (b2 - 128) * 64 + (b3 - 128))%N
              :: utf8_decode r'
        | _ => []
        end
  end.

Definition U (s : String.string) : jsstring :=
  utf8_decode (map N_of_ascii (String.list_ascii_of_string s)).

(** [String.prototype.length]: UTF-16 code units. *)
Definition js_length (s : jsstring) : nat :=
  fold_right (fun c n => if (65535 <? c)%N then 2 + n else 1 + n) 0 s.

Definition str_eqb (a b : jsstring) : bool := bool_decide (a = b).

Definition in_range (lo hi c : N) : bool := ((lo <=? c) && (c <=? hi))%N.

(** [\s], which is also the set [trim] strips: WhiteSpace and LineTerminator. *)
Definition isSpace (c : char) : bool :=
  in_range 9 13 c || (c =? 32)%N || (c =? 160)%N || (c =? 5760)%N
  || in_range 8192 8202 c || (c =? 8232)%N || (c =? 8233)%N
  || (c =? 8239)%N || (c =? 8287)%N || (c =? 12288)%N || (c =? 65279)%N.

(** [\d] *)
Definition isDigit (c : char) : bool := in_range 48 57 c.

(** LineTerminator, the complement of [.] *)
Definition isLineTerminator (c : char) : bool :=
  (c =? 10)%N || (c =? 13)%N || (c =? 8232)%N || (c =? 8233)%N.
Definition dot (c : char) : bool := negb (isLineTerminator c).

(** General_Category = Letter ([\p{L}]), as code point ranges (Unicode 14). *)
Definition letter_ranges : list (N * N) :=
  [(65,90); (97,122); (170,170); (181,181); (186,186); (192,214); (216,246);
   (248,705); (710,721); (736,740); (748,748); (750,750); (880,884); (886,887);
   (890,893); (895,895); (902,902); (904,906); (908,908); (910,929); (931,1013);
   (1015,1153); (1162,1327); (1329,1366); (1369,1369); (1376,1416); (1488,1514);
   (1519,1522); (1568,1610); (1646,1647); (1649,1747); (1749,1749); (1765,1766);
   (1774,1775); (1786,1788); (1791,1791); (1808,1808); (1810,1839); (1869,1957);
   (1969,1969); (1994,2026); (2036,2037); (2042,2042); (2048,2069); (2074,2074);
   (2084,2084); (2088,2088); (2112,2136); (2144,2154); (2160,2183); (2185,2190);
   (2208,2249); (2308,2361); (2365,2365); (2384,2384); (2392,2401); (2417,2432);
   (2437,2444); (2447,2448); (2451,2472); (2474,2480); (2482,2482); (2486,2489);
   (2493,2493); (2510,2510); (2524,2525); (2527,2529); (2544,2545); (2556,2556);
   (2565,2570); (2575,2576); (2579,2600); (2602,2608); (2610,2611); (2613,2614);
   (2616,2617); (2649,2652); (2654,2654); (2674,2676); (2693,2701); (2703,2705);
   (2707,2728); (2730,2736); (2738,2739); (2741,2745); (2749,2749); (2768,2768);
   (2784,2785); (2809,2809); (2821,2828); (2831,2832); (2835,2856); (2858,2864);
   (2866,2867); (2869,2873); (2877,2877); (2908,2909); (2911,2913); (2929,2929);
   (2947,2947); (2949,2954); (2958,2960); (2962,2965); (2969,2970); (2972,2972);
   (2974,2975); (2979,2980); (2984,2986); (2990,3001); (3024,3024); (3077,3084);
   (3086,3088); (3090,3112); (3114,3129); (3133,3133); (3160,3162); (3165,3165);
   (3168,3169); (3200,3200); (3205,3212); (3214,3216); (3218,3240); (3242,3251);
   (3253,3257); (3261,3261); (3293,3294); (3296,3297); (3313,3314); (3332,3340);
   (3342,3344); (3346,3386); (3389,3389); (3406,3406); (3412,3414); (3423,3425);
   (3450,3455); (3461,3478); (3482,3505); (3507,3515); (3517,3517); (3520,3526);
   (3585,3632); (3634,3635); (3648,3654); (3713,3714); (3716,3716); (3718,3722);
   (3724,3747); (3749,3749); (3751,3760); (3762,3763); (3773,3773); (3776,3780);
   (3782,3782); (3804,3807); (3840,3840); (3904,3911); (3913,3948); (3976,3980);
   (4096,4138); (4159,4159); (4176,4181); (4186,4189); (4193,4193); (4197,4198);
   (4206,4208); (4213,4225); (4238,4238); (4256,4293); (4295,4295); (4301,4301);
   (4304,4346); (4348,4680); (4682,4685); (4688,4694); (4696,4696); (4698,4701);
   (4704,4744); (4746,4749); (4752,4784); (4786,4789); (4792,4798); (4800,4800);
   (4802,4805); (4808,4822); (4824,4880); (4882,4885); (4888,4954); (4992,5007);
   (5024,5109); (5112,5117); (5121,5740); (5743,5759); (5761,5786); (5792,5866);
   (5873,5880); (5888,5905); (5919,5937); (5952,5969); (5984,5996); (5998,6000);
   (6016,6067); (6103,6103); (6108,6108); (6176,6264); (6272,6276); (6279,6312);
   (6314,6314); (6320,6389); (6400,6430); (6480,6509); (6512,6516); (6528,6571);
   (6576,6601); (6656,6678); (6688,6740); (6823,6823); (6917,6963); (6981,6988);
   (7043,7072); (7086,7087); (7098,7141); (7168,7203); (7245,7247); (7258,7293);
   (7296,7304); (7312,7354); (7357,7359); (7401,7404); (7406,7411); (7413,7414);
   (7418,7418); (7424,7615); (7680,7957); (7960,7965); (7968,8005); (8008,8013);
   (8016,8023); (8025,8025); (8027,8027); (8029,8029); (8031,8061); (8064,8116);
   (8118,8124); (8126,8126); (8130,8132); (8134,8140); (8144,8147); (8150,8155);
   (8160,8172); (8178,8180); (8182,8188); (8305,8305); (8319,8319); (8336,8348);
   (8450,8450); (8455,8455); (8458,8467); (8469,8469); (8473,8477); (8484,8484);
   (8486,8486); (8488,8488); (8490,8493); (8495,8505); (8508,8511); (8517,8521);
   (8526,8526); (8579,8580); (11264,11492); (11499,11502); (11506,11507);
   (11520,11557); (11559,11559); (11565,11565); (11568,11623); (11631,11631);
   (11648,11670); (11680,11686); (11688,11694); (11696,11702); (11704,11710);
   (11712,11718); (11720,11726); (11728,11734); (11736,11742); (11823,11823);
   (12293,12294); (12337,12341); (12347,12348); (12353,12438); (12445,12447);
   (12449,12538); (12540,12543); (12549,12591); (12593,12686); (12704,12735);
   (12784,12799); (13312,19903); (19968,42124); (42192,42237); (42240,42508);
   (42512,42527); (42538,42539); (42560,42606); (42623,42653); (42656,42725);
   (42775,42783); (42786,42888); (42891,42954); (42960,42961); (42963,42963);
   (42965,42969); (42994,43009); (43011,43013); (43015,43018); (43020,43042);
   (43072,43123); (43138,43187); (43250,43255); (43259,43259); (43261,43262);
   (43274,43301); (43312,43334); (43360,43388); (43396,43442); (43471,43471);
   (43488,43492); (43494,43503); (43514,43518); (43520,43560); (43584,43586);
   (43588,43595); (43616,43638); (43642,43642); (43646,43695); (43697,43697);
   (43701,43702); (43705,43709); (43712,43712); (43714,43714); (43739,43741);
   (43744,43754); (43762,43764); (43777,43782); (43785,43790); (43793,43798);
   (43808,43814); (43816,43822); (43824,43866); (43868,43881); (43888,44002);
   (44032,55203); (55216,55238); (55243,55291); (63744,64109); (64112,64217);
   (64256,64262); (64275,64279); (64285,64285); (64287,64296); (64298,64310);
   (64312,64316); (64318,64318); (64320,64321); (64323,64324); (64326,64433);
   (64467,64829); (64848,64911); (64914,64967); (65008,65019); (65136,65140);
   (65142,65276); (65313,65338); (65345,65370); (65382,65470); (65474,65479);
   (65482,65487); (65490,65495); (65498,65500); (65536,65547); (65549,65574);
   (65576,65594); (65596,65597); (65599,65613); (65616,65629); (65664,65786);
   (66176,66204); (66208,66256); (66304,66335); (66349,66368); (66370,66377);
   (66384,66421); (66432,66461); (66464,66499); (66504,66511); (66560,66717);
   (66736,66771); (66776,66811); (66816,66855); (66864,66915); (66928,66938);
   (66940,66954); (66956,66962); (66964,66965); (66967,66977); (66979,66993);
   (66995,67001); (67003,67004); (67072,67382); (67392,67413); (67424,67431);
   (67456,67461); (67463,67504); (67506,67514); (67584,67589); (67592,67592);
   (67594,67637); (67639,67640); (67644,67644); (67647,67669); (67680,67702);
   (67712,67742); (67808,67826); (67828,67829); (67840,67861); (67872,67897);
   (67968,68023); (68030,68031); (68096,68096); (68112,68115); (68117,68119);
   (68121,68149); (68192,68220); (68224,68252); (68288,68295); (68297,68324);
   (68352,68405); (68416,68437); (68448,68466); (68480,68497); (68608,68680);
   (68736,68786); (68800,68850); (68864,68899); (69248,69289); (69296,69297);
   (69376,69404); (69415,69415); (69424,69445); (69488,69505); (69552,69572);
   (69600,69622); (69635,69687); (69745,69746); (69749,69749); (69763,69807);
   (69840,69864); (69891,69926); (69956,69956); (69959,69959); (69968,70002);
   (70006,70006); (70019,70066); (70081,70084); (70106,70106); (70108,70108);
   (70144,70161); (70163,70187); (70272,70278); (70280,70280); (70282,70285);
   (70287,70301); (70303,70312); (70320,70366); (70405,70412); (70415,70416);
   (70419,70440); (70442,70448); (70450,70451); (70453,70457); (70461,70461);
   (70480,70480); (70493,70497); (70656,70708); (70727,70730); (70751,70753);
   (70784,70831); (70852,70853); (70855,70855); (71040,71086); (71128,71131);
   (71168,71215); (71236,71236); (71296,71338); (71352,71352); (71424,71450);
   (71488,71494); (71680,71723); (71840,71903); (71935,71942); (71945,71945);
   (71948,71955); (71957,71958); (71960,71983); (71999,71999); (72001,72001);
   (72096,72103); (72106,72144); (72161,72161); (72163,72163); (72192,72192);
   (72203,72242); (72250,72250); (72272,72272); (72284,72329); (72349,72349);
   (72368,72440); (72704,72712); (72714,72750); (72768,72768); (72818,72847);
   (72960,72966); (72968,72969); (72971,73008); (73030,73030); (73056,73061);
   (73063,73064); (73066,73097); (73112,73112); (73440,73458); (73648,73648);
   (73728,74649); (74880,75075); (77712,77808); (77824,78894); (82944,83526);
   (92160,92728); (92736,92766); (92784,92862); (92880,92909); (92928,92975);
   (92992,92995); (93027,93047); (93053,93071); (93760,93823); (93952,94026);
   (94032,94032); (94099,94111); (94176,94177); (94179,94179); (94208,100343);
   (100352,101589); (101632,101640); (110576,110579); (110581,110587);
   (110589,110590); (110592,110882); (110928,110930); (110948,110951);
   (110960,111355); (113664,113770); (113776,113788); (113792,113800);
   (113808,113817); (119808,119892); (119894,119964); (119966,119967);
   (119970,119970); (119973,119974); (119977,119980); (119982,119993);
   (119995,119995); (119997,120003); (120005,120069); (120071,120074);
   (120077,120084); (120086,120092); (120094,120121); (120123,120126);
   (120128,120132); (120134,120134); (120138,120144); (120146,120485);
   (120488,120512); (120514,120538); (120540,120570); (120572,120596);
   (120598,120628); (120630,120654); (120656,120686); (120688,120712);
   (120714,120744); (120746,120770); (120772,120779); (122624,122654);
   (123136,123180); (123191,123197); (123214,123214); (123536,123565);
   (123584,123627); (124896,124902); (124904,124907); (124909,124910);
   (124912,124926); (124928,125124); (125184,125251); (125259,125259);
   (126464,126467); (126469,126495); (126497,126498); (126500,126500);
   (126503,126503); (126505,126514); (126516,126519); (126521,126521);
   (126523,126523); (126530,126530); (126535,126535); (126537,126537);
   (126539,126539); (126541,126543); (126545,126546); (126548,126548);
   (126551,126551); (126553,126553); (126555,126555); (126557,126557);
   (126559,126559); (126561,126562); (126564,126564); (126567,126570);
   (126572,126578); (126580,126583); (126585,126588); (126590,126590);
   (126592,126601); (126603,126619); (126625,126627); (126629,126633);
   (126635,126651); (131072,173791); (173824,177976); (177984,178205);
   (178208,183969); (183984,191456); (194560,195101); (196608,201546)]%N.

Definition isLetter (c : char) : bool :=
  existsb (fun r => in_range (fst r) (snd r) c) letter_ranges.

(** Canonicalize of a case-insensitive pattern without the [u] flag:
    [toUpperCase] of the single character, unless that leaves ASCII from
    outside.  Spelled out for the letters of ASCII and Latin-1 that have an
    upper case in Latin-1, which covers every character of the source's
    patterns: a character has the canonical form of one of those exactly
    when it is that character in upper or lower case. *)
Definition canon (c : char) : char :=
  if in_range 97 122 c then (c - 32)%N
  else if in_range 224 254 c && negb (c =? 247)%N then (c - 32)%N
  else c.

Definition chr (p : char) : char -> bool := fun c => (c =? p)%N.
Definition chr_i (p : char) : char -> bool := fun c => (canon c =? canon p)%N.
Definition oneof (ps : jsstring) : char -> bool := fun c => existsb (fun p => (c =? p)%N) ps.
Definition oneof_i (ps : jsstring) : char -> bool :=
  fun c => existsb (fun p => (canon c =? canon p)%N) ps.

(** The text after the longest prefix in a class, and the length of that prefix. *)
Fixpoint skip (p : char -> bool) (s : jsstring) : jsstring :=
  match s with
  | c :: s' => if p c then skip p s' else s
  | [] => []
  end.

Fixpoint run (p : char -> bool) (s : jsstring) : nat :=
  match s with
  | c :: s' => if p c then S (run p s') else 0
  | [] => 0
  end.

(** [[a-z]] under the [i] flag: some member of the class has the same
    canonical form. *)
Definition az_i (c : char) : bool := in_range 65 90 (canon c).

(** ** Regular expressions

    The matcher is the continuation-passing backtracking matcher of the
    ECMAScript specification, for the constructs the parser's patterns use.
    A state is the position in the subject, the text still ahead, and the
    captures so far. *)

Record mstate := MState {
  pos : nat;
  rest : jsstring;
  caps : list (option jsstring)
}.

Definition cont := mstate -> option mstate.

Inductive regex :=
| Empty
| Cls (p : char -> bool)
| Seq (a b : regex)
| Alt (a b : regex)
| Star (greedy : bool) (r : regex)
| Group (n : nat) (r : regex)
| Bol
| Eol
| NegLook (r : regex).

(** RepeatMatcher with min 0 and no upper bound: an iteration that consumes
    nothing is rejected, so the number of iterations is bounded by the length
    of the text ahead, which is the fuel given by [m]. *)
Fixpoint repeat_m (step : mstate -> cont -> option mstate) (greedy : bool)
    (fuel : nat) (x : mstate) (k : cont) : option mstate :=
  match fuel with
  | 0 => k x
  | S f =>
      let iter :=
        step x (fun y =>
          if length (rest y) <? length (rest x)
          then repeat_m step greedy f y k else None) in
      if greedy then
        match iter with Some z => Some z | None => k x end
      else
        match k x with Some z => Some z | None => iter end
  end.

Definition advance (x : mstate) (s : jsstring) : mstate :=
  MState (S (pos x)) s (caps x).

Definition set_cap (n : nat) (x y : mstate) : mstate :=
  MState (pos y) (rest y) (<[n := Some (take (pos y - pos x) (rest x))]> (caps y)).

Fixpoint m (r : regex) (x : mstate) (k : cont) : option mstate :=
  match r with
  | Empty => k x
  | Cls p =>
      match rest x with
      | c :: s => if p c then k (advance x s) else None
      | [] => None
      end
  | Seq a b => m a x (fun y => m b y k)
  | Alt a b =>
      match m a x k with
      | Some z => Some z
      | None => m b x k
      end
  | Star g r => repeat_m (m r) g (length (rest x)) x k
  | Group n r => m r x (fun y => k (set_cap n x y))
  | Bol => if pos x =? 0 then k x else None
  | Eol => match rest x with [] => k x | _ => None end
  | NegLook r =>
      match m r x Some with
      | Some _ => None
      | None => k x
      end
  end.

(** Derived forms. *)
Definition Plus (r : regex) : regex := Seq r (Star true r).
Definition Opt (r : regex) : regex := Alt r Empty.
Fixpoint Seqs (rs : list regex) : regex :=
  match rs with
  | [] => Empty
  | [r] => r
  | r :: rs' => Seq r (Seqs rs')
  end.
Fixpoint Alts (rs : list regex) : regex :=
  match rs with
  | [] => NegLook Empty
  | [r] => r
  | r :: rs' => Alt r (Alts rs')
  end.
(** A literal, and a literal under the [i] flag. *)
Definition Lit (s : jsstring) : regex := Seqs (map (fun c => Cls (chr c)) s).
Definition LitI (s : jsstring) : regex := Seqs (map (fun c => Cls (chr_i c)) s).

(** A compiled pattern: its syntax tree and the number of capture slots
    (slot 0 is the whole match). *)
Record pattern := Pattern { pat_re : regex; pat_ncaps : nat }.

(** One attempt at position [i], with [s] the text from [i] on. *)
Definition match_at (p : pattern) (i : nat) (s : jsstring) : option mstate :=
  match m (pat_re p) (MState i s (replicate (pat_ncaps p) None)) Some with
  | Some y => Some (MState (pos y) (rest y) (<[0 := Some (take (pos y - i) s)]> (caps y)))
  | None => None
  end.

(** RegExpBuiltinExec without the sticky flag: the leftmost position at
    which the pattern matches. *)
Fixpoint search_from (p : pattern) (i : nat) (s : jsstring) : option mstate :=
  match match_at p i s with
  | Some y => Some y
  | None =>
      match s with
      | [] => None
      | _ :: s' => search_from p (S i) s'
      end
  end.

(** [re.test(s)] and [s.match(re)] for a pattern without the [g] flag. *)
Definition re_test (p : pattern) (s : jsstring) : bool :=
  bool_decide (is_Some (search_from p 0 s)).
Definition re_match (p : pattern) (s : jsstring) : option (list (option jsstring)) :=
  caps <$> search_from p 0 s.

(** [s.replace(re, template)] for a pattern with the [g] flag.  The template
    is given as a function of the captures.  After an empty match the scan
    moves one character on, as AdvanceStringIndex does. *)
Fixpoint replace_go (p : pattern) (tmpl : list (option jsstring) -> jsstring)
    (fuel i : nat) (s : jsstring) : jsstring :=
  match fuel with
  | 0 => s
  | S f =>
      match match_at p i s with
      | Some y =>
          if pos y =? i then
            match s with
            | [] => tmpl (caps y)
            | c :: s' => tmpl (caps y) ++ c :: replace_go p tmpl f (S i) s'
            end
          else tmpl (caps y) ++ replace_go p tmpl f (pos y) (rest y)
      | None =>
          match s with
          | [] => []
          | c :: s' => c :: replace_go p tmpl f (S i) s'
          end
      end
  end.

Definition replace_all (p : pattern) (tmpl : list (option jsstring) -> jsstring)
    (s : jsstring) : jsstring :=
  replace_go p tmpl (S (length s)) 0 s.

(** [$n] in a replacement template: an unset capture is the empty string. *)
Definition cap (n : nat) (cs : list (option jsstring)) : jsstring :=
  match cs !! n with
  | Some (Some g) => g
  | _ => []
  end.

(** [String.prototype.trim], [includes], [startsWith]. *)
Definition trimStart (s : jsstring) : jsstring := skip isSpace s.
Fixpoint trimEnd (s : jsstring) : jsstring :=
  match s with
  | [] => []
  | c :: s' => if forallb isSpace s then [] else c :: trimEnd s'
  end.
Definition trim (s : jsstring) : jsstring := trimEnd (trimStart s).

Fixpoint startsWith (pre s : jsstring) : bool :=
  match pre, s with
  | [], _ => true
  | p :: pre', c :: s' => (c =? p)%N && startsWith pre' s'
  | _ :: _, [] => false
  end.
Fixpoint includes (needle s : jsstring) : bool :=
  startsWith needle s ||
  match s with
  | [] => false
  | _ :: s' => includes needle s'
  end.

(** ** Text normaliser ([cleanTreeText]) *)

Definition SP : char := 32%N.
Definition NL : char := 10%N.
Definition HYPHEN : char := 45%N.
Definition BAR : char := 124%N.

(** [/(\p{L})\s+-\s+(\p{L})/gu] *)
Definition re_spaced_hyphen : pattern :=
  Pattern (Seqs [Group 1 (Cls isLetter); Plus (Cls isSpace); Cls (chr HYPHEN);
                 Plus (Cls isSpace); Group 2 (Cls isLetter)]) 3.

(** [/(\p{L})-\s*[\r\n]+\s*(\p{L})/gu] *)
Definition re_wrap_hyphen : pattern :=
  Pattern (Seqs [Group 1 (Cls isLetter); Cls (chr HYPHEN); Star true (Cls isSpace);
                 Plus (Cls (oneof [13; 10]%N)); Star true (Cls isSpace);
                 Group 2 (Cls isLetter)]) 3.

(** The look-ahead of the third pattern: [\s*(?:\d+|[a-z])\s*[-–.)]] under [i]. *)
Definition re_enum_marker : regex :=
  Seqs [Star true (Cls isSpace);
        Alt (Plus (Cls isDigit)) (Cls az_i);
        Star true (Cls isSpace);
        Cls (oneof_i (U "-–.)"))].

(** [/\n(?!\s*(?:\d+|[a-z])\s*[-–.)])/gi] *)
Definition re_newline : pattern :=
  Pattern (Seq (Cls (chr NL)) (NegLook re_enum_marker)) 1.

(** [/\s{2,}/g] *)
Definition re_spaces : pattern :=
  Pattern (Seqs [Cls isSpace; Cls isSpace; Star true (Cls isSpace)]) 1.

Definition join_groups (cs : list (option jsstring)) : jsstring := cap 1 cs ++ cap 2 cs.
Definition one_space (cs : list (option jsstring)) : jsstring := [SP].

Definition joinSpacedHyphen (s : jsstring) : jsstring := replace_all re_spaced_hyphen join_groups s.
Definition joinWrapHyphen (s : jsstring) : jsstring := replace_all re_wrap_hyphen join_groups s.
Definition unwrapNewlines (s : jsstring) : jsstring := replace_all re_newline one_space s.
Definition collapseSpaces (s : jsstring) : jsstring := replace_all re_spaces one_space s.

(** The five assignments to [node.text], guarded by [if (node.text)]. *)
Definition normalizeText (s : jsstring) : jsstring :=
  match s with
  | [] => []
  | _ => trim (collapseSpaces (unwrapNewlines (joinWrapHyphen (joinSpacedHyphen s))))
  end.

(** ** Document tree *)

Inductive NodeType := root | diploma | chapter | article.

Global Instance NodeType_eq_dec : EqDecision NodeType.
Proof. solve_decision. Defined.

Inductive BteNode := Node {
  ntype : NodeType;
  header : option jsstring;
  text : option jsstring;
  children : list BteNode
}.

Fixpoint cleanTreeText (n : BteNode) : BteNode :=
  Node (ntype n) (header n) (normalizeText <$> text n) (map cleanTreeText (children n)).


(** ** Line reconstruction ([extractTextFromPdf])

    The PDF decoder is outside the engine; the model starts from the decoded
    text items of each page.  Coordinates are JavaScript numbers; the model
    takes them in [Z], on which the subtractions, absolute values and
    comparisons of the source are exact. *)

Record TextLine := mkTextLine {
  line_text : jsstring;
  line_y : Z;
  isBold : bool;
  page : nat
}.

Record PageItem := mkPageItem {
  item_text : jsstring;
  item_y : Z;
  item_x : Z;
  hasEol : bool
}.

(** The comparator handed to [pageItems.sort]. *)
Definition compareItems (a b : PageItem) : Z :=
  if (2 <? Z.abs (item_y a - item_y b))%Z then (item_y b - item_y a)%Z
  else (item_x a - item_x b)%Z.

(** [Array.prototype.sort] is a stable sort; it is modelled as a stable
    insertion sort.  On a comparator that is a consistent ordering of the
    elements every conforming implementation returns this very list. *)
Fixpoint insertItem (a : PageItem) (l : list PageItem) : list PageItem :=
  match l with
  | [] => [a]
  | b :: l' => if (compareItems a b <=? 0)%Z then a :: l else b :: insertItem a l'
  end.

Fixpoint sortItems (l : list PageItem) : list PageItem :=
  match l with
  | [] => []
  | a :: l' => insertItem a (sortItems l')
  end.

(** The grouping loop over the sorted items of page [i]; [lastY] starts at
    the sentinel [-1]. *)
Fixpoint groupItems (i : nat) (items : list PageItem) (currentLine : jsstring) (lastY : Z)
    : list TextLine :=
  match items with
  | [] =>
      match trim currentLine with
      | [] => []
      | t => [mkTextLine t lastY false i]
      end
  | item :: items' =>
      if negb (lastY =? -1)%Z && (5 <? Z.abs (item_y item - lastY))%Z then
        match trim currentLine with
        | [] => []
        | t => [mkTextLine t lastY false i]
        end ++ groupItems i items' (item_text item ++ [SP]) (item_y item)
      else groupItems i items' (currentLine ++ item_text item ++ [SP]) (item_y item)
  end.

Definition pageLines (i : nat) (items : list PageItem) : list TextLine :=
  groupItems i (sortItems items) [] (-1).

Fixpoint pagesFrom (i : nat) (pages : list (list PageItem)) : list TextLine :=
  match pages with
  | [] => []
  | items :: pages' => pageLines i items ++ pagesFrom (S i) pages'
  end.

(** Pages are numbered from 1. *)
Definition extractTextFromPdf (pages : list (list PageItem)) : list TextLine :=
  pagesFrom 1 pages.

(** ** Noise filter ([cleanNoise]) *)

(** [/^\d+$/] *)
Definition re_only_digits : pattern :=
  Pattern (Seqs [Bol; Plus (Cls isDigit); Eol]) 1.

(** [/^BTE\s+\d+\s*\|\s*\d+$/i] *)
Definition re_bte_footer : pattern :=
  Pattern (Seqs [Bol; LitI (U "BTE"); Plus (Cls isSpace); Plus (Cls isDigit);
                 Star true (Cls isSpace); Cls (chr_i BAR); Star true (Cls isSpace);
                 Plus (Cls isDigit); Eol]) 1.

(** [ignorePatterns]: one group between [^] and [$], under [i], whose
    alternatives are CONVENÇÕES COLETIVAS, PRIVADO, REGULAMENTAÇÃO DO TRABALHO,
    ORGANIZAÇÕES DO TRABALHO, CONSELHO ECONÓMICO E SOCIAL, [ARBITRAGEM.*] and
    [Acórdão.*]. *)
Definition ignorePatterns : pattern :=
  Pattern (Seqs [Bol;
                 Group 1 (Alts [LitI (U "CONVENÇÕES COLETIVAS");
                                LitI (U "PRIVADO");
                                LitI (U "REGULAMENTAÇÃO DO TRABALHO");
                                LitI (U "ORGANIZAÇÕES DO TRABALHO");
                                LitI (U "CONSELHO ECONÓMICO E SOCIAL");
                                Seq (LitI (U "ARBITRAGEM")) (Star true (Cls dot));
                                Seq (LitI (U "Acórdão")) (Star true (Cls dot))]);
                 Eol]) 2.

(** The callback of [lines.filter]: [true] keeps the line. *)
Definition keepLine (line : TextLine) : bool :=
  let txt := trim (line_text line) in
  if re_test re_only_digits txt then false
  else if includes (U "Boletim do Trabalho e Emprego") txt then false
  else if includes (U "|") txt && includes (U "Vol.") txt && includes (U "n.º") txt then false
  else if re_test re_bte_footer txt then false
  else if re_test ignorePatterns txt then false
  else true.

Definition cleanNoise (lines : list TextLine) : list TextLine :=
  List.filter keepLine lines.


(** ** Metadata extraction ([convertDateToISO], [extractGlobalMetadata]) *)

(** A call either returns or throws (a [TypeError] on a property access on
    [undefined]). *)
Inductive outcome (A : Type) :=
| Returned (a : A)
| Thrown.
Arguments Returned {A} a.
Arguments Thrown {A}.

(** A variable that holds a string or [undefined]. *)
Abbreviation jsval := (option jsstring).
Definition truthy (v : jsval) : bool :=
  match v with
  | Some (_ :: _) => true
  | _ => false
  end.
(** String conversion in a template literal or a property key. *)
Definition toStr (v : jsval) : jsstring :=
  match v with
  | Some s => s
  | None => U "undefined"
  end.
(** [match[n]] *)
Definition group (n : nat) (cs : list (option jsstring)) : jsval :=
  match cs !! n with
  | Some v => v
  | None => None
  end.

(** [s.split(re)] (SplitMatcher tries the pattern at each position [q]; a
    match that ends where the current piece began is skipped). *)
Fixpoint split_go (p : pattern) (fuel i : nat) (acc s : jsstring) : list jsstring :=
  match fuel with
  | 0 => [acc ++ s]
  | S f =>
      match s with
      | [] => [acc]
      | c :: s' =>
          match match_at p i s with
          | Some y =>
              if (pos y =? i) && bool_decide (acc = [])
              then split_go p f (S i) (acc ++ [c]) s'
              else acc :: split_go p f (pos y) [] (rest y)
          | None => split_go p f (S i) (acc ++ [c]) s'
          end
      end
  end.

Definition split (p : pattern) (s : jsstring) : list jsstring :=
  match s with
  | [] => match match_at p 0 [] with Some _ => [] | None => [[]] end
  | _ => split_go p (2 * length s + 1) 0 [] s
  end.

(** [findIndex]; [None] stands for [-1]. *)
Fixpoint findIndex {A} (f : A -> bool) (l : list A) : option nat :=
  match l with
  | [] => None
  | x :: l' => if f x then Some 0 else S <$> findIndex f l'
  end.

(** [s.padStart(2, '0')] *)
Definition padStart2 (s : jsstring) : jsstring :=
  if 2 <=? js_length s then s else replicate (2 - js_length s) 48%N ++ s.

(** What the parser takes from its host: [String.prototype.toLowerCase],
    today's date as [new Date().toISOString().split('T')[0]] gives it, and
    the text a template literal gives for a member inherited from
    [Object.prototype]. *)
Record Host := mkHost {
  toLowerCase : jsstring -> jsstring;
  today : jsstring;
  inheritedText : jsstring -> jsstring
}.

(** The [map] object of [convertDateToISO]: twelve own properties, and
    behind them the members of [Object.prototype]. *)
Definition monthTable : list (jsstring * jsstring) :=
  [(U "janeiro", U "01"); (U "fevereiro", U "02"); (U "março", U "03");
   (U "abril", U "04"); (U "maio", U "05"); (U "junho", U "06");
   (U "julho", U "07"); (U "agosto", U "08"); (U "setembro", U "09");
   (U "outubro", U "10"); (U "novembro", U "11"); (U "dezembro", U "12")].

Definition objectPrototypeKeys : list jsstring :=
  [U "constructor"; U "__defineGetter__"; U "__defineSetter__"; U "hasOwnProperty";
   U "__lookupGetter__"; U "__lookupSetter__"; U "isPrototypeOf";
   U "propertyIsEnumerable"; U "toString"; U "valueOf"; U "__proto__";
   U "toLocaleString"].

Inductive mapValue :=
| MonthCode (code : jsstring)
| Inherited (key : jsstring).

Fixpoint assoc (k : jsstring) (t : list (jsstring * jsstring)) : option jsstring :=
  match t with
  | [] => None
  | (k', v) :: t' => if str_eqb k k' then Some v else assoc k t'
  end.

(** [map[p]]; [None] is [undefined]. *)
Definition mapLookup (p : jsstring) : option mapValue :=
  match assoc p monthTable with
  | Some code => Some (MonthCode code)
  | None => if bool_decide (p ∈ objectPrototypeKeys) then Some (Inherited p) else None
  end.

(** Every value of the map is truthy: a non-empty string, a function or an
    object. *)
Definition mapTruthy (v : option mapValue) : bool :=
  match v with
  | Some _ => true
  | None => false
  end.

Definition mapText (h : Host) (v : option mapValue) : jsstring :=
  match v with
  | Some (MonthCode code) => code
  | Some (Inherited key) => inheritedText h key
  | None => U "undefined"
  end.

(** [/\s+de\s+/g] *)
Definition re_de : pattern :=
  Pattern (Seqs [Plus (Cls isSpace); Lit (U "de"); Plus (Cls isSpace)]) 1.

(** [/\s+/] *)
Definition re_ws : pattern := Pattern (Plus (Cls isSpace)) 1.

Definition convertDateToISO (h : Host) (ptDate : jsval) : outcome jsstring :=
  match ptDate with
  | None => Thrown
  | Some ptDate =>
      let cleanDate := replace_all re_de one_space (toLowerCase h ptDate) in
      let parts := split re_ws cleanDate in
      if length parts <? 3 then Returned (today h)
      else
        let monthIndex := findIndex (fun p => mapTruthy (mapLookup p)) parts in
        let reassign :=
          match monthIndex with
          | Some mi => (0 <? mi) && (mi + 1 <? length parts)
          | None => false
          end in
        let mi := default 0 monthIndex in
        let day : jsval := if reassign then parts !! (mi - 1) else parts !! 0 in
        let monthName : jsval := if reassign then parts !! mi else parts !! 1 in
        let year : jsval := if reassign then parts !! (mi + 1) else parts !! 2 in
        let month := mapLookup (toStr monthName) in
        match day with
        | None => Thrown
        | Some d =>
            let day := padStart2 d in
            if truthy (Some day) && mapTruthy month && truthy year
               && (js_length (toStr year) =? 4)
            then Returned (toStr year ++ U "-" ++ mapText h month ++ U "-" ++ day)
            else Returned (today h)
        end
  end.

Inductive BteDocumentType := issue | offprint.

Record DownloadedFile := mkDownloadedFile {
  url : jsstring;
  docType : BteDocumentType;
  year : jsstring;
  number : jsstring
}.

(** The pattern "/^(.*?)\s*\|\s*n\.º\s*(\d+)\s*\|\s*Vol\.\s*(\d+)/i" *)
Definition headerLineRegex : pattern :=
  Pattern (Seqs [Bol; Group 1 (Star false (Cls dot));
                 Star true (Cls isSpace); Cls (chr_i BAR);
                 Star true (Cls isSpace); LitI (U "n.º");
                 Star true (Cls isSpace); Group 2 (Plus (Cls isDigit));
                 Star true (Cls isSpace); Cls (chr_i BAR);
                 Star true (Cls isSpace); LitI (U "Vol.");
                 Star true (Cls isSpace); Group 3 (Plus (Cls isDigit))]) 4.

Definition monthsRegex : regex :=
  Group 1 (Alts (map LitI [U "janeiro"; U "fevereiro"; U "março"; U "abril"; U "maio";
                           U "junho"; U "julho"; U "agosto"; U "setembro"; U "outubro";
                           U "novembro"; U "dezembro"])).

(** [\d{1,2}\s+(?:de\s+)?], the months, [\s+(?:de\s+)?\d{4}], under [i] *)
Definition dateRegex : pattern :=
  Pattern (Seqs [Cls isDigit; Opt (Cls isDigit); Plus (Cls isSpace);
                 Opt (Seq (LitI (U "de")) (Plus (Cls isSpace)));
                 monthsRegex; Plus (Cls isSpace);
                 Opt (Seq (LitI (U "de")) (Plus (Cls isSpace)));
                 Cls isDigit; Cls isDigit; Cls isDigit; Cls isDigit]) 2.

Record scanState := mkScan {
  foundDateText : jsval;
  foundVolume : jsval;
  foundNumber : jsval
}.

(** The [for] loop over the first lines: [n] iterations are left, [i] is
    the index. *)
Fixpoint scanLines (n i : nat) (lines : list TextLine) (st : scanState) : outcome scanState :=
  match n with
  | 0 => Returned st
  | S n' =>
      match lines !! i with
      | None => Thrown
      | Some line =>
          let txt := trim (line_text line) in
          match re_match headerLineRegex txt with
          | Some headerMatch =>
              match group 1 headerMatch with
              | None => Thrown
              | Some g =>
                  Returned (mkScan (Some (trim g)) (group 3 headerMatch) (group 2 headerMatch))
              end
          | None =>
              let st' :=
                if negb (truthy (foundDateText st)) then
                  match re_match dateRegex txt with
                  | Some matchDate => mkScan (group 0 matchDate) (foundVolume st) (foundNumber st)
                  | None => st
                  end
                else st in
              scanLines n' (S i) lines st'
          end
      end
  end.

Record Metadata := mkMetadata {
  date : jsstring;
  reference : jsstring
}.

Definition extractGlobalMetadata (h : Host) (lines : list TextLine) (file : DownloadedFile)
    : outcome Metadata :=
  match scanLines (Nat.min (length lines) 10) 0 lines
          (mkScan (Some []) (Some []) (Some (number file))) with
  | Thrown => Thrown
  | Returned st =>
      match (if truthy (foundDateText st) then convertDateToISO h (foundDateText st)
             else Returned (year file ++ U "-01-01")) with
      | Thrown => Thrown
      | Returned dateStr =>
          let datePart :=
            if truthy (foundDateText st) then
              let prefix :=
                if startsWith (U "de ") (toLowerCase h (toStr (foundDateText st)))
                then [] else U "de " in
              U ", " ++ prefix ++ toStr (foundDateText st)
            else U ", de " ++ year file in
          let volPart :=
            if truthy (foundVolume st) then U ", Vol. " ++ toStr (foundVolume st) else [] in
          let fullReference := U "BTE n.º " ++ toStr (foundNumber st) ++ volPart ++ datePart in
          Returned (mkMetadata dateStr fullReference)
      end
  end.


(** ** Tree builder ([buildTree], [addChild], [popUntilType])

    The nodes the builder creates are shared between the tree and the stack
    and are updated in place, so they live in a store: a node is its index,
    a [children] array holds indices, and so does the stack.  The root is
    node 0.  The stack is kept with its top at the head of the list. *)

Record HNode := mkHNode {
  h_type : NodeType;
  h_header : option jsstring;
  h_text : jsval;
  h_children : list nat
}.

Abbreviation store := (list HNode).
Definition builder := (store * list nat)%type.

Definition rootNode : HNode := mkHNode root None None [].

Definition typeOf (hp : store) (id : nat) : NodeType :=
  match hp !! id with
  | Some n => h_type n
  | None => root
  end.

(** [stack[stack.length - 1]] *)
Definition top (stack : list nat) : nat := hd 0 stack.

Definition pushChild (id : nat) (parent : HNode) : HNode :=
  mkHNode (h_type parent) (h_header parent) (h_text parent) (h_children parent ++ [id]).

Definition addChild (b : builder) (node : HNode) : builder :=
  let '(hp, stack) := b in
  let id := length hp in
  (alter (pushChild id) (top stack) (hp ++ [node]), id :: stack).

Fixpoint popUntilType (hp : store) (types : list NodeType) (stack : list nat) : list nat :=
  match stack with
  | current :: (_ :: _) as below =>
      if bool_decide (typeOf hp current ∈ types) then stack
      else popUntilType hp types below
  | _ => stack
  end.

(** The pattern "/^(Portaria|Decreto-Lei|Despacho|Acordo|Contrato|Convenção|Decisão|Parecer|Aviso)\s+(n\.º|número)?/i" *)
Definition re_diploma : pattern :=
  Pattern (Seqs [Bol;
                 Group 1 (Alts (map LitI [U "Portaria"; U "Decreto-Lei"; U "Despacho";
                                          U "Acordo"; U "Contrato"; U "Convenção";
                                          U "Decisão"; U "Parecer"; U "Aviso"]));
                 Plus (Cls isSpace);
                 Opt (Group 2 (Alt (LitI (U "n.º")) (LitI (U "número"))))]) 3.

(** [[IVXLCDM\d]] under [i] *)
Definition isNumeral (c : char) : bool := oneof_i (U "IVXLCDM") c || isDigit c.

(** [/^(Capítulo|Secção|Anexo)\s+[IVXLCDM\d]+|^Preâmbulo/i] *)
Definition re_structure : pattern :=
  Pattern (Alt (Seqs [Bol; Group 1 (Alts (map LitI [U "Capítulo"; U "Secção"; U "Anexo"]));
                      Plus (Cls isSpace); Plus (Cls isNumeral)])
               (Seq Bol (LitI (U "Preâmbulo")))) 2.

(** [/^(Artigo|Cláusula)\s+\d+/i] *)
Definition re_article : pattern :=
  Pattern (Seqs [Bol; Group 1 (Alt (LitI (U "Artigo")) (LitI (U "Cláusula")));
                 Plus (Cls isSpace); Plus (Cls isDigit)]) 2.

(** [/^Preâmbulo$/i] *)
Definition re_strict_preambulo : pattern :=
  Pattern (Seqs [Bol; LitI (U "Preâmbulo"); Eol]) 1.

(** [/^\d+[\.\-]/] *)
Definition re_numbered : pattern :=
  Pattern (Seqs [Bol; Plus (Cls isDigit); Cls (oneof (U ".-"))]) 1.

(** [/^(Preâmbulo)/i] *)
Definition re_preambulo : pattern :=
  Pattern (Seq Bol (Group 1 (LitI (U "Preâmbulo")))) 2.

(** [/[.:;]$/] *)
Definition re_end_punct : pattern :=
  Pattern (Seq (Cls (oneof (U ".:;"))) Eol) 1.

(** The three tests in their order of priority. *)
Definition classify (text : jsstring) : option NodeType :=
  if re_test re_diploma text then Some diploma
  else if re_test re_structure text then Some chapter
  else if re_test re_article text then Some article
  else None.

Definition looksLikeTitle (nextLine : jsstring) : bool :=
  (0 <? js_length nextLine) &&
  (js_length nextLine <? 250) &&
  negb (re_test re_article nextLine) &&
  negb (re_test re_structure nextLine) &&
  negb (re_test re_diploma nextLine) &&
  negb (re_test re_numbered nextLine) &&
  negb (re_test re_preambulo nextLine) &&
  negb (re_test re_end_punct nextLine).

(** The inner [while]: extend the header over the following lines. *)
Fixpoint mergeHeader (headerText : jsstring) (following : list TextLine)
    : jsstring * list TextLine :=
  match following with
  | next :: following' =>
      let nextLine := trim (line_text next) in
      if looksLikeTitle nextLine
      then mergeHeader (headerText ++ [SP] ++ nextLine) following'
      else (headerText, following)
  | [] => (headerText, [])
  end.

Definition newNode (matchedType : NodeType) (headerText : jsstring) : HNode :=
  mkHNode matchedType (Some headerText)
    (if bool_decide (matchedType = article) then Some [] else None) [].

(** Where a new node goes, by its type. *)
Definition placeNode (b : builder) (node : HNode) : builder :=
  let '(hp, stack) := b in
  match h_type node with
  | diploma => addChild (hp, [0]) node
  | chapter => addChild (hp, popUntilType hp [diploma; root] stack) node
  | article => addChild (hp, popUntilType hp [chapter; diploma; root] stack) node
  | root => b
  end.

(** [currentNode.text += ...] on a node that is not the root. *)
Definition appendText (text : jsstring) (n : HNode) : HNode :=
  let t0 : jsstring := if truthy (h_text n) then toStr (h_text n) else [] in
  mkHNode (h_type n) (h_header n)
    (Some (t0 ++ (if truthy (Some t0) then [NL] else []) ++ text)) (h_children n).

Definition addBody (text : jsstring) (b : builder) : builder :=
  let '(hp, stack) := b in
  let currentNode := top stack in
  if bool_decide (typeOf hp currentNode = root) then b
  else (alter (appendText text) currentNode hp, stack).

(** The [for] loop, on the lines from index [i] on.  A step takes at least
    one line, so as many steps as there are lines suffice. *)
Fixpoint buildLoop (fuel : nat) (lines : list TextLine) (b : builder) : builder :=
  match fuel with
  | 0 => b
  | S f =>
      match lines with
      | [] => b
      | line :: following =>
          let text := trim (line_text line) in
          match classify text with
          | Some matchedType =>
              let '(headerText, following') :=
                if re_test re_strict_preambulo (trim text) then (text, following)
                else mergeHeader text following in
              buildLoop f following' (placeNode b (newNode matchedType headerText))
          | None => buildLoop f following (addBody text b)
          end
      end
  end.

(** Reading the tree off the store, from node [id] down. *)
Fixpoint reify (fuel : nat) (hp : store) (id : nat) : BteNode :=
  match fuel with
  | 0 => Node root None None []
  | S f =>
      match hp !! id with
      | Some n => Node (h_type n) (h_header n) (h_text n) (map (reify f hp) (h_children n))
      | None => Node root None None []
      end
  end.

Definition buildStore (lines : list TextLine) : builder :=
  buildLoop (length lines) lines ([rootNode], [0]).

Definition buildTree (lines : list TextLine) : BteNode :=
  let hp := fst (buildStore lines) in
  reify (length hp) hp 0.

(** ** The whole pass ([parse])

    The decoded pages stand for [file.buffer]. *)

Record BteDocumentRoot := mkBteDocumentRoot {
  doc_type : BteDocumentType;
  doc_reference : jsstring;
  doc_date : jsstring;
  doc_url : jsstring;
  doc_root : BteNode
}.

Definition parse (h : Host) (pages : list (list PageItem)) (file : DownloadedFile)
    : outcome BteDocumentRoot :=
  let rawLines := extractTextFromPdf pages in
  match extractGlobalMetadata h rawLines file with
  | Thrown => Thrown
  | Returned md =>
      let cleanLines := cleanNoise rawLines in
      let rootNode := buildTree cleanLines in
      Returned (mkBteDocumentRoot (docType file) (reference md) (date md) (url file)
                  (cleanTreeText rootNode))
  end.

(** ** Auxiliary functions used in the statements and proofs *)

(** Does the pattern contain capture group [n]? *)
Fixpoint has_group (n : nat) (r : regex) : bool :=
  match r with
  | Empty | Cls _ | Bol | Eol => false
  | Seq a b | Alt a b => has_group n a || has_group n b
  | Star _ r | NegLook r => has_group n r
  | Group n' r => (n =? n') || has_group n r
  end.

(** State [y] can be handed to the continuation of a match of [r] started
    in [x]: it lies further on in the text, its position has moved with
    the text, and it differs from [x] only in the captures of [r]. *)
Definition reach (r : regex) (x y : mstate) : Prop :=
  suffix (rest y) (rest x) /\
  pos y + length (rest y) = pos x + length (rest x) /\
  length (caps y) = length (caps x) /\
  forall n, has_group n r = false -> caps y !! n = caps x !! n.

(** What a greedy [p*] does in front of a continuation: the longest run
    first, then shorter ones. *)
Fixpoint greedy_cls (p : char -> bool) (i : nat) (s : jsstring)
    (cs : list (option jsstring)) (k : cont) : option mstate :=
  match s with
  | c :: s' =>
      if p c then
        match greedy_cls p (S i) s' cs k with
        | Some z => Some z
        | None => k (MState i s cs)
        end
      else k (MState i s cs)
  | [] => k (MState i [] cs)
  end.


Definition head_in (p : char -> bool) (s : jsstring) : bool :=
  match s with
  | c :: _ => p c
  | [] => false
  end.

(** [[-–.)]] under the [i] flag. *)
Definition isDelim : char -> bool := oneof_i (U "-–.)").

(** Closed form of the look-ahead [\s*(?:\d+|[a-z])\s*[-–.)]]: does the text
    start with an enumeration marker? *)
Definition enum_ahead (s : jsstring) : bool :=
  match skip isSpace s with
  | c :: s2 =>
      if isDigit c then head_in isDelim (skip isSpace (skip isDigit s2))
      else if az_i c then head_in isDelim (skip isSpace s2)
      else false
  | [] => false
  end.

(** Closed form of the newline replacement: each newline that is not
    followed by an enumeration marker becomes a space. *)
Fixpoint unwrap_spec (s : jsstring) : jsstring :=
  match s with
  | [] => []
  | c :: s' => (if (c =? NL)%N && negb (enum_ahead s') then SP else c) :: unwrap_spec s'
  end.

(** Closed form of the whitespace collapse; [inrun] says that the scan is
    inside a run of two or more that has already been replaced. *)
Fixpoint coll (inrun : bool) (s : jsstring) : jsstring :=
  match s with
  | [] => []
  | c :: s' =>
      if isSpace c then
        if inrun then coll true s'
        else if head_in isSpace s' then SP :: coll true s'
        else c :: coll false s'
      else c :: coll false s'
  end.

(** No two neighbouring whitespace characters. *)
Fixpoint NoAdj (s : jsstring) : Prop :=
  match s with
  | c :: s' => (isSpace c = true -> head_in isSpace s' = false) /\ NoAdj s'
  | [] => True
  end.

(** Every newline is followed by an enumeration marker. *)
Fixpoint NLok (s : jsstring) : Prop :=
  match s with
  | c :: s' => (c = NL -> enum_ahead s' = true) /\ NLok s'
  | [] => True
  end.

(** The rejection tests of the noise filter, as the source lists them. *)
Definition onlyDigits (txt : jsstring) : bool := re_test re_only_digits txt.
Definition publicationName (txt : jsstring) : bool :=
  includes (U "Boletim do Trabalho e Emprego") txt.
Definition volumeHeader (txt : jsstring) : bool :=
  includes (U "|") txt && includes (U "Vol.") txt && includes (U "n.º") txt.
Definition bteFooter (txt : jsstring) : bool := re_test re_bte_footer txt.
Definition categoryCaption (txt : jsstring) : bool := re_test ignorePatterns txt.

Definition rejected (line : TextLine) : bool :=
  let txt := trim (line_text line) in
  onlyDigits txt || publicationName txt || volumeHeader txt || bteFooter txt
  || categoryCaption txt.

(** A page item with its end-of-line flag replaced. *)
Definition withEol (flag : PageItem -> bool) (it : PageItem) : PageItem :=
  mkPageItem (item_text it) (item_y it) (item_x it) (flag it).

(** Two items are on one visual row for the comparator. *)
Definition sameRow (a b : PageItem) : Prop := (Z.abs (item_y a - item_y b) <= 2)%Z.

(** The comparator orders the items of a page consistently: being on one
    row is transitive among them, and no two different items tie. *)
Definition consistentPage (l : list PageItem) : Prop :=
  (forall a b c, a ∈ l -> b ∈ l -> c ∈ l -> sameRow a b -> sameRow b c -> sameRow a c) /\
  (forall a b, a ∈ l -> b ∈ l -> compareItems a b = 0%Z -> a = b).

Definition itemLe (a b : PageItem) : Prop := (compareItems a b <= 0)%Z.

(** A host for the examples: lower-casing of ASCII and Latin-1. *)
Definition latin1Lower (c : char) : char :=
  if in_range 65 90 c then (c + 32)%N
  else if in_range 192 222 c && negb (c =? 215)%N then (c + 32)%N
  else c.
Definition sampleHost : Host :=
  mkHost (map latin1Lower) (U "2026-11-02") (fun _ => U "[object Object]").

Fixpoint takeWhile {A} (f : A -> bool) (l : list A) : list A :=
  match l with
  | x :: l' => if f x then x :: takeWhile f l' else []
  | [] => []
  end.

Fixpoint dropWhile {A} (f : A -> bool) (l : list A) : list A :=
  match l with
  | x :: l' => if f x then dropWhile f l' else l
  | [] => []
  end.

(** Which parent a node of each kind may hang under. *)
Definition allowedChild (parent child : NodeType) : bool :=
  match child with
  | root => false
  | diploma => bool_decide (parent = root)
  | chapter => bool_decide (parent = diploma) || bool_decide (parent = root)
  | article =>
      bool_decide (parent = chapter) || bool_decide (parent = diploma)
      || bool_decide (parent = root)
  end.

(** The parent and child kinds along every edge of a tree, every node of a
    tree, the kinds along every path that starts at its top, and its height
    in levels. *)
Fixpoint edges (n : BteNode) : list (NodeType * NodeType) :=
  flat_map (fun c => (ntype n, ntype c) :: edges c) (children n).

Fixpoint nodes (n : BteNode) : list BteNode :=
  n :: flat_map nodes (children n).

Fixpoint paths (n : BteNode) : list (list NodeType) :=
  [ntype n] :: map (cons (ntype n)) (flat_map paths (children n)).

Fixpoint height (n : BteNode) : nat :=
  S (list_max (map height (children n))).

(** Kinds agree with [allowedChild] on every edge below [n], and every
    article below [n] has its text set. *)
Fixpoint wellKinded (n : BteNode) : bool :=
  (if bool_decide (ntype n = article) then bool_decide (is_Some (text n)) else true) &&
  forallb (fun c => allowedChild (ntype n) (ntype c) && wellKinded c) (children n).

Definition kindsFrom (k : NodeType) : list NodeType :=
  match k with
  | root => [root; diploma; chapter; article]
  | diploma => [diploma; chapter; article]
  | chapter => [chapter; article]
  | article => [article]
  end.

(** The store is a well-formed tree rooted at node 0. *)
Definition storeOk (hp : store) : Prop :=
  (exists cs, hp !! 0 = Some (mkHNode root None None cs)) /\
  (forall id n, hp !! id = Some n ->
     (h_type n = root -> id = 0) /\
     (h_type n = article -> is_Some (h_text n)) /\
     Forall (fun c => id < c /\
               exists cn, hp !! c = Some cn /\ allowedChild (h_type n) (h_type cn) = true)
            (h_children n)).

(** The stack is not empty, rests on the root and holds nodes of the store. *)
Definition stackOk (hp : store) (stack : list nat) : Prop :=
  last stack = Some 0 /\ Forall (fun id => id < length hp) stack.

Definition rank (k : NodeType) : nat :=
  match k with
  | root => 0
  | diploma => 1
  | chapter => 2
  | article => 3
  end.

(** Induction on trees, with the hypothesis for all the children. *)
Fixpoint BteNode_forall_ind (P : BteNode -> Prop)
    (step : forall ty h t cs, Forall P cs -> P (Node ty h t cs)) (n : BteNode) : P n :=
  match n with
  | Node ty h t cs =>
      step ty h t cs
        ((fix go (l : list BteNode) : Forall P l :=
            match l with
            | [] => @List.Forall_nil _ P
            | c :: l' => @List.Forall_cons _ P c l' (BteNode_forall_ind P step c) (go l')
            end) cs)
  end.


(** The test of the inner [while] of the builder on a following line. *)
Definition continuesHeader (l : TextLine) : bool := looksLikeTitle (trim (line_text l)).

(** The builder before the first line. *)
Definition initialBuilder : builder := ([rootNode], [0]).

Global Instance PageItem_eq_dec : EqDecision PageItem.
Proof. solve_decision. Defined.

Definition sameRowb (a b : PageItem) : bool := (Z.abs (item_y a - item_y b) <=? 2)%Z.

(** [consistentPage] as a test. *)
Definition consistentPageb (l : list PageItem) : bool :=
  forallb (fun a =>
    forallb (fun b =>
      (if (compareItems a b =? 0)%Z then bool_decide (a = b) else true) &&
      forallb (fun c => implb (sameRowb a b && sameRowb b c) (sameRowb a c)) l) l) l.

(** Sample inputs for the examples. *)
Definition tl (s : String.string) : TextLine := mkTextLine (U s) 0 false 1.
Definition file1 : DownloadedFile :=
  mkDownloadedFile (U "https://bte.gep.msess.gov.pt/x.pdf") issue (U "2024") (U "7").

(** A file with another document type. *)
Definition withDocType (t : BteDocumentType) (file : DownloadedFile) : DownloadedFile :=
  mkDownloadedFile (url file) t (year file) (number file).

(** ** Further auxiliary functions *)

(** The characters of a text that are not whitespace. *)
Definition visible (s : jsstring) : jsstring := List.filter (fun c => negb (isSpace c)) s.

(** What the grouping loop pushes when it closes the current line. *)
Definition flushLine (i : nat) (currentLine : jsstring) (lastY : Z) : list TextLine :=
  match trim currentLine with
  | [] => []
  | t => [mkTextLine t lastY false i]
  end.

(** A line moved [k] pages on. *)
Definition onLaterPage (k : nat) (l : TextLine) : TextLine :=
  mkTextLine (line_text l) (line_y l) (isBold l) (k + page l).


(** The items of a page that show something: those whose text has a
    character that is not whitespace. *)
Definition visibleItems (items : list PageItem) : list PageItem :=
  List.filter (fun it => negb (forallb isSpace (item_text it))) items.

(** The characters of a text that are neither whitespace nor a
    hyphen-minus. *)
Definition ink (s : jsstring) : jsstring :=
  List.filter (fun c => negb (isSpace c) && negb (c =? HYPHEN)%N) s.

(** ** The tree and the order of the document *)

(** What a node says, without its children: kind, header and text. *)
Definition entry : Type := (NodeType * option jsstring * jsval)%type.
Definition content (n : BteNode) : entry := (ntype n, header n, text n).
Definition hcontent (n : HNode) : entry := (h_type n, h_header n, h_text n).
Definition contentAt (hp : store) (id : nat) : entry :=
  match hp !! id with
  | Some n => hcontent n
  | None => (root, None, None)
  end.

(** The nodes of the store reached from [id], each parent before its
    children and the children in their order. *)
Fixpoint preorder (fuel : nat) (hp : store) (id : nat) : list nat :=
  match fuel with
  | 0 => []
  | S f =>
      match hp !! id with
      | Some n => id :: flat_map (preorder f hp) (h_children n)
      | None => []
      end
  end.

(** The stack is a branch of the tree that ends in the newest nodes: each
    entry is the last child of the entry below it. *)
Fixpoint chain (hp : store) (stack : list nat) : Prop :=
  match stack with
  | c :: (p :: _) as below =>
      (p < c /\ exists n, hp !! p = Some n /\ last (h_children n) = Some c) /\ chain hp below
  | _ => True
  end.

(** Under every entry of the stack lie exactly the nodes created after
    it. *)
Definition spineOk (hp : store) (stack : list nat) : Prop :=
  chain hp stack /\
  Forall (fun s => preorder (length hp) hp s = seq s (length hp - s)) stack.

(** The builder between two lines: the top of the stack is the node created
    last. *)
Definition builderOk (b : builder) : Prop :=
  storeOk (fst b) /\ stackOk (fst b) (snd b) /\ spineOk (fst b) (snd b) /\
  S (top (snd b)) = length (fst b).

(** The loop of the builder without the tree: the headings in the order of
    the document, each with its kind, its header merged over the lines that
    continue it, and the text of the lines up to the next heading.  [cur]
    is the entry under construction; the first one stands for the root. *)
Definition newEntry (matchedType : NodeType) (headerText : jsstring) : entry :=
  (matchedType, Some headerText, if bool_decide (matchedType = article) then Some [] else None).

Definition entryBody (text : jsstring) (e : entry) : entry :=
  let '(ty, hd, t) := e in
  if bool_decide (ty = root) then e
  else
    let t0 : jsstring := if truthy t then toStr t else [] in
    (ty, hd, Some (t0 ++ (if truthy (Some t0) then [NL] else []) ++ text)).

Fixpoint outlineLoop (fuel : nat) (lines : list TextLine) (cur : entry) : list entry :=
  match fuel with
  | 0 => [cur]
  | S f =>
      match lines with
      | [] => [cur]
      | line :: following =>
          let text := trim (line_text line) in
          match classify text with
          | Some matchedType =>
              let '(headerText, following') :=
                if re_test re_strict_preambulo (trim text) then (text, following)
                else mergeHeader text following in
              cur :: outlineLoop f following' (newEntry matchedType headerText)
          | None => outlineLoop f following (entryBody text cur)
          end
      end
  end.

Definition outline (lines : list TextLine) : list entry :=
  outlineLoop (length lines) lines (root, None, None).

(** The header of a heading line and the lines left after it, as the loop
    of the builder takes them. *)
Definition splitHeader (text : jsstring) (following : list TextLine)
    : jsstring * list TextLine :=
  if re_test re_strict_preambulo (trim text) then (text, following)
  else mergeHeader text following.

(** [ls.join("\n")] *)
Definition joinNL (ls : list jsstring) : jsstring :=
  match ls with
  | [] => []
  | l :: ls' => l ++ flat_map (cons NL) ls'
  end.

(** The text a node of kind [ty] ends up with when [body] are the lines
    under its header. *)
Definition bodyText (ty : NodeType) (body : list jsstring) : jsval :=
  match body with
  | [] => if bool_decide (ty = article) then Some [] else None
  | _ => Some (joinNL (dropWhile (fun s => bool_decide (s = [])) body))
  end.

(** ** Dates *)

(** A non-empty run of whitespace. *)
Definition isBlank (ws : jsstring) : bool :=
  match ws with
  | [] => false
  | _ => forallb isSpace ws
  end.

(** A text without whitespace. *)
Definition isWord (w : jsstring) : bool := forallb (fun c => negb (isSpace c)) w.

(** Does the text start with the word [de] and whitespace? *)
Definition deAhead (s : jsstring) : bool :=
  match s with
  | 100%N :: 101%N :: c :: _ => isSpace c
  | _ => false
  end.

(** What may stand between the parts of a date: whitespace, or the word
    [de] between whitespace. *)
Definition isDateSep (sep : jsstring) : bool :=
  match sep with
  | c :: sep' =>
      isSpace c &&
      match skip isSpace sep' with
      | [] => true
      | r => deAhead r && forallb isSpace (drop 2 r)
      end
  | [] => false
  end.

(** The replacement of the word [de], with the fuel normalised. *)
Definition dropDe (i : nat) (s : jsstring) : jsstring :=
  replace_go re_de one_space (S (length s)) i s.

(** Splitting at whitespace, with the fuel normalised. *)
Definition splitWs (i : nat) (acc s : jsstring) : list jsstring :=
  split_go re_ws (2 * length s + 2) i acc s.

(** ** Noise filter: the tests in closed form *)

(** Equality and prefix of texts under the [i] flag. *)
Fixpoint startsWith_i (pre s : jsstring) : bool :=
  match pre, s with
  | [], _ => true
  | p :: pre', c :: s' => chr_i p c && startsWith_i pre' s'
  | _ :: _, [] => false
  end.

Definition equals_i (lit s : jsstring) : bool :=
  startsWith_i lit s && (length s =? length lit).

(** The captions that are dropped as they stand, and the words that drop a
    line whatever follows them on the line. *)
Definition captions : list jsstring :=
  [U "CONVENÇÕES COLETIVAS"; U "PRIVADO"; U "REGULAMENTAÇÃO DO TRABALHO";
   U "ORGANIZAÇÕES DO TRABALHO"; U "CONSELHO ECONÓMICO E SOCIAL"].
Definition captionStarts : list jsstring := [U "ARBITRAGEM"; U "Acórdão"].

(** ** The crawler (src/crawler.ts)

    The web is outside the crawler: [get t u] is what the request for URL
    [u] gives when it is the [t]-th request of the crawl, [None] when the
    HTTP client throws (no answer in time, or a status other than 200).
    The page with the year lists is read by another part; its result is the
    [scope] given to [crawlAll].  Counters are JavaScript numbers, which
    count exactly far beyond any number of documents; they are taken in
    [nat], the limit in [Z]. *)

From Stdlib Require DecimalNat.

Record DropdownOption := mkDropdownOption {
  opt_value : jsstring;
  opt_label : jsstring
}.

Record CrawlerConfig := mkCrawlerConfig {
  BASE_URL : jsstring;
  FORM_URL_ISSUE : jsstring;
  FORM_URL_OFFPRINT : jsstring;
  MAX_CONSECUTIVE_FAILURES : nat
}.

Definition DEFAULT_CONFIG : CrawlerConfig :=
  mkCrawlerConfig (U "https://bte.gep.msess.gov.pt")
    (U "https://bte.gep.msess.gov.pt/bte_consulta_n_anteriores.php")
    (U "https://bte.gep.msess.gov.pt/sep_consulta_n_anteriores.php")
    10.

(** [n.toString()] for a counter. *)
Fixpoint uint_chars (d : Decimal.uint) : jsstring :=
  match d with
  | Decimal.Nil => []
  | Decimal.D0 d' => 48%N :: uint_chars d'
  | Decimal.D1 d' => 49%N :: uint_chars d'
  | Decimal.D2 d' => 50%N :: uint_chars d'
  | Decimal.D3 d' => 51%N :: uint_chars d'
  | Decimal.D4 d' => 52%N :: uint_chars d'
  | Decimal.D5 d' => 53%N :: uint_chars d'
  | Decimal.D6 d' => 54%N :: uint_chars d'
  | Decimal.D7 d' => 55%N :: uint_chars d'
  | Decimal.D8 d' => 56%N :: uint_chars d'
  | Decimal.D9 d' => 57%N :: uint_chars d'
  end.
Definition toString (n : nat) : jsstring := uint_chars (Nat.to_uint n).

Definition generateUrlPatterns (baseUrl : jsstring) (type : BteDocumentType)
    (year number : jsstring) : list jsstring :=
  match type with
  | issue => [baseUrl ++ U "/completos/" ++ year ++ U "/bte" ++ number ++ U "_" ++ year ++ U ".pdf"]
  | offprint => [baseUrl ++ U "/separatas/sep" ++ number ++ U "_" ++ year ++ U ".pdf"]
  end.

Section Crawler.

(** The content of a download. *)
Variable Buffer : Type.

(** An answer with status 200: its [content-type] header, if any, and its
    body. *)
Record Response := mkResponse {
  contentType : jsval;
  body : Buffer
}.

Variable get : nat -> jsstring -> option Response.
Variable config : CrawlerConfig.

(** A downloaded file with its content. *)
Record Fetched := mkFetched {
  file : DownloadedFile;
  buffer : Buffer
}.

(** The fields of the crawler, and the number of requests made so far.
    [maxLimit] is [None] for [Infinity]. *)
Record Crawler := mkCrawler {
  totalCollected : nat;
  maxLimit : option Z;
  clock : nat
}.

Definition limitReached (c : Crawler) : bool :=
  match maxLimit c with
  | Some l => (l <=? Z.of_nat (totalCollected c))%Z
  | None => false
  end.

Definition tick (c : Crawler) : Crawler :=
  mkCrawler (totalCollected c) (maxLimit c) (S (clock c)).

Definition collect (c : Crawler) : Crawler :=
  mkCrawler (S (totalCollected c)) (maxLimit c) (clock c).

(** Is the answer taken for a PDF? *)
Definition isPdf (r : Response) : bool :=
  truthy (contentType r) &&
  (includes (U "pdf") (toStr (contentType r))
   || includes (U "octet-stream") (toStr (contentType r))).

(** Does the request for [u], made as the [t]-th, give a PDF? *)
Definition answersPdf (t : nat) (u : jsstring) : bool :=
  match get t u with
  | Some response => isPdf response
  | None => false
  end.

(** Is document [n] of a year there at time [t]? *)
Definition available (t : nat) (type : BteDocumentType) (year : jsstring) (n : nat) : bool :=
  existsb (answersPdf t) (generateUrlPatterns (BASE_URL config) type year (toString n)).

(** The loop of [fetchDocument] over the candidate URLs. *)
Fixpoint fetchUrls (urls : list jsstring) (type : BteDocumentType) (year number : jsstring)
    (c : Crawler) : option Fetched * Crawler :=
  match urls with
  | [] => (None, c)
  | url :: urls' =>
      if limitReached c then (None, c)
      else
        match get (clock c) url with
        | Some response =>
            if isPdf response
            then (Some (mkFetched (mkDownloadedFile url type year number) (body response)),
                  tick c)
            else fetchUrls urls' type year number (tick c)
        | None => fetchUrls urls' type year number (tick c)
        end
  end.

Definition fetchDocument (type : BteDocumentType) (year number : jsstring) (c : Crawler)
    : option Fetched * Crawler :=
  fetchUrls (generateUrlPatterns (BASE_URL config) type year number) type year number c.

(** What a generator has given when it is left: the documents yielded, the
    crawler, and whether the generator came to its end ([false] when the
    fuel of the model ran out first). *)
Definition run_result : Type := (list Fetched * Crawler * bool)%type.

(** [identifyBoletins_separatas]: the [while] loop, from the state of its
    two local variables. *)
Fixpoint scanFrom (fuel : nat) (type : BteDocumentType) (year : jsstring)
    (currentNum consecutiveFailures : nat) (c : Crawler) : run_result :=
  match fuel with
  | 0 => ([], c, false)
  | S f =>
      if limitReached c then ([], c, true)
      else if MAX_CONSECUTIVE_FAILURES config <=? consecutiveFailures then ([], c, true)
      else
        match fetchDocument type year (toString currentNum) c with
        | (Some doc, c1) =>
            let '(docs, c2, fin) := scanFrom f type year (S currentNum) 0 (collect c1) in
            (doc :: docs, c2, fin)
        | (None, c1) => scanFrom f type year (S currentNum) (S consecutiveFailures) c1
        end
  end.

Definition identifyBoletins_separatas (fuel : nat) (type : BteDocumentType) (year : jsstring)
    (c : Crawler) : run_result :=
  scanFrom fuel type year 1 0 c.

Fixpoint loopYears (fuel : nat) (type : BteDocumentType) (years : list DropdownOption)
    (c : Crawler) : run_result :=
  match years with
  | [] => ([], c, true)
  | year :: years' =>
      if limitReached c then ([], c, true)
      else
        let '(docs, c1, fin) := identifyBoletins_separatas fuel type (opt_value year) c in
        if fin then
          let '(docs', c2, fin') := loopYears fuel type years' c1 in
          (docs ++ docs', c2, fin')
        else (docs, c1, false)
  end.

(** The result of [identifyYear]. *)
Record Scope := mkScope {
  issueYears : list DropdownOption;
  offprintYears : list DropdownOption
}.

(** [crawlAll(limit)], from the answer of [identifyYear] on; [t0] is the
    number of requests made before. *)
Definition crawlAll (fuel : nat) (limit : option Z) (scope : Scope) (t0 : nat) : run_result :=
  let c0 :=
    mkCrawler 0
      (match limit with
       | Some l => if (l =? 0)%Z then None else if (0 <? l)%Z then Some l else None
       | None => None
       end) t0 in
  if bool_decide (issueYears scope = []) && bool_decide (offprintYears scope = [])
  then ([], c0, true)
  else
    let '(docs, c1, fin) :=
      if negb (bool_decide (issueYears scope = [])) && negb (limitReached c0)
      then loopYears fuel issue (issueYears scope) c0
      else ([], c0, true) in
    if fin then
      let '(docs', c2, fin') :=
        if negb (bool_decide (offprintYears scope = [])) && negb (limitReached c1)
        then loopYears fuel offprint (offprintYears scope) c1
        else ([], c1, true) in
      (docs ++ docs', c2, fin')
    else (docs, c1, false).

End Crawler.

Arguments contentType {Buffer} r.
Arguments body {Buffer} r.
Arguments file {Buffer} f.
Arguments buffer {Buffer} f.
Arguments mkResponse {Buffer} contentType body.
Arguments mkFetched {Buffer} file buffer.
Arguments isPdf {Buffer} r.

(** The numbers of a scan: each at most [maxGap] above the one before,
    starting from [prev]. *)
Fixpoint gapsOk (maxGap prev : nat) (ns : list nat) : Prop :=
  match ns with
  | [] => True
  | n :: ns' => prev < n <= prev + maxGap /\ gapsOk maxGap n ns'
  end.

(** The limit has not been passed. *)
Definition withinLimit (c : Crawler) : Prop :=
  match maxLimit c with
  | Some l => (Z.of_nat (totalCollected c) <= l)%Z
  | None => True
  end.

(** A server for the examples: it has the issues 1, 2 and 14 of 2024 and
    nothing else, at all times. *)
Definition sampleWeb (t : nat) (u : jsstring) : option (Response unit) :=
  if bool_decide (u ∈ [U "https://bte.gep.msess.gov.pt/completos/2024/bte1_2024.pdf";
                       U "https://bte.gep.msess.gov.pt/completos/2024/bte2_2024.pdf";
                       U "https://bte.gep.msess.gov.pt/completos/2024/bte14_2024.pdf"])
  then Some (mkResponse (Some (U "application/pdf")) tt)
  else None.

Definition sampleScope : Scope :=
  mkScope [mkDropdownOption (U "2024") (U "2024")] [].

(** * Properties *)

(** ** The matcher on character classes *)

Lemma repeat_cls p fuel i s cs k :
  length s <= fuel ->
  repeat_m (m (Cls p)) true fuel (MState i s cs) k = greedy_cls p i s cs k.
Proof.
  revert i s. induction fuel as [|f IH]; intros i s Hlen.
  - destruct s; [reflexivity | simpl in Hlen; lia].
  - destruct s as [|c s']; [reflexivity|].
    cbn [repeat_m m rest greedy_cls]. destruct (p c); [|reflexivity].
    unfold advance; cbn [rest pos caps length].
    destruct (Nat.ltb_spec (length s') (S (length s'))); [|lia].
    rewrite IH by (simpl in Hlen; lia). reflexivity.
Qed.

Lemma m_star_cls p i s cs k :
  m (Star true (Cls p)) (MState i s cs) k = greedy_cls p i s cs k.
Proof. cbn [m rest]. apply repeat_cls. lia. Qed.

Lemma greedy_cls_first p i s cs k z :
  k (MState (i + run p s) (skip p s) cs) = Some z ->
  greedy_cls p i s cs k = Some z.
Proof.
  revert i. induction s as [|c s' IH]; intros i; cbn [greedy_cls run skip].
  - rewrite Nat.add_0_r. auto.
  - destruct (p c).
    + intros H. rewrite (IH (S i)); [reflexivity|].
      replace (S i + run p s') with (i + S (run p s')) by lia. exact H.
    + rewrite Nat.add_0_r. auto.
Qed.

Lemma greedy_cls_longest p i s cs k :
  (forall j c s', p c = true -> k (MState j (c :: s') cs) = None) ->
  greedy_cls p i s cs k = k (MState (i + run p s) (skip p s) cs).
Proof.
  intros Hk. revert i. induction s as [|c s' IH]; intros i; cbn [greedy_cls run skip].
  - rewrite Nat.add_0_r. reflexivity.
  - destruct (p c) eqn:Hc.
    + rewrite (IH (S i)).
      replace (S i + run p s') with (i + S (run p s')) by lia.
      destruct (k (MState (i + S (run p s')) (skip p s') cs)); [reflexivity|].
      apply Hk, Hc.
    + rewrite Nat.add_0_r. reflexivity.
Qed.

Lemma skip_length p s : length (skip p s) <= length s.
Proof. induction s as [|c s' IH]; simpl; [lia|]. destruct (p c); simpl; lia. Qed.

Lemma skip_head p s c s' : skip p s = c :: s' -> p c = false.
Proof.
  induction s as [|d s0 IH]; simpl; [discriminate|].
  destruct (p d) eqn:Hd; [exact IH|]. intros [= -> _]. exact Hd.
Qed.

Lemma skip_idem p s : skip p (skip p s) = skip p s.
Proof.
  induction s as [|c s' IH]; simpl; [reflexivity|].
  destruct (p c) eqn:Hc; [exact IH|]. simpl. rewrite Hc. reflexivity.
Qed.

(** The continuation of a match is only ever entered further on in the
    text, with no capture touched but those of the pattern. *)
Lemma reach_refl r x : reach r x x.
Proof. split; [reflexivity|]. split; [reflexivity|]. split; reflexivity. Qed.

Lemma reach_trans_star r x y z : reach r x y -> reach r y z -> reach r x z.
Proof.
  intros (H1 & H1' & H2 & H3) (H4 & H4' & H5 & H6). split; [etrans; eassumption|].
  split; [lia|]. split; [congruence|]. intros n Hn. rewrite H6, H3 by exact Hn. reflexivity.
Qed.

Lemma repeat_m_reach r step g fuel x k z :
  (forall x k z, step x k = Some z -> exists y, reach r x y /\ k y = Some z) ->
  repeat_m step g fuel x k = Some z ->
  exists y, reach r x y /\ k y = Some z.
Proof.
  intros Hstep. revert x z. induction fuel as [|f IH]; intros x z; cbn [repeat_m].
  - intros H. exists x. split; [apply reach_refl | exact H].
  - assert (Hiter : forall z',
      step x (fun y => if length (rest y) <? length (rest x)
                       then repeat_m step g f y k else None) = Some z' ->
      exists y, reach r x y /\ k y = Some z').
    { intros z' H. apply Hstep in H as (y & Hy & H).
      destruct (length (rest y) <? length (rest x)); [|discriminate].
      apply IH in H as (y' & Hy' & H). exists y'. split; [|exact H].
      eapply reach_trans_star; eassumption. }
    destruct g.
    + destruct (step x _) eqn:E.
      * intros [= <-]. apply Hiter. reflexivity.
      * intros H. exists x. split; [apply reach_refl | exact H].
    + destruct (k x) eqn:E.
      * intros [= <-]. exists x. split; [apply reach_refl | exact E].
      * apply Hiter.
Qed.

Lemma m_reach r x k z :
  m r x k = Some z -> exists y, reach r x y /\ k y = Some z.
Proof.
  revert x k z. induction r as [|p|a IHa b IHb|a IHa b IHb|g r IH|n r IH| | |r IH];
    intros x k z; cbn [m].
  - intros H. exists x. split; [apply reach_refl | exact H].
  - destruct (rest x) as [|c s] eqn:E; [discriminate|].
    destruct (p c); [|discriminate]. intros H. exists (advance x s).
    split; [|exact H]. split; [|split; [|split; reflexivity]].
    + simpl. rewrite E. apply suffix_cons_r. reflexivity.
    + simpl. rewrite E. simpl. lia.
  - intros H. apply IHa in H as (y & (Ha1 & Ha1' & Ha2 & Ha3) & H).
    apply IHb in H as (y' & (Hb1 & Hb1' & Hb2 & Hb3) & H).
    exists y'. split; [|exact H]. split; [etrans; eassumption|]. split; [lia|].
    split; [congruence|].
    intros n Hn. cbn [has_group] in Hn. apply orb_false_iff in Hn as [Hna Hnb].
    rewrite Hb3, Ha3 by assumption. reflexivity.
  - assert (Hw : forall c y, reach c x y ->
               (forall n, has_group n (Alt a b) = false -> has_group n c = false) ->
               reach (Alt a b) x y).
    { intros c y (H1 & H1' & H2 & H3) Hsub. split; [exact H1|]. split; [exact H1'|].
      split; [exact H2|]. intros n Hn. apply H3, Hsub, Hn. }
    destruct (m a x k) eqn:E.
    + intros [= <-]. apply IHa in E as (y & Hy & E). exists y. split; [|exact E].
      apply (Hw a); [exact Hy|]. intros n Hn. cbn [has_group] in Hn.
      apply orb_false_iff in Hn. tauto.
    + intros H. apply IHb in H as (y & Hy & H). exists y. split; [|exact H].
      apply (Hw b); [exact Hy|]. intros n Hn. cbn [has_group] in Hn.
      apply orb_false_iff in Hn. tauto.
  - apply (repeat_m_reach (Star g r)). intros x' k' z' H.
    apply IH in H as (y & Hy & H). exists y. split; [exact Hy | exact H].
  - intros H. apply IH in H as (y & (H1 & H1' & H2 & H3) & H). exists (set_cap n x y).
    split; [|exact H]. split; [exact H1|]. split; [exact H1'|]. unfold set_cap. cbn [caps].
    split; [rewrite length_insert; exact H2|]. intros n' Hn'. cbn [has_group] in Hn'.
    apply orb_false_iff in Hn' as [Hne Hn']. apply Nat.eqb_neq in Hne.
    rewrite list_lookup_insert_ne by congruence. apply H3, Hn'.
  - destruct (pos x =? 0); [|discriminate]. intros H. exists x.
    split; [apply reach_refl | exact H].
  - destruct (rest x) eqn:E; [|discriminate]. intros H. exists x.
    split; [apply reach_refl | exact H].
  - destruct (m r x Some); [discriminate|]. intros H. exists x.
    split; [apply reach_refl | exact H].
Qed.

Lemma m_suffix r x k z :
  m r x k = Some z -> exists y, suffix (rest y) (rest x) /\ k y = Some z.
Proof.
  intros H. apply m_reach in H as (y & (Hy & _) & H). exists y. split; assumption.
Qed.

(** A match depends on its continuation only through the states further
    on in the text. *)
Lemma repeat_m_ext step g fuel x k k' :
  (forall x k k', (forall y, suffix (rest y) (rest x) -> k y = k' y) -> step x k = step x k') ->
  (forall y, suffix (rest y) (rest x) -> k y = k' y) ->
  repeat_m step g fuel x k = repeat_m step g fuel x k'.
Proof.
  intros Hstep. revert x. induction fuel as [|f IH]; intros x Hk; cbn [repeat_m].
  - apply Hk. reflexivity.
  - rewrite (Hk x) by reflexivity.
    rewrite (Hstep x _ (fun y => if length (rest y) <? length (rest x)
                                 then repeat_m step g f y k' else None)); [reflexivity|].
    intros y Hy. destruct (length (rest y) <? length (rest x)); [|reflexivity].
    apply IH. intros y' Hy'. apply Hk. etrans; eassumption.
Qed.

Lemma m_ext r x k k' :
  (forall y, suffix (rest y) (rest x) -> k y = k' y) -> m r x k = m r x k'.
Proof.
  revert x k k'. induction r as [|p|a IHa b IHb|a IHa b IHb|g r IH|n r IH| | |r IH];
    intros x k k' Hk; cbn [m].
  - apply Hk. reflexivity.
  - destruct (rest x) as [|c s] eqn:E; [reflexivity|]. destruct (p c); [|reflexivity].
    apply Hk. simpl. apply suffix_cons_r. reflexivity.
  - apply IHa. intros y Hy. apply IHb. intros y' Hy'. apply Hk. etrans; eassumption.
  - rewrite (IHa x k k' Hk), (IHb x k k' Hk). reflexivity.
  - apply repeat_m_ext; [|exact Hk]. intros x0 k0 k0' H0. apply IH, H0.
  - apply IH. intros y Hy. apply Hk. exact Hy.
  - rewrite (Hk x) by reflexivity. reflexivity.
  - rewrite (Hk x) by reflexivity. reflexivity.
  - rewrite (Hk x) by reflexivity. reflexivity.
Qed.

(** The fuel [m] gives to a repetition is enough: more of it changes
    nothing. *)
Lemma repeat_m_more_fuel r g fuel x k :
  length (rest x) <= fuel ->
  repeat_m (m r) g (S fuel) x k = repeat_m (m r) g fuel x k.
Proof.
  revert x. induction fuel as [|f IH]; intros x Hlen.
  - cbn [repeat_m].
    assert (Hnone : m r x (fun y => if length (rest y) <? length (rest x)
                                    then k y else None) = None).
    { destruct (m r x _) as [z|] eqn:E; [|reflexivity]. apply m_reach in E as (y & _ & E).
      destruct (Nat.ltb_spec (length (rest y)) (length (rest x))); [lia | discriminate]. }
    rewrite Hnone. destruct g; [reflexivity|]. destruct (k x); reflexivity.
  - cbn [repeat_m].
    rewrite (m_ext r x _ (fun y => if length (rest y) <? length (rest x)
                                   then repeat_m (m r) g f y k else None)); [reflexivity|].
    intros y Hy. destruct (Nat.ltb_spec (length (rest y)) (length (rest x))); [|reflexivity].
    apply IH. lia.
Qed.

Lemma repeat_m_enough_fuel r g fuel x k :
  length (rest x) <= fuel -> repeat_m (m r) g fuel x k = m (Star g r) x k.
Proof.
  cbn [m]. intros H. induction H as [|f Hf IH]; [reflexivity|].
  rewrite repeat_m_more_fuel by exact Hf. exact IH.
Qed.

Lemma match_at_inv p i s y :
  match_at p i s = Some y ->
  suffix (rest y) s /\ pos y + length (rest y) = i + length s.
Proof.
  unfold match_at. destruct (m _ _ Some) as [z|] eqn:E; [|discriminate]. intros [= <-].
  apply m_reach in E as (y & (H1 & H2 & _) & E). injection E as <-. cbn in *. auto.
Qed.

(** Replacing neither runs out of fuel. *)
Lemma replace_go_fuel p tmpl f1 f2 i s :
  length s < f1 -> length s < f2 ->
  replace_go p tmpl f1 i s = replace_go p tmpl f2 i s.
Proof.
  revert f2 i s. induction f1 as [|f1 IH]; intros f2 i s H1 H2; [lia|].
  destruct f2 as [|f2]; [lia|]. cbn [replace_go].
  destruct (match_at p i s) as [y|] eqn:E.
  - apply match_at_inv in E as [Hsuf Hpos].
    destruct (Nat.eqb_spec (pos y) i) as [Heq|Hne].
    + destruct s as [|c s']; [reflexivity|]. f_equal. f_equal. apply IH; simpl in *; lia.
    + f_equal. apply suffix_length in Hsuf. apply IH; lia.
  - destruct s as [|c s']; [reflexivity|]. f_equal. apply IH; simpl in *; lia.
Qed.

Lemma m_star_cls' p x k :
  m (Star true (Cls p)) x k = greedy_cls p (pos x) (rest x) (caps x) k.
Proof. destruct x. apply m_star_cls. Qed.

(** ** Facts about the character classes *)

Ltac bool_to_prop :=
  rewrite ?orb_true_iff, ?orb_false_iff, ?andb_true_iff, ?andb_false_iff,
    ?negb_true_iff, ?negb_false_iff, ?N.leb_le, ?N.leb_gt, ?N.eqb_eq, ?N.eqb_neq in *.

Lemma isSpace_elem c :
  isSpace c = true ->
  c ∈ [9; 10; 11; 12; 13; 32; 160; 5760; 8192; 8193; 8194; 8195; 8196; 8197;
       8198; 8199; 8200; 8201; 8202; 8232; 8233; 8239; 8287; 12288; 65279]%N.
Proof.
  unfold isSpace, in_range. intros H. bool_to_prop.
  repeat rewrite elem_of_cons. rewrite elem_of_nil. lia.
Qed.

Ltac space_cases H :=
  apply isSpace_elem in H; repeat (apply elem_of_cons in H as [-> | H]);
  [.. | apply elem_of_nil in H; destruct H].

Lemma space_not_digit c : isSpace c = true -> isDigit c = false.
Proof. intros H. space_cases H; reflexivity. Qed.

Lemma space_not_az c : isSpace c = true -> az_i c = false.
Proof. intros H. space_cases H; reflexivity. Qed.

Lemma space_not_delim c : isSpace c = true -> isDelim c = false.
Proof. intros H. space_cases H; reflexivity. Qed.

Lemma digit_not_delim c : isDigit c = true -> isDelim c = false.
Proof.
  unfold isDigit, in_range. intros H. bool_to_prop.
  assert (Hc : c ∈ [48; 49; 50; 51; 52; 53; 54; 55; 56; 57]%N).
  { repeat rewrite elem_of_cons. rewrite elem_of_nil. lia. }
  repeat (apply elem_of_cons in Hc as [-> | Hc]); try reflexivity.
  apply elem_of_nil in Hc. destruct Hc.
Qed.

Lemma digit_not_az c : isDigit c = true -> az_i c = false.
Proof.
  unfold isDigit, in_range. intros H. bool_to_prop.
  assert (Hc : c ∈ [48; 49; 50; 51; 52; 53; 54; 55; 56; 57]%N).
  { repeat rewrite elem_of_cons. rewrite elem_of_nil. lia. }
  repeat (apply elem_of_cons in Hc as [-> | Hc]); try reflexivity.
  apply elem_of_nil in Hc. destruct Hc.
Qed.

Lemma NL_space : isSpace NL = true.
Proof. reflexivity. Qed.

Lemma SP_space : isSpace SP = true.
Proof. reflexivity. Qed.

(** ** The look-ahead of the newline pattern *)

Lemma delim_after_spaces j s cs :
  greedy_cls isSpace j s cs (fun z => m (Cls isDelim) z Some) =
  if head_in isDelim (skip isSpace s)
  then Some (MState (S (j + run isSpace s)) (tail (skip isSpace s)) cs)
  else None.
Proof.
  rewrite greedy_cls_longest.
  - cbn [m rest]. destruct (skip isSpace s) as [|d s']; [reflexivity|].
    cbn [head_in tail]. destruct (isDelim d); reflexivity.
  - intros j' c s' Hc. cbn [m rest]. rewrite (space_not_delim _ Hc). reflexivity.
Qed.

Lemma m_seq a b x k : m (Seq a b) x k = m a x (fun y => m b y k).
Proof. reflexivity. Qed.

Lemma m_alt a b x k :
  m (Alt a b) x k = match m a x k with Some z => Some z | None => m b x k end.
Proof. reflexivity. Qed.

Lemma m_cls p i s cs k :
  m (Cls p) (MState i s cs) k =
  match s with
  | c :: s' => if p c then k (MState (S i) s' cs) else None
  | [] => None
  end.
Proof. reflexivity. Qed.

Lemma enum_marker_spec i s cs :
  match m re_enum_marker (MState i s cs) Some with Some _ => true | None => false end
  = enum_ahead s.
Proof.
  unfold re_enum_marker, enum_ahead. cbn [Seqs]. fold isDelim.
  rewrite m_seq, m_star_cls'. cbn [pos rest caps].
  set (K := fun y : mstate => m (Seq (Star true (Cls isSpace)) (Cls isDelim)) y Some).
  assert (HK : forall j t, K (MState j t cs) =
     if head_in isDelim (skip isSpace t)
     then Some (MState (S (j + run isSpace t)) (tail (skip isSpace t)) cs) else None).
  { intros j t. unfold K. rewrite m_seq, m_star_cls'. apply delim_after_spaces. }
  rewrite greedy_cls_longest.
  - destruct (skip isSpace s) as [|c s2] eqn:Es; [reflexivity|].
    rewrite m_seq, m_alt. fold K. unfold Plus. rewrite m_seq, !m_cls.
    destruct (isDigit c) eqn:Hd.
    + rewrite m_star_cls'. cbn [pos rest caps]. rewrite greedy_cls_longest.
      * rewrite HK. rewrite (digit_not_az _ Hd).
        destruct (head_in isDelim (skip isSpace (skip isDigit s2))); reflexivity.
      * intros j c' s' Hc'. rewrite HK. cbn [skip].
        destruct (isSpace c') eqn:Hs.
        { rewrite (space_not_digit _ Hs) in Hc'. discriminate. }
        cbn [head_in]. rewrite (digit_not_delim _ Hc'). reflexivity.
    + destruct (az_i c); [|reflexivity]. rewrite HK.
      destruct (head_in isDelim (skip isSpace s2)); reflexivity.
  - intros j c s' Hc. rewrite m_seq, m_alt. unfold Plus. rewrite m_seq, !m_cls.
    rewrite (space_not_digit _ Hc), (space_not_az _ Hc). reflexivity.
Qed.

(** ** Closed forms of the newline replacement and the whitespace collapse *)

Lemma match_at_newline i s :
  match s with
  | c :: s' =>
      if (c =? NL)%N && negb (enum_ahead s')
      then exists cs, match_at re_newline i s = Some (MState (S i) s' cs)
      else match_at re_newline i s = None
  | [] => match_at re_newline i s = None
  end.
Proof.
  unfold match_at, re_newline. cbn [pat_re pat_ncaps]. rewrite m_seq, m_cls.
  destruct s as [|c s']; [reflexivity|]. unfold chr.
  destruct (c =? NL)%N; [|reflexivity]. cbn [andb m].
  pose proof (enum_marker_spec (S i) s' (replicate 1 None)) as E.
  destruct (m re_enum_marker _ Some); rewrite <- E; cbn [negb]; eauto.
Qed.

Lemma unwrapNewlines_go fuel i s :
  length s < fuel -> replace_go re_newline one_space fuel i s = unwrap_spec s.
Proof.
  revert i s. induction fuel as [|f IH]; intros i s Hlen; [lia|].
  cbn [replace_go]. pose proof (match_at_newline i s) as M.
  destruct s as [|c s']; [rewrite M; reflexivity|].
  cbn [unwrap_spec length] in *.
  destruct ((c =? NL)%N && negb (enum_ahead s')).
  - destruct M as [cs ->]. cbn [pos rest caps].
    destruct (Nat.eqb_spec (S i) i); [lia|].
    unfold one_space at 1. cbn [app]. f_equal. apply IH. lia.
  - rewrite M. f_equal. apply IH. lia.
Qed.

Lemma unwrapNewlines_spec s : unwrapNewlines s = unwrap_spec s.
Proof. apply unwrapNewlines_go. lia. Qed.

Lemma match_at_spaces i s :
  match s with
  | c1 :: c2 :: s' =>
      if isSpace c1 && isSpace c2
      then exists cs, match_at re_spaces i s =
                        Some (MState (S (S i) + run isSpace s') (skip isSpace s') cs)
      else match_at re_spaces i s = None
  | _ => match_at re_spaces i s = None
  end.
Proof.
  unfold match_at, re_spaces. cbn [pat_re pat_ncaps Seqs]. rewrite !m_seq, m_cls.
  destruct s as [|c1 [|c2 s']]; [reflexivity| |].
  - destruct (isSpace c1); reflexivity.
  - destruct (isSpace c1); [|reflexivity]. cbv beta. rewrite m_seq, m_cls.
    destruct (isSpace c2); [|reflexivity]. cbn [andb].
    rewrite m_star_cls. erewrite greedy_cls_first by reflexivity. eauto.
Qed.

Lemma coll_true s : coll true s = coll false (skip isSpace s).
Proof.
  induction s as [|c s' IH]; [reflexivity|]. cbn [coll skip].
  destruct (isSpace c) eqn:Hc; [exact IH|]. cbn [coll]. rewrite Hc. reflexivity.
Qed.

Lemma collapseSpaces_go fuel i s :
  length s < fuel -> replace_go re_spaces one_space fuel i s = coll false s.
Proof.
  revert i s. induction fuel as [|f IH]; intros i s Hlen; [lia|].
  cbn [replace_go]. pose proof (match_at_spaces i s) as M.
  destruct s as [|c1 [|c2 s']].
  - rewrite M. reflexivity.
  - rewrite M, IH by (simpl in *; lia). cbn [coll head_in]. destruct (isSpace c1); reflexivity.
  - destruct (isSpace c1) eqn:H1; cbn [andb] in M.
    + destruct (isSpace c2) eqn:H2.
      * destruct M as [cs ->]. cbn [pos rest caps].
        destruct (Nat.eqb_spec (S (S i) + run isSpace s') i); [lia|].
        unfold one_space at 1. cbn [app]. rewrite IH.
        2:{ pose proof (skip_length isSpace s'). simpl in *. lia. }
        cbn [coll head_in]. rewrite H1, H2, coll_true. reflexivity.
      * rewrite M, IH by (simpl in *; lia).
        change (coll false (c1 :: c2 :: s')) with
          (if isSpace c1 then if head_in isSpace (c2 :: s') then SP :: coll true (c2 :: s')
                              else c1 :: coll false (c2 :: s')
           else c1 :: coll false (c2 :: s')).
        cbn [head_in]. rewrite H1, H2. reflexivity.
    + rewrite M, IH by (simpl in *; lia).
      change (coll false (c1 :: c2 :: s')) with
          (if isSpace c1 then if head_in isSpace (c2 :: s') then SP :: coll true (c2 :: s')
                              else c1 :: coll false (c2 :: s')
           else c1 :: coll false (c2 :: s')).
      rewrite H1. reflexivity.
Qed.

Lemma collapseSpaces_spec s : collapseSpaces s = coll false s.
Proof. apply collapseSpaces_go. lia. Qed.

(** ** Functions that keep the whitespace shape of a text

    The three last steps of the normaliser only turn whitespace into
    whitespace; the look-ahead for an enumeration marker cannot tell the
    difference. *)

Section Shape.
Variable f : jsstring -> jsstring.
Hypothesis f_nil : f [] = [].
Hypothesis f_cons : forall c r, isSpace c = false -> f (c :: r) = c :: f r.
Hypothesis f_skip : forall r, skip isSpace (f r) = f (skip isSpace r).
Hypothesis f_head : forall c r,
  isSpace c = true -> head_in (fun d => negb (isSpace d)) (f (c :: r)) = false.

Lemma shape_skip p :
  (forall c, p c = true -> isSpace c = false) ->
  forall r, skip p (f r) = f (skip p r).
Proof using f_nil f_cons f_head.
  intros Hp. induction r as [|c r' IH]; [cbn [skip]; rewrite f_nil; reflexivity|].
  cbn [skip]. destruct (p c) eqn:Hpc.
  - rewrite f_cons by auto. cbn [skip]. rewrite Hpc. exact IH.
  - destruct (isSpace c) eqn:Hc.
    + pose proof (f_head c r' Hc) as Hh. destruct (f (c :: r')) as [|d t]; [reflexivity|].
      cbn [head_in skip] in *. destruct (p d) eqn:Hd; [|reflexivity].
      rewrite (Hp _ Hd) in Hh. discriminate.
    + rewrite f_cons by auto. cbn [skip]. rewrite Hpc. reflexivity.
Qed.

Lemma shape_head p :
  (forall c, p c = true -> isSpace c = false) ->
  forall r, head_in p (f r) = head_in p r.
Proof using f_nil f_cons f_head.
  intros Hp [|c r']; [rewrite f_nil; reflexivity|].
  destruct (isSpace c) eqn:Hc.
  - pose proof (f_head c r' Hc) as Hh. cbn [head_in].
    assert (p c = false) as ->.
    { destruct (p c) eqn:Hpc; [|reflexivity]. rewrite (Hp _ Hpc) in Hc. discriminate. }
    destruct (f (c :: r')) as [|d t]; [reflexivity|]. cbn [head_in] in *.
    destruct (p d) eqn:Hd; [|reflexivity]. rewrite (Hp _ Hd) in Hh. discriminate.
  - rewrite f_cons by auto. reflexivity.
Qed.

Lemma shape_enum r : enum_ahead (f r) = enum_ahead r.
Proof using f_nil f_cons f_skip f_head.
  assert (Hdig : forall c, isDigit c = true -> isSpace c = false).
  { intros c H. destruct (isSpace c) eqn:E; [|reflexivity].
    rewrite (space_not_digit _ E) in H. discriminate. }
  assert (Hdel : forall c, isDelim c = true -> isSpace c = false).
  { intros c H. destruct (isSpace c) eqn:E; [|reflexivity].
    rewrite (space_not_delim _ E) in H. discriminate. }
  unfold enum_ahead. rewrite f_skip.
  destruct (skip isSpace r) as [|c s2] eqn:E; [rewrite f_nil; reflexivity|].
  rewrite f_cons by (eapply skip_head; eassumption).
  destruct (isDigit c).
  - rewrite shape_skip, f_skip, shape_head by assumption. reflexivity.
  - destruct (az_i c); [|reflexivity]. rewrite f_skip, shape_head by assumption. reflexivity.
Qed.
End Shape.

Lemma head_space_skip s : head_in isSpace (skip isSpace s) = false.
Proof.
  destruct (skip isSpace s) as [|c t] eqn:E; [reflexivity|]. eapply skip_head, E.
Qed.

Lemma skip_id p s : head_in p s = false -> skip p s = s.
Proof. destruct s as [|c t]; [reflexivity|]. simpl. intros ->. reflexivity. Qed.

Lemma coll_head s : head_in isSpace s = false -> head_in isSpace (coll false s) = false.
Proof. destruct s as [|c t]; [reflexivity|]. simpl. intros H. rewrite H. simpl. exact H. Qed.

Lemma coll_skip s : skip isSpace (coll false s) = coll false (skip isSpace s).
Proof.
  induction s as [|c s' IH]; [reflexivity|]. cbn [coll skip].
  destruct (isSpace c) eqn:Hc.
  - destruct (head_in isSpace s') eqn:Hh.
    + cbn [skip]. rewrite SP_space, coll_true. apply skip_id, coll_head, head_space_skip.
    + cbn [skip]. rewrite Hc. exact IH.
  - cbn [skip coll]. rewrite Hc. reflexivity.
Qed.

Lemma coll_shape_head c r :
  isSpace c = true -> head_in (fun d => negb (isSpace d)) (coll false (c :: r)) = false.
Proof.
  intros Hc. cbn [coll]. rewrite Hc. destruct (head_in isSpace r); cbn [head_in].
  - reflexivity.
  - rewrite Hc. reflexivity.
Qed.

Lemma coll_enum r : enum_ahead (coll false r) = enum_ahead r.
Proof.
  apply shape_enum.
  - reflexivity.
  - intros c s Hc. cbn [coll]. rewrite Hc. reflexivity.
  - apply coll_skip.
  - apply coll_shape_head.
Qed.

Lemma unwrap_skip s : skip isSpace (unwrap_spec s) = unwrap_spec (skip isSpace s).
Proof.
  induction s as [|c s' IH]; [reflexivity|]. cbn [unwrap_spec skip].
  destruct (isSpace c) eqn:Hc.
  - destruct ((c =? NL)%N && negb (enum_ahead s')); [rewrite SP_space | rewrite Hc]; exact IH.
  - destruct (N.eqb_spec c NL) as [->|Hn]; [discriminate|].
    cbn [andb skip unwrap_spec]. rewrite Hc. destruct (N.eqb_spec c NL); [contradiction|].
    reflexivity.
Qed.

Lemma unwrap_enum r : enum_ahead (unwrap_spec r) = enum_ahead r.
Proof.
  apply shape_enum.
  - reflexivity.
  - intros c s Hc. cbn [unwrap_spec].
    destruct (N.eqb_spec c NL) as [->|_]; [discriminate | reflexivity].
  - apply unwrap_skip.
  - intros c s Hc. cbn [unwrap_spec head_in].
    destruct ((c =? NL)%N && negb (enum_ahead s)); [reflexivity|]. rewrite Hc. reflexivity.
Qed.

Lemma forallb_space_skip s : forallb isSpace s = true -> skip isSpace s = [].
Proof.
  induction s as [|c s' IH]; [reflexivity|]. simpl.
  destruct (isSpace c); [exact IH | discriminate].
Qed.

Lemma forallb_skip s : forallb isSpace (skip isSpace s) = forallb isSpace s.
Proof.
  induction s as [|c s' IH]; [reflexivity|]. cbn [skip forallb].
  destruct (isSpace c) eqn:Hc; [exact IH|]. cbn [forallb]. rewrite Hc. reflexivity.
Qed.

Lemma trimEnd_skip s : skip isSpace (trimEnd s) = trimEnd (skip isSpace s).
Proof.
  induction s as [|c s' IH]; [reflexivity|].
  cbn [trimEnd skip]. destruct (isSpace c) eqn:Hc.
  - cbn [forallb]. rewrite Hc. cbn [andb]. destruct (forallb isSpace s') eqn:Ha.
    + rewrite (forallb_space_skip _ Ha). reflexivity.
    + cbn [skip]. rewrite Hc. exact IH.
  - cbn [trimEnd forallb]. rewrite Hc. cbn [andb skip]. rewrite Hc. reflexivity.
Qed.

Lemma trimEnd_enum r : enum_ahead (trimEnd r) = enum_ahead r.
Proof.
  apply shape_enum.
  - reflexivity.
  - intros c s Hc. cbn [trimEnd forallb]. rewrite Hc. reflexivity.
  - apply trimEnd_skip.
  - intros c s Hc. cbn [trimEnd]. destruct (forallb isSpace (c :: s)); [reflexivity|].
    cbn [head_in]. rewrite Hc. reflexivity.
Qed.

(** ** Texts in normal form *)

Lemma NLok_unwrap u : NLok (unwrap_spec u).
Proof.
  induction u as [|c u' IH]; [exact I|]. cbn [unwrap_spec NLok]. split; [|exact IH].
  rewrite unwrap_enum. destruct (N.eqb_spec c NL) as [->|Hn]; cbn [andb].
  - destruct (enum_ahead u'); cbn [negb]; [reflexivity | discriminate].
  - intros ->. contradiction.
Qed.

Lemma NLok_coll b v : NLok v -> NLok (coll b v).
Proof.
  revert b. induction v as [|c v' IH]; intros b; [intros; exact I|].
  cbn [NLok coll]. intros [Hc Hv].
  destruct (isSpace c) eqn:Hs.
  - destruct b; [apply IH, Hv|]. destruct (head_in isSpace v').
    + cbn [NLok]. split; [discriminate | apply IH, Hv].
    + cbn [NLok]. split; [rewrite coll_enum; exact Hc | apply IH, Hv].
  - cbn [NLok]. split; [rewrite coll_enum; exact Hc | apply IH, Hv].
Qed.

Lemma NLok_skip p v : NLok v -> NLok (skip p v).
Proof.
  induction v as [|c v' IH]; [intros; exact I|]. cbn [skip]. intros H.
  destruct (p c); [apply IH, H | exact H].
Qed.

Lemma NLok_trimEnd v : NLok v -> NLok (trimEnd v).
Proof.
  induction v as [|c v' IH]; [intros; exact I|]. cbn [trimEnd NLok]. intros [Hc Hv].
  destruct (forallb isSpace (c :: v')); [exact I|]. cbn [NLok].
  split; [rewrite trimEnd_enum; exact Hc | apply IH, Hv].
Qed.

Lemma unwrap_fixed t : NLok t -> unwrap_spec t = t.
Proof.
  induction t as [|c t' IH]; [reflexivity|]. cbn [NLok unwrap_spec]. intros [Hc Ht].
  rewrite (IH Ht). f_equal. destruct (N.eqb_spec c NL) as [E|_]; [|reflexivity].
  rewrite (Hc E). reflexivity.
Qed.

Lemma coll_true_head v : head_in isSpace (coll true v) = false.
Proof. rewrite coll_true. apply coll_head, head_space_skip. Qed.

Lemma NoAdj_coll b v : NoAdj (coll b v).
Proof.
  revert b. induction v as [|c v' IH]; intros b; [exact I|]. cbn [coll].
  destruct (isSpace c) eqn:Hs.
  - destruct b; [apply IH|]. destruct (head_in isSpace v') eqn:Hh; cbn [NoAdj].
    + split; [intros _; apply coll_true_head | apply IH].
    + split; [intros _; apply coll_head, Hh | apply IH].
  - cbn [NoAdj]. split; [rewrite Hs; discriminate | apply IH].
Qed.

Lemma NoAdj_skip p v : NoAdj v -> NoAdj (skip p v).
Proof.
  induction v as [|c v' IH]; [intros; exact I|]. cbn [skip]. intros H.
  destruct (p c); [apply IH, H | exact H].
Qed.

Lemma trimEnd_head p v : head_in p (trimEnd v) = true -> head_in p v = true.
Proof.
  destruct v as [|c v']; [discriminate|]. cbn [trimEnd].
  destruct (forallb isSpace (c :: v')); [discriminate | exact id].
Qed.

Lemma NoAdj_trimEnd v : NoAdj v -> NoAdj (trimEnd v).
Proof.
  induction v as [|c v' IH]; [intros; exact I|]. cbn [trimEnd NoAdj]. intros [Hc Hv].
  destruct (forallb isSpace (c :: v')); [exact I|]. cbn [NoAdj].
  split; [|apply IH, Hv]. intros Hs. specialize (Hc Hs).
  destruct (head_in isSpace (trimEnd v')) eqn:E; [|reflexivity].
  apply trimEnd_head in E. congruence.
Qed.

Lemma coll_fixed t : NoAdj t -> coll false t = t.
Proof.
  induction t as [|c t' IH]; [reflexivity|]. cbn [NoAdj coll]. intros [Hc Ht].
  rewrite (IH Ht). destruct (isSpace c); [|reflexivity]. rewrite Hc; reflexivity.
Qed.

Lemma forallb_trimEnd s : forallb isSpace s = false -> forallb isSpace (trimEnd s) = false.
Proof.
  induction s as [|c s' IH]; [discriminate|]. intros H. cbn [trimEnd]. rewrite H.
  cbn [forallb] in *. destruct (isSpace c); [|reflexivity]. apply IH, H.
Qed.

Lemma trimEnd_idem s : trimEnd (trimEnd s) = trimEnd s.
Proof.
  induction s as [|c s' IH]; [reflexivity|]. cbn [trimEnd].
  destruct (forallb isSpace (c :: s')) eqn:E; [reflexivity|]. cbn [trimEnd].
  assert (forallb isSpace (c :: trimEnd s') = false) as ->.
  { cbn [forallb] in *. destruct (isSpace c); [|reflexivity]. apply forallb_trimEnd, E. }
  rewrite IH. reflexivity.
Qed.

Lemma trim_fixed w : trim (trim w) = trim w.
Proof.
  unfold trim, trimStart. rewrite trimEnd_skip, skip_idem, trimEnd_idem. reflexivity.
Qed.

(** The output of the last three steps is a fixed point of them. *)
Lemma tail_steps_fixed u :
  let t := trim (collapseSpaces (unwrapNewlines u)) in
  trim (collapseSpaces (unwrapNewlines t)) = t.
Proof.
  intros t. subst t. rewrite !unwrapNewlines_spec, !collapseSpaces_spec.
  set (t := trim (coll false (unwrap_spec u))).
  assert (HNL : NLok t).
  { apply NLok_trimEnd, NLok_skip, NLok_coll, NLok_unwrap. }
  assert (HNA : NoAdj t).
  { apply NoAdj_trimEnd, NoAdj_skip, NoAdj_coll. }
  rewrite (unwrap_fixed _ HNL), (coll_fixed _ HNA). apply trim_fixed.
Qed.

Lemma normalizeText_unfold s :
  normalizeText s =
  match s with
  | [] => []
  | _ => trim (collapseSpaces (unwrapNewlines (joinWrapHyphen (joinSpacedHyphen s))))
  end.
Proof. reflexivity. Qed.

Lemma normalizeText_stable s :
  joinSpacedHyphen (normalizeText s) = normalizeText s ->
  joinWrapHyphen (normalizeText s) = normalizeText s ->
  normalizeText (normalizeText s) = normalizeText s.
Proof.
  intros H1 H2. rewrite (normalizeText_unfold (normalizeText s)).
  destruct (normalizeText s) as [|c t] eqn:E; [reflexivity|]. rewrite H1, H2.
  rewrite <- E. destruct s as [|d s']; [discriminate|].
  rewrite normalizeText_unfold. apply tail_steps_fixed.
Qed.

(** ** Texts without a hyphen *)

Lemma m_cls_inv p x k z :
  m (Cls p) x k = Some z -> exists c s', rest x = c :: s' /\ p c = true.
Proof.
  cbn [m]. destruct (rest x) as [|c s']; [discriminate|].
  destruct (p c) eqn:E; [|discriminate]. eauto.
Qed.

Lemma suffix_elem (c : char) (s t u : jsstring) : suffix (c :: u) t -> suffix t s -> c ∈ s.
Proof.
  intros [l1 ->] [l2 ->]. rewrite !elem_of_app. right. right. apply elem_of_cons. left. reflexivity.
Qed.

Lemma spaced_hyphen_needs_hyphen i s :
  HYPHEN ∉ s -> match_at re_spaced_hyphen i s = None.
Proof.
  intros Hs. unfold match_at, re_spaced_hyphen. cbn [pat_re pat_ncaps Seqs].
  destruct (m _ _ Some) as [z|] eqn:E; [exfalso|reflexivity].
  rewrite m_seq in E. apply m_suffix in E as (y & Hy & E).
  rewrite m_seq in E. apply m_suffix in E as (y' & Hy' & E).
  rewrite m_seq in E. apply m_cls_inv in E as (c & s' & Hr & Hc).
  apply N.eqb_eq in Hc. subst c. apply Hs. cbn [rest] in Hy.
  eapply suffix_elem; [|exact Hy]. rewrite <- Hr. exact Hy'.
Qed.

Lemma wrap_hyphen_needs_hyphen i s :
  HYPHEN ∉ s -> match_at re_wrap_hyphen i s = None.
Proof.
  intros Hs. unfold match_at, re_wrap_hyphen. cbn [pat_re pat_ncaps Seqs].
  destruct (m _ _ Some) as [z|] eqn:E; [exfalso|reflexivity].
  rewrite m_seq in E. apply m_suffix in E as (y & Hy & E).
  rewrite m_seq in E. apply m_cls_inv in E as (c & s' & Hr & Hc).
  apply N.eqb_eq in Hc. subst c. apply Hs. cbn [rest] in Hy.
  eapply suffix_elem; [|exact Hy]. rewrite <- Hr. reflexivity.
Qed.

Lemma replace_go_no_match p tmpl fuel i s :
  (forall j s', suffix s' s -> match_at p j s' = None) ->
  replace_go p tmpl fuel i s = s.
Proof.
  revert i s. induction fuel as [|f IH]; intros i s H; [reflexivity|].
  cbn [replace_go]. rewrite H by reflexivity. destruct s as [|c s']; [reflexivity|].
  f_equal. apply IH. intros j t Ht. apply H. apply suffix_cons_r, Ht.
Qed.

Lemma not_elem_suffix (c : char) (s t : jsstring) : c ∉ s -> suffix t s -> c ∉ t.
Proof. intros Hs [l ->] Ht. apply Hs. apply elem_of_app. right. exact Ht. Qed.

Lemma joinSpacedHyphen_no_hyphen s : HYPHEN ∉ s -> joinSpacedHyphen s = s.
Proof.
  intros H. apply replace_go_no_match. intros j t Ht.
  apply spaced_hyphen_needs_hyphen. eapply not_elem_suffix; eassumption.
Qed.

Lemma joinWrapHyphen_no_hyphen s : HYPHEN ∉ s -> joinWrapHyphen s = s.
Proof.
  intros H. apply replace_go_no_match. intros j t Ht.
  apply wrap_hyphen_needs_hyphen. eapply not_elem_suffix; eassumption.
Qed.

Lemma unwrap_elem c s : c ∈ unwrap_spec s -> c = SP \/ c ∈ s.
Proof.
  induction s as [|d s' IH]; cbn [unwrap_spec]; [intros H; right; exact H|].
  rewrite !elem_of_cons. intros [-> | H].
  - destruct ((d =? NL)%N && negb (enum_ahead s')); auto.
  - destruct (IH H); auto.
Qed.

Lemma coll_elem b c s : c ∈ coll b s -> c = SP \/ c ∈ s.
Proof.
  revert b. induction s as [|d s' IH]; intros b; cbn [coll]; [intros H; right; exact H|].
  assert (Hrec : forall b', c ∈ coll b' s' -> c = SP \/ c ∈ d :: s').
  { intros b' H. destruct (IH _ H); [auto | right; apply elem_of_cons; auto]. }
  assert (Hcons : forall e b', (e = SP \/ e = d) -> c ∈ e :: coll b' s' -> c = SP \/ c ∈ d :: s').
  { intros e b' He H. apply elem_of_cons in H as [-> | H]; [|eapply Hrec, H].
    destruct He as [-> | ->]; [auto | right; apply elem_of_cons; auto]. }
  destruct (isSpace d).
  - destruct b; [apply Hrec|]. destruct (head_in isSpace s'); apply Hcons; auto.
  - apply Hcons; auto.
Qed.

Lemma skip_elem p c s : c ∈ skip p s -> c ∈ s.
Proof.
  induction s as [|d s' IH]; cbn [skip]; [exact id|].
  destruct (p d); [|exact id]. intros H. apply elem_of_cons. right. apply IH, H.
Qed.

Lemma trimEnd_elem c s : c ∈ trimEnd s -> c ∈ s.
Proof.
  induction s as [|d s' IH]; cbn [trimEnd]; [exact id|].
  destruct (forallb isSpace (d :: s')); [intros H; apply elem_of_nil in H; destruct H|].
  rewrite !elem_of_cons. intros [-> | H]; auto.
Qed.

Lemma normalizeText_no_hyphen s : HYPHEN ∉ s -> HYPHEN ∉ normalizeText s.
Proof.
  intros Hs. destruct s as [|d s']; [exact Hs|]. rewrite normalizeText_unfold.
  rewrite joinSpacedHyphen_no_hyphen, joinWrapHyphen_no_hyphen by exact Hs.
  rewrite unwrapNewlines_spec, collapseSpaces_spec. intros H.
  apply trimEnd_elem, skip_elem, coll_elem in H as [H | H]; [discriminate|].
  apply unwrap_elem in H as [H | H]; [discriminate | contradiction].
Qed.

Lemma normalizeText_idempotent_no_hyphen s :
  HYPHEN ∉ s -> normalizeText (normalizeText s) = normalizeText s.
Proof.
  intros Hs. pose proof (normalizeText_no_hyphen s Hs) as Ht.
  apply normalizeText_stable.
  - apply joinSpacedHyphen_no_hyphen, Ht.
  - apply joinWrapHyphen_no_hyphen, Ht.
Qed.

(** C1 (amended): a second pass changes nothing on a text whose normal form
    leaves no match to the two hyphen-joining replacements.  Every text
    without a hyphen-minus is such a text
    ([normalizeText_idempotent_no_hyphen]). *)
Theorem normalizeText_idempotent_when_hyphens_settled (s : jsstring) :
  joinSpacedHyphen (normalizeText s) = normalizeText s ->
  joinWrapHyphen (normalizeText s) = normalizeText s ->
  normalizeText (normalizeText s) = normalizeText s.
Proof. apply normalizeText_stable. Qed.

Lemma normalizeText_idempotent_witness :
  let s := U "co-
operar  e  tal:
1) x - 2
b. fim " in
  normalizeText s = U "cooperar e tal:
1) x - 2
b. fim" /\
  normalizeText (normalizeText s) = normalizeText s.
Proof.
  intros s. split; [vm_compute; reflexivity|].
  apply (normalizeText_idempotent_when_hyphens_settled s); vm_compute; reflexivity.
Defined.

(** *** The condition is the exact one

    A hyphen-joining replacement that finds a match makes the text shorter,
    and no later step makes it longer, so a text that the normaliser leaves
    unchanged has no such match. *)

Lemma m_cls_step p x k z :
  m (Cls p) x k = Some z ->
  exists c s', rest x = c :: s' /\ p c = true /\ k (advance x s') = Some z.
Proof.
  cbn [m]. destruct (rest x) as [|c s']; [discriminate|].
  destruct (p c) eqn:E; [|discriminate]. eauto.
Qed.

Lemma m_group n r x k : m (Group n r) x k = m r x (fun y => k (set_cap n x y)).
Proof. reflexivity. Qed.

Lemma cap_length_take n k (l : jsstring) cs :
  length (cap n (<[n := Some (take (S k - k) l)]> cs)) <= 1.
Proof.
  unfold cap. destruct (decide (n < length cs)) as [Hn|Hn].
  - rewrite list_lookup_insert_eq by exact Hn. rewrite length_take. lia.
  - rewrite list_insert_ge by lia. destruct (cs !! n) as [[g|]|] eqn:E; simpl; try lia.
    apply lookup_lt_Some in E. lia.
Qed.

Lemma cap_insert_ne n n' v cs : n <> n' -> cap n (<[n' := v]> cs) = cap n cs.
Proof. intros H. unfold cap. rewrite list_lookup_insert_ne by congruence. reflexivity. Qed.

Lemma cap_eq n cs cs' : cs !! n = cs' !! n -> cap n cs = cap n cs'.
Proof. unfold cap. intros ->. reflexivity. Qed.

Lemma spaced_hyphen_match_shrinks i s y :
  match_at re_spaced_hyphen i s = Some y ->
  length (join_groups (caps y)) + length (rest y) < length s.
Proof.
  unfold match_at, re_spaced_hyphen. cbn [pat_re pat_ncaps Seqs].
  destruct (m _ _ Some) as [z|] eqn:E; [|discriminate]. intros [= <-]. cbn [caps rest].
  rewrite m_seq, m_group in E.
  apply m_cls_step in E as (c & s1 & Hs & _ & E). cbn [rest] in Hs. subst s.
  rewrite m_seq in E. apply m_reach in E as (x2 & (Hsuf2 & _ & _ & Hc2) & E).
  rewrite m_seq in E. apply m_cls_step in E as (h & s3 & Hr2 & _ & E).
  rewrite m_seq in E. apply m_reach in E as (x4 & (Hsuf4 & _ & _ & Hc4) & E).
  rewrite m_group in E. apply m_cls_step in E as (c2 & s5 & Hr4 & _ & E). injection E as <-.
  unfold set_cap, advance in *. cbn [pos rest caps] in *.
  apply suffix_length in Hsuf2, Hsuf4. rewrite Hr2 in Hsuf2. rewrite Hr4 in Hsuf4.
  cbn [length] in *.
  unfold join_groups. rewrite length_app, !(cap_insert_ne _ 0) by lia.
  pose proof (cap_length_take 2 (pos x4) (rest x4) (caps x4)) as H2.
  assert (H1 : length (cap 1 (<[2:=Some (take (S (pos x4) - pos x4) (rest x4))]> (caps x4))) <= 1).
  { rewrite cap_insert_ne by lia.
    erewrite cap_eq; [apply (cap_length_take 1 i (c :: s1) (replicate 3 None))|].
    rewrite (Hc4 1) by reflexivity. cbn [caps]. apply (Hc2 1). reflexivity. }
  lia.
Qed.

Lemma wrap_hyphen_match_shrinks i s y :
  match_at re_wrap_hyphen i s = Some y ->
  length (join_groups (caps y)) + length (rest y) < length s.
Proof.
  unfold match_at, re_wrap_hyphen. cbn [pat_re pat_ncaps Seqs].
  destruct (m _ _ Some) as [z|] eqn:E; [|discriminate]. intros [= <-]. cbn [caps rest].
  rewrite m_seq, m_group in E.
  apply m_cls_step in E as (c & s1 & Hs & _ & E). cbn [rest] in Hs. subst s.
  rewrite m_seq in E. apply m_cls_step in E as (h & s2 & Hr1 & _ & E).
  unfold set_cap, advance in Hr1. cbn [pos rest caps] in Hr1. subst s1.
  rewrite m_seq in E. apply m_reach in E as (x3 & (Hsuf3 & _ & _ & Hc3) & E).
  rewrite m_seq in E. apply m_reach in E as (x4 & (Hsuf4 & _ & _ & Hc4) & E).
  rewrite m_seq in E. apply m_reach in E as (x5 & (Hsuf5 & _ & _ & Hc5) & E).
  rewrite m_group in E. apply m_cls_step in E as (c2 & s6 & Hr5 & _ & E). injection E as <-.
  unfold set_cap, advance in *. cbn [pos rest caps] in *.
  apply suffix_length in Hsuf3, Hsuf4, Hsuf5. rewrite Hr5 in Hsuf5.
  cbn [length] in *.
  unfold join_groups. rewrite length_app, !(cap_insert_ne _ 0) by lia.
  pose proof (cap_length_take 2 (pos x5) (rest x5) (caps x5)) as H2.
  assert (H1 : length (cap 1 (<[2:=Some (take (S (pos x5) - pos x5) (rest x5))]> (caps x5))) <= 1).
  { rewrite cap_insert_ne by lia.
    erewrite cap_eq; [apply (cap_length_take 1 i (c :: h :: s2) (replicate 3 None))|].
    rewrite (Hc5 1), (Hc4 1), (Hc3 1) by reflexivity. reflexivity. }
  lia.
Qed.

Lemma replace_go_length p tmpl fuel i s :
  (forall j s' y, match_at p j s' = Some y ->
     length (tmpl (caps y)) + length (rest y) < length s') ->
  length (replace_go p tmpl fuel i s) <= length s /\
  (length (replace_go p tmpl fuel i s) = length s -> replace_go p tmpl fuel i s = s).
Proof.
  intros Hshrink. revert i s. induction fuel as [|f IH]; intros i s; [split; auto|].
  cbn [replace_go]. destruct (match_at p i s) as [y|] eqn:E.
  - pose proof (Hshrink _ _ _ E) as Hlt. pose proof (match_at_inv _ _ _ _ E) as [_ Hpos].
    destruct (Nat.eqb_spec (pos y) i) as [Heq|Hne]; [lia|].
    destruct (IH (pos y) (rest y)) as [Hle _]. rewrite length_app. split; lia.
  - destruct s as [|c s']; [split; reflexivity|]. destruct (IH (S i) s') as [Hle Heq].
    cbn [length]. split; [lia|]. intros H. f_equal. apply Heq. lia.
Qed.

Lemma unwrap_spec_length s : length (unwrap_spec s) = length s.
Proof. induction s as [|c s' IH]; [reflexivity|]. cbn [unwrap_spec length]. rewrite IH. reflexivity. Qed.

Lemma coll_length b s : length (coll b s) <= length s.
Proof.
  revert b. induction s as [|c s' IH]; intros b; [reflexivity|]. cbn [coll].
  pose proof (IH true). pose proof (IH false).
  destruct (isSpace c); [destruct b; [|destruct (head_in isSpace s')]|]; cbn [length]; lia.
Qed.

Lemma trimEnd_length s : length (trimEnd s) <= length s.
Proof.
  induction s as [|c s' IH]; [reflexivity|]. cbn [trimEnd].
  destruct (forallb isSpace (c :: s')); cbn [length]; lia.
Qed.

Lemma trim_length s : length (trim s) <= length s.
Proof.
  unfold trim, trimStart. pose proof (trimEnd_length (skip isSpace s)).
  pose proof (skip_length isSpace s). lia.
Qed.

(** A text that the normaliser leaves unchanged has no hyphen left to
    join. *)
Lemma normalizeText_fixed_settled t :
  normalizeText t = t -> joinSpacedHyphen t = t /\ joinWrapHyphen t = t.
Proof.
  destruct t as [|c t']; [intros _; split; reflexivity|]. set (t := c :: t').
  rewrite normalizeText_unfold. intros H.
  destruct (replace_go_length re_spaced_hyphen join_groups (S (length t)) 0 t
              spaced_hyphen_match_shrinks) as [H1 H1'].
  destruct (replace_go_length re_wrap_hyphen join_groups
              (S (length (joinSpacedHyphen t))) 0 (joinSpacedHyphen t)
              wrap_hyphen_match_shrinks) as [H2 H2'].
  fold (replace_all re_spaced_hyphen join_groups t) in H1, H1'.
  fold (joinSpacedHyphen t) in H1, H1'.
  fold (replace_all re_wrap_hyphen join_groups (joinSpacedHyphen t)) in H2, H2'.
  fold (joinWrapHyphen (joinSpacedHyphen t)) in H2, H2'.
  assert (Hlen : length t <= length (joinWrapHyphen (joinSpacedHyphen t))).
  { rewrite <- H at 1. etrans; [apply trim_length|].
    rewrite collapseSpaces_spec. etrans; [apply coll_length|].
    rewrite unwrapNewlines_spec, unwrap_spec_length. reflexivity. }
  assert (E1 : joinSpacedHyphen t = t) by (apply H1'; lia).
  split; [exact E1|]. rewrite E1 in H2, H2', Hlen. apply H2'. lia.
Qed.

Lemma normalizeText_idempotent_iff s :
  normalizeText (normalizeText s) = normalizeText s <->
  joinSpacedHyphen (normalizeText s) = normalizeText s /\
  joinWrapHyphen (normalizeText s) = normalizeText s.
Proof.
  split; [apply normalizeText_fixed_settled|]. intros [H1 H2]. apply normalizeText_stable; assumption.
Qed.

(** C1 as stated fails: one pass joins ["a - b"] and leaves ["ab - c"], which
    the next pass joins again. *)
Lemma normalizeText_not_idempotent :
  normalizeText (U "a - b - c") = U "ab - c" /\
  normalizeText (normalizeText (U "a - b - c")) = U "abc" /\
  ~ (forall s, normalizeText (normalizeText s) = normalizeText s).
Proof.
  assert (H1 : normalizeText (U "a - b - c") = U "ab - c") by (vm_compute; reflexivity).
  assert (H2 : normalizeText (U "ab - c") = U "abc") by (vm_compute; reflexivity).
  split; [exact H1|]. split; [rewrite H1; exact H2|].
  intros H. specialize (H (U "a - b - c")). rewrite H1, H2 in H. vm_compute in H. discriminate.
Qed.

(** ** Noise filter *)

Lemma keepLine_rejected line : keepLine line = negb (rejected line).
Proof.
  unfold keepLine, rejected, onlyDigits, publicationName, volumeHeader, bteFooter,
    categoryCaption. cbv zeta.
  destruct (re_test re_only_digits _); [reflexivity|].
  destruct (includes (U "Boletim do Trabalho e Emprego") _); [reflexivity|].
  destruct (includes (U "|") _ && includes (U "Vol.") _ && includes (U "n.º") _);
    [reflexivity|].
  destruct (re_test re_bte_footer _); [reflexivity|].
  destruct (re_test ignorePatterns _); reflexivity.
Qed.

Lemma filter_sublist {A} (f : A -> bool) (l : list A) : sublist (List.filter f l) l.
Proof.
  induction l as [|x l IH]; simpl; [constructor|].
  destruct (f x); [apply sublist_skip | apply sublist_cons]; exact IH.
Qed.

Lemma filter_idem {A} (f : A -> bool) (l : list A) :
  List.filter f (List.filter f l) = List.filter f l.
Proof.
  induction l as [|x l IH]; simpl; [reflexivity|].
  destruct (f x) eqn:E; simpl; rewrite ?E, IH; reflexivity.
Qed.

Lemma filter_split {A} (f : A -> bool) (l : list A) :
  l ≡ₚ List.filter f l ++ List.filter (fun x => negb (f x)) l.
Proof.
  induction l as [|x l IH]; simpl; [reflexivity|].
  destruct (f x); simpl.
  - constructor. exact IH.
  - rewrite <- Permutation_middle. constructor. exact IH.
Qed.

(** C8: the filter returns a subsequence of its input, what it removes is
    exactly the lines that meet one of the rejection tests, and a second pass
    removes nothing more. *)
Theorem cleanNoise_pure (lines : list TextLine) :
  sublist (cleanNoise lines) lines /\
  Forall (fun l => rejected l = false) (cleanNoise lines) /\
  lines ≡ₚ cleanNoise lines ++ List.filter rejected lines /\
  cleanNoise (cleanNoise lines) = cleanNoise lines.
Proof.
  unfold cleanNoise. split; [apply filter_sublist|]. split; [|split].
  - apply Forall_forall. intros l Hl. apply list_elem_of_In, filter_In in Hl as [_ Hk].
    rewrite keepLine_rejected in Hk. destruct (rejected l); [discriminate | reflexivity].
  - rewrite (filter_split keepLine lines) at 1. f_equiv.
    induction lines as [|x l IH]; simpl; [reflexivity|].
    rewrite keepLine_rejected, negb_involutive. destruct (rejected x); rewrite IH; reflexivity.
  - apply filter_idem.
Qed.

(** ** Line reconstruction *)

Lemma insertItem_withEol flag a l :
  insertItem (withEol flag a) (map (withEol flag) l) = map (withEol flag) (insertItem a l).
Proof.
  induction l as [|b l IH]; [reflexivity|]. cbn [insertItem map].
  change (compareItems (withEol flag a) (withEol flag b)) with (compareItems a b).
  destruct (compareItems a b <=? 0)%Z; [reflexivity|]. cbn [map]. rewrite IH. reflexivity.
Qed.

Lemma sortItems_withEol flag l :
  sortItems (map (withEol flag) l) = map (withEol flag) (sortItems l).
Proof.
  induction l as [|a l IH]; [reflexivity|]. cbn [sortItems map].
  rewrite IH. apply insertItem_withEol.
Qed.

Lemma groupItems_withEol flag i l cur lastY :
  groupItems i (map (withEol flag) l) cur lastY = groupItems i l cur lastY.
Proof.
  revert cur lastY. induction l as [|a l IH]; intros cur lastY; [reflexivity|].
  cbn [groupItems map]. change (item_y (withEol flag a)) with (item_y a).
  change (item_text (withEol flag a)) with (item_text a). rewrite !IH. reflexivity.
Qed.

(** C3 (amended): the end-of-line flag of the items has no part in the
    reconstruction; whatever the flags are, the lines are the same. *)
Theorem extractTextFromPdf_ignores_hasEol (flag : PageItem -> bool)
    (pages : list (list PageItem)) :
  extractTextFromPdf (map (map (withEol flag)) pages) = extractTextFromPdf pages.
Proof.
  unfold extractTextFromPdf. generalize 1. induction pages as [|p ps IH]; intros i;
    [reflexivity|].
  cbn [pagesFrom map]. rewrite IH. f_equal.
  unfold pageLines. rewrite sortItems_withEol. apply groupItems_withEol.
Qed.

(** An item within the tolerance of the one before it goes on the same
    line, whatever the flags say. *)
Lemma groupItems_within_tolerance i a b items cur :
  (Z.abs (item_y b - item_y a) <= 5)%Z ->
  groupItems i (b :: items) (cur ++ item_text a ++ [SP]) (item_y a) =
  groupItems i items ((cur ++ item_text a ++ [SP]) ++ item_text b ++ [SP]) (item_y b).
Proof.
  intros H. cbn [groupItems].
  destruct (Z.ltb_spec 5 (Z.abs (item_y b - item_y a))); [lia|].
  rewrite andb_false_r. reflexivity.
Qed.

(** C3 as stated fails: an item flagged as ending its line is joined with
    the next item of the same row. *)
Lemma eol_item_does_not_end_line :
  let a := mkPageItem (U "Artigo") 700 10 true in
  let b := mkPageItem (U "1.º") 700 60 false in
  hasEol a = true /\
  extractTextFromPdf [[a; b]] = [mkTextLine (U "Artigo 1.º") 700 false 1].
Proof. split; [reflexivity | vm_compute; reflexivity]. Qed.

Lemma compareItems_antisym a b : compareItems b a = (- compareItems a b)%Z.
Proof.
  unfold compareItems.
  replace (item_y b - item_y a)%Z with (- (item_y a - item_y b))%Z by lia.
  rewrite Z.abs_opp. destruct (2 <? Z.abs (item_y a - item_y b))%Z; lia.
Qed.

Lemma itemLe_trans l a b c :
  consistentPage l -> a ∈ l -> b ∈ l -> c ∈ l -> itemLe a b -> itemLe b c -> itemLe a c.
Proof.
  intros [Hrow _] Ha Hb Hc.
  pose proof (Hrow a b c Ha Hb Hc) as H1.
  pose proof (Hrow a c b Ha Hc Hb) as H2.
  pose proof (Hrow b a c Hb Ha Hc) as H3.
  unfold itemLe, compareItems, sameRow in *.
  destruct (Z.ltb_spec 2 (Z.abs (item_y a - item_y b)));
  destruct (Z.ltb_spec 2 (Z.abs (item_y b - item_y c)));
  destruct (Z.ltb_spec 2 (Z.abs (item_y a - item_y c))); lia.
Qed.

Lemma insertItem_perm a l : insertItem a l ≡ₚ a :: l.
Proof.
  induction l as [|b l IH]; [reflexivity|]. cbn [insertItem].
  destruct (compareItems a b <=? 0)%Z; [reflexivity|].
  rewrite IH. apply perm_swap.
Qed.

Lemma sortItems_perm l : sortItems l ≡ₚ l.
Proof.
  induction l as [|a l IH]; [reflexivity|]. cbn [sortItems].
  rewrite insertItem_perm, IH. reflexivity.
Qed.

Lemma insertItem_sorted page a l :
  consistentPage page -> a ∈ page -> (forall x, x ∈ l -> x ∈ page) ->
  StronglySorted itemLe l -> StronglySorted itemLe (insertItem a l).
Proof.
  intros Hpage Ha Hl Hs. induction Hs as [|b l Hs IH Hb]; cbn [insertItem].
  - constructor; constructor.
  - assert (Hbp : b ∈ page) by (apply Hl; left).
    assert (Hlp : forall x, x ∈ l -> x ∈ page) by (intros x Hx; apply Hl; right; exact Hx).
    destruct (Z.leb_spec (compareItems a b) 0) as [Hab | Hab].
    + constructor; [constructor; assumption|]. constructor; [exact Hab|].
      rewrite Forall_forall in Hb |- *. intros x Hx.
      eapply (itemLe_trans page a b x); auto.
    + constructor; [apply IH, Hlp|].
      rewrite Forall_forall in Hb |- *. intros x Hx.
      rewrite insertItem_perm in Hx. apply elem_of_cons in Hx as [-> | Hx]; [|auto].
      unfold itemLe. rewrite compareItems_antisym. lia.
Qed.

Lemma sortItems_sorted page l :
  consistentPage page -> (forall x, x ∈ l -> x ∈ page) -> StronglySorted itemLe (sortItems l).
Proof.
  intros Hpage. induction l as [|a l IH]; intros Hl; cbn [sortItems]; [constructor|].
  apply (insertItem_sorted page); auto.
  - apply Hl. left.
  - intros x Hx. rewrite sortItems_perm in Hx. apply Hl. right. exact Hx.
  - apply IH. intros x Hx. apply Hl. right. exact Hx.
Qed.

Lemma sortItems_permutation_invariant l l' :
  consistentPage l -> l ≡ₚ l' -> sortItems l = sortItems l'.
Proof.
  intros Hpage Hperm. apply (StronglySorted_unique_strong itemLe).
  - intros x1 x2 H1 H2 H12 H21. rewrite sortItems_perm in H1.
    rewrite sortItems_perm, <- Hperm in H2.
    apply (proj2 Hpage); auto. unfold itemLe in *.
    rewrite compareItems_antisym in H21. lia.
  - apply (sortItems_sorted l); auto.
  - apply (sortItems_sorted l); auto. intros x Hx. rewrite Hperm. exact Hx.
  - rewrite !sortItems_perm. exact Hperm.
Qed.

Lemma consistentPageb_spec l : consistentPageb l = true -> consistentPage l.
Proof.
  unfold consistentPageb. intros H. rewrite forallb_forall in H. split.
  - intros a b c Ha Hb Hc Hab Hbc. apply list_elem_of_In in Ha, Hb, Hc.
    specialize (H a Ha). rewrite forallb_forall in H. specialize (H b Hb).
    apply andb_true_iff in H as [_ H]. rewrite forallb_forall in H. specialize (H c Hc).
    unfold sameRowb, sameRow in *.
    destruct (Z.leb_spec (Z.abs (item_y a - item_y b)) 2); [|lia].
    destruct (Z.leb_spec (Z.abs (item_y b - item_y c)) 2); [|lia].
    destruct (Z.leb_spec (Z.abs (item_y a - item_y c)) 2); [assumption | discriminate].
  - intros a b Ha Hb Hab. apply list_elem_of_In in Ha, Hb.
    specialize (H a Ha). rewrite forallb_forall in H. specialize (H b Hb).
    apply andb_true_iff in H as [H _]. rewrite Hab in H. cbn in H.
    apply bool_decide_eq_true in H. exact H.
Qed.

(** C2 (amended): reordering the items of the pages does not change the
    lines when the comparator orders the items of each page consistently:
    being within 2 units of Y is transitive among them, and no two
    different items compare as equal. *)
Theorem extractTextFromPdf_permutation_invariant (pages pages' : list (list PageItem)) :
  forallb consistentPageb pages = true ->
  Forall2 Permutation pages pages' ->
  extractTextFromPdf pages = extractTextFromPdf pages'.
Proof.
  unfold extractTextFromPdf. generalize 1. intros i Hc Hp. revert i.
  induction Hp as [|p p' ps ps' Hperm Hp IH]; intros i; [reflexivity|].
  cbn [forallb] in Hc. apply andb_true_iff in Hc as [Hpage Hc].
  cbn [pagesFrom]. rewrite (IH Hc). f_equal.
  unfold pageLines. rewrite (sortItems_permutation_invariant p p'); auto.
  apply consistentPageb_spec, Hpage.
Qed.

Lemma extractTextFromPdf_permutation_witness :
  let a := mkPageItem (U "Artigo") 701 10 true in
  let b := mkPageItem (U "1.º") 700 60 false in
  let c := mkPageItem (U "Disposição") 680 10 false in
  let d := mkPageItem (U "geral.") 680 80 false in
  extractTextFromPdf [[a; b; c; d]] = extractTextFromPdf [[d; b; a; c]] /\
  extractTextFromPdf [[d; b; a; c]] =
    [mkTextLine (U "Artigo 1.º") 700 false 1; mkTextLine (U "Disposição geral.") 680 false 1].
Proof.
  intros a b c d. split; [|vm_compute; reflexivity].
  apply extractTextFromPdf_permutation_invariant; [vm_compute; reflexivity|].
  constructor; [|constructor].
  transitivity [b; a; c; d]; [apply perm_swap|].
  transitivity [b; a; d; c]; [do 2 apply perm_skip; apply perm_swap|].
  transitivity [b; d; a; c]; [apply perm_skip, perm_swap|].
  apply perm_swap.
Defined.

(** C2 as stated fails: two items at one position keep their input order. *)
Lemma extractTextFromPdf_depends_on_order :
  let a := mkPageItem (U "a") 0 0 false in
  let b := mkPageItem (U "b") 0 0 false in
  Forall2 Permutation [[a; b]] [[b; a]] /\
  extractTextFromPdf [[a; b]] = [mkTextLine (U "a b") 0 false 1] /\
  extractTextFromPdf [[b; a]] = [mkTextLine (U "b a") 0 false 1] /\
  extractTextFromPdf [[a; b]] <> extractTextFromPdf [[b; a]].
Proof.
  intros a b. split; [|split; [|split]].
  - constructor; [apply perm_swap | constructor].
  - vm_compute. reflexivity.
  - vm_compute. reflexivity.
  - vm_compute. discriminate.
Qed.

(** ** Metadata extraction *)

Lemma search_from_inv p i s y :
  search_from p i s = Some y -> exists j s', match_at p j s' = Some y.
Proof.
  revert i. induction s as [|c s' IH]; intros i; cbn [search_from].
  - destruct (match_at p i []) eqn:E; [|discriminate]. intros [= <-]. eauto.
  - destruct (match_at p i (c :: s')) eqn:E; [intros [= <-]; eauto|]. apply IH.
Qed.

Lemma group_insert_ne n n' v cs : n <> n' -> group n (<[n' := v]> cs) = group n cs.
Proof. intros H. unfold group. rewrite list_lookup_insert_ne by congruence. reflexivity. Qed.

(** A match of the header pattern always sets its first group. *)
Lemma header_group1 txt cs :
  re_match headerLineRegex txt = Some cs -> exists g, group 1 cs = Some g.
Proof.
  unfold re_match. destruct (search_from headerLineRegex 0 txt) as [y|] eqn:E; [|discriminate].
  intros [= <-]. apply search_from_inv in E as (j & s' & E).
  unfold match_at in E. destruct (m _ _ Some) as [z|] eqn:Hm; [|discriminate].
  injection E as <-. cbn [caps]. rewrite group_insert_ne by lia.
  unfold headerLineRegex in Hm. cbn [pat_re pat_ncaps] in Hm.
  change (Seqs (Bol :: Group 1 (Star false (Cls dot)) :: ?t)) with
    (Seq Bol (Seq (Group 1 (Star false (Cls dot))) (Seqs t))) in Hm.
  match type of Hm with
  | m (Seq Bol (Seq (Group 1 ?R0) ?T0)) ?x0 Some = _ =>
      set (T := T0) in *; set (R := R0) in *; set (x := x0) in *
  end.
  rewrite m_seq in Hm. apply m_reach in Hm as (x1 & (_ & _ & Hl1 & _) & Hm).
  rewrite m_seq in Hm. cbn [m] in Hm. fold (m R) in Hm.
  apply m_reach in Hm as (y & (_ & _ & Hl2 & _) & Hm).
  apply m_reach in Hm as (y' & (_ & _ & _ & Hc) & Hm). injection Hm as Hyz.
  rewrite <- Hyz. unfold group.
  assert (Hg : has_group 1 T = false) by (vm_compute; reflexivity).
  rewrite (Hc 1 Hg).
  unfold set_cap. cbn [caps]. rewrite list_lookup_insert_eq; [eauto|].
  rewrite Hl2, Hl1. subst x. cbn [caps]. rewrite length_replicate. lia.
Qed.

Lemma scanLines_returns n i lines st :
  i + n <= length lines -> exists st', scanLines n i lines st = Returned st'.
Proof.
  revert i st. induction n as [|n IH]; intros i st Hlen; cbn [scanLines]; [eauto|].
  destruct (lines !! i) as [line|] eqn:El.
  2:{ apply lookup_ge_None in El. lia. }
  destruct (re_match headerLineRegex _) as [cs|] eqn:Eh.
  - apply header_group1 in Eh as [g ->]. eauto.
  - apply IH. lia.
Qed.


Lemma convertDateToISO_returns h s : exists d, convertDateToISO h (Some s) = Returned d.
Proof.
  unfold convertDateToISO. cbv zeta.
  set (parts := split re_ws _).
  destruct (Nat.ltb_spec (length parts) 3) as [|Hlen]; [eauto|].
  destruct (findIndex _ parts) as [k|]; cbn [default]; unfold id.
  - destruct ((0 <? k) && (k + 1 <? length parts)) eqn:Er.
    + apply andb_true_iff in Er as [_ Hk]. apply Nat.ltb_lt in Hk.
      destruct (parts !! (k - 1)) as [d|] eqn:Ed.
      * match goal with |- context [if ?c then _ else _] => destruct c end; eauto.
      * apply lookup_ge_None in Ed. lia.
    + destruct (parts !! 0) as [d|] eqn:Ed.
      * match goal with |- context [if ?c then _ else _] => destruct c end; eauto.
      * apply lookup_ge_None in Ed. lia.
  - destruct (parts !! 0) as [d|] eqn:Ed.
    + match goal with |- context [if ?c then _ else _] => destruct c end; eauto.
    + apply lookup_ge_None in Ed. lia.
Qed.

Lemma extractGlobalMetadata_returns h lines file :
  exists md, extractGlobalMetadata h lines file = Returned md /\
             exists tail, reference md = U "BTE n.º " ++ tail.
Proof.
  unfold extractGlobalMetadata.
  destruct (scanLines_returns (Nat.min (length lines) 10) 0 lines
              (mkScan (Some []) (Some []) (Some (number file)))) as [st ->]; [lia|].
  assert (Hd : exists d, (if truthy (foundDateText st)
                          then convertDateToISO h (foundDateText st)
                          else Returned (year file ++ U "-01-01")) = Returned d).
  { destruct (foundDateText st) as [[|c t]|]; cbn [truthy]; eauto.
    apply convertDateToISO_returns. }
  destruct Hd as [d ->]. eexists. split; [reflexivity|]. cbn [reference]. eauto.
Qed.

Lemma js_length_app a b : js_length (a ++ b) = js_length a + js_length b.
Proof.
  induction a as [|c a IH]; [reflexivity|]. cbn [app js_length fold_right] in *.
  fold (js_length (a ++ b)). fold (js_length a). rewrite IH.
  destruct (65535 <? c)%N; lia.
Qed.



(** The default is taken whenever the scan ends without date text, which
    includes a header line whose leading part is blank. *)
Lemma extractGlobalMetadata_default_when_scan_empty h lines file st :
  scanLines (Nat.min (length lines) 10) 0 lines
    (mkScan (Some []) (Some []) (Some (number file))) = Returned st ->
  truthy (foundDateText st) = false ->
  exists ref, extractGlobalMetadata h lines file
              = Returned (mkMetadata (year file ++ U "-01-01") ref).
Proof.
  intros Hscan Hfalse. unfold extractGlobalMetadata. rewrite Hscan, Hfalse. eauto.
Qed.

(** C9: the reference always starts with the fixed label, whatever the
    document type is, so it has at least eight characters. *)
Theorem reference_starts_with_BTE
    (h : Host) (lines : list TextLine) (file : DownloadedFile) :
  exists md, extractGlobalMetadata h lines file = Returned md /\
    (exists tail, reference md = U "BTE n.º " ++ tail) /\
    8 <= js_length (reference md) /\
    forall t, extractGlobalMetadata h lines (withDocType t file) = Returned md.
Proof.
  destruct (extractGlobalMetadata_returns h lines file) as (md & Hmd & tail & Ht).
  exists md. split; [exact Hmd|]. split; [eauto|]. split.
  - rewrite Ht, js_length_app. change (js_length (U "BTE n.º ")) with 8. lia.
  - intros t. exact Hmd.
Qed.


(** ** Tree builder: the store stays a tree *)

Lemma stackOk_top hp stack : stackOk hp stack -> top stack < length hp.
Proof.
  intros [Hl Hf]. destruct stack as [|t st]; [discriminate|]. cbn [top hd].
  apply Forall_cons_1 in Hf. tauto.
Qed.

Lemma stackOk_root hp : 0 < length hp -> stackOk hp [0].
Proof. intros H. split; [reflexivity|]. constructor; [exact H | constructor]. Qed.

Lemma storeOk_length hp : storeOk hp -> 0 < length hp.
Proof. intros [[cs H] _]. apply lookup_lt_Some in H. exact H. Qed.

Lemma typeOf_root hp : storeOk hp -> typeOf hp 0 = root.
Proof. intros [[cs H] _]. unfold typeOf. rewrite H. reflexivity. Qed.

Lemma popUntilType_ok hp types stack :
  stackOk hp stack -> stackOk hp (popUntilType hp types stack).
Proof.
  induction stack as [|cur below IH]; intros H; [exact H|].
  cbn [popUntilType]. destruct below as [|b below']; [exact H|].
  destruct (bool_decide _); [exact H|]. apply IH.
  destruct H as [Hl Hf]. split; [exact Hl|]. apply Forall_cons_1 in Hf. tauto.
Qed.

Lemma popUntilType_top hp types stack :
  storeOk hp -> stackOk hp stack -> root ∈ types ->
  typeOf hp (top (popUntilType hp types stack)) ∈ types.
Proof.
  intros Hs. induction stack as [|cur below IH]; intros H Hr; [destruct H; discriminate|].
  cbn [popUntilType]. destruct below as [|b below'].
  - destruct H as [Hl _]. injection Hl as ->. cbn [top hd]. rewrite typeOf_root by exact Hs.
    exact Hr.
  - destruct (bool_decide _) eqn:E; [apply bool_decide_eq_true in E; exact E|].
    apply IH; [|exact Hr]. destruct H as [Hl Hf]. split; [exact Hl|].
    apply Forall_cons_1 in Hf. tauto.
Qed.

Lemma addChild_ok hp stack node :
  storeOk hp -> stackOk hp stack ->
  h_children node = [] -> h_type node <> root ->
  (h_type node = article -> is_Some (h_text node)) ->
  allowedChild (typeOf hp (top stack)) (h_type node) = true ->
  storeOk (fst (addChild (hp, stack) node)) /\
  stackOk (fst (addChild (hp, stack) node)) (snd (addChild (hp, stack) node)).
Proof.
  intros Hs Hk Hch Hnr Hart Hallow. pose proof (stackOk_top _ _ Hk) as Htop.
  cbn [addChild fst snd]. remember (top stack) as t eqn:Et.
  remember (length hp) as id eqn:Hid.
  assert (Hlen : length (alter (pushChild id) t (hp ++ [node])) = S id).
  { rewrite length_alter, length_app. simpl. lia. }
  assert (Hnew : alter (pushChild id) t (hp ++ [node]) !! id = Some node).
  { rewrite list_lookup_alter_ne by lia. rewrite lookup_app_r by lia.
    replace (id - length hp) with 0 by lia. reflexivity. }
  assert (Hold : forall j, j < id ->
            alter (pushChild id) t (hp ++ [node]) !! j =
            (if decide (t = j) then pushChild id else fun n => n) <$> hp !! j).
  { intros j Hj. destruct (decide (t = j)) as [<-|Hne].
    - rewrite list_lookup_alter_eq, lookup_app_l by lia. reflexivity.
    - rewrite list_lookup_alter_ne, lookup_app_l by lia.
      destruct (hp !! j); reflexivity. }
  assert (Hkeep : forall j n, hp !! j = Some n ->
            exists n', alter (pushChild id) t (hp ++ [node]) !! j = Some n' /\
                       h_type n' = h_type n).
  { intros j n Hj. pose proof (lookup_lt_Some _ _ _ Hj).
    rewrite Hold, Hj by lia. cbn. destruct (decide (t = j)); eauto. }
  split.
  - destruct Hs as [[cs H0] Hall]. split.
    + rewrite Hold, H0 by lia. cbn. destruct (decide (t = 0)); cbn; eauto.
    + intros j n Hj. destruct (decide (j = id)) as [->|Hjid].
      * rewrite Hnew in Hj. injection Hj as <-.
        split; [intros; contradiction|]. split; [exact Hart|]. rewrite Hch. constructor.
      * assert (Hjlt : j < id).
        { apply lookup_lt_Some in Hj. rewrite Hlen in Hj. lia. }
        rewrite Hold in Hj by exact Hjlt.
        destruct (hp !! j) as [n0|] eqn:E0; [|discriminate]. cbn in Hj. injection Hj as <-.
        destruct (Hall j n0 E0) as (H1 & H2 & H3).
        assert (H3' : Forall (fun c => j < c /\ exists cn,
                   alter (pushChild id) t (hp ++ [node]) !! c = Some cn /\
                   allowedChild (h_type n0) (h_type cn) = true) (h_children n0)).
        { eapply Forall_impl; [exact H3|]. intros c (Hc & cn & Hcn & Hal).
          split; [exact Hc|]. destruct (Hkeep c cn Hcn) as (n'' & Hn'' & Hty).
          exists n''. split; [exact Hn''|]. rewrite Hty. exact Hal. }
        destruct (decide (t = j)) as [Htj|Hne].
        -- cbn [pushChild h_type h_text h_children].
           split; [exact H1|]. split; [exact H2|]. apply Forall_app. split; [exact H3'|].
           constructor; [|constructor]. split; [lia|]. exists node. split; [exact Hnew|].
           unfold typeOf in Hallow. rewrite Htj, E0 in Hallow. exact Hallow.
        -- split; [exact H1|]. split; [exact H2|]. exact H3'.
  - destruct Hk as [Hl Hf]. split.
    + destruct stack as [|a st]; [discriminate|]. exact Hl.
    + rewrite Hlen. constructor; [lia|].
      eapply Forall_impl; [exact Hf|]. cbv beta. intros; lia.
Qed.

Lemma addBody_ok text hp stack :
  storeOk hp -> stackOk hp stack ->
  storeOk (fst (addBody text (hp, stack))) /\
  stackOk (fst (addBody text (hp, stack))) (snd (addBody text (hp, stack))).
Proof.
  intros Hs Hk. cbn [addBody]. remember (top stack) as t eqn:Et.
  destruct (bool_decide (typeOf hp t = root)) eqn:Er; [split; assumption|].
  apply bool_decide_eq_false in Er. cbn [fst snd].
  assert (Hlk : forall j, alter (appendText text) t hp !! j =
                  (if decide (t = j) then appendText text else fun n => n) <$> hp !! j).
  { intros j. destruct (decide (t = j)) as [<-|Hne].
    - apply list_lookup_alter_eq.
    - rewrite list_lookup_alter_ne by exact Hne. destruct (hp !! j); reflexivity. }
  assert (Hkeep : forall j n, hp !! j = Some n ->
            exists n', alter (appendText text) t hp !! j = Some n' /\ h_type n' = h_type n).
  { intros j n Hj. rewrite Hlk, Hj. cbn. destruct (decide (t = j)); eauto. }
  split.
  - destruct Hs as [[cs H0] Hall]. split.
    + rewrite Hlk, H0. destruct (decide (t = 0)) as [Ht0|]; [|cbn; eauto].
      exfalso. apply Er. unfold typeOf. rewrite Ht0, H0. reflexivity.
    + intros j n Hj. rewrite Hlk in Hj.
      destruct (hp !! j) as [n0|] eqn:E0; [|discriminate]. cbn in Hj. injection Hj as <-.
      destruct (Hall j n0 E0) as (H1 & H2 & H3).
      assert (H3' : Forall (fun c => j < c /\ exists cn,
                   alter (appendText text) t hp !! c = Some cn /\
                   allowedChild (h_type n0) (h_type cn) = true) (h_children n0)).
      { eapply Forall_impl; [exact H3|]. intros c (Hc & cn & Hcn & Hal).
        split; [exact Hc|]. destruct (Hkeep c cn Hcn) as (n'' & Hn'' & Hty).
        exists n''. split; [exact Hn''|]. rewrite Hty. exact Hal. }
      destruct (decide (t = j)); cbn [appendText h_type h_text h_children]; eauto.
  - destruct Hk as [Hl Hf]. split; [exact Hl|]. rewrite length_alter. exact Hf.
Qed.

Lemma placeNode_ok hp stack ty headerText :
  storeOk hp -> stackOk hp stack -> ty <> root ->
  storeOk (fst (placeNode (hp, stack) (newNode ty headerText))) /\
  stackOk (fst (placeNode (hp, stack) (newNode ty headerText)))
          (snd (placeNode (hp, stack) (newNode ty headerText))).
Proof.
  intros Hs Hk Hty. unfold placeNode. cbn [newNode h_type].
  assert (Hin : forall types, root ∈ types ->
            typeOf hp (top (popUntilType hp types stack)) ∈ types).
  { intros types Hr. apply popUntilType_top; assumption. }
  destruct ty; [contradiction| | |].
  - apply addChild_ok; try assumption; try reflexivity; try discriminate.
    + apply stackOk_root, storeOk_length, Hs.
    + cbn [top hd]. rewrite typeOf_root by exact Hs. reflexivity.
  - apply addChild_ok; try assumption; try reflexivity; try discriminate.
    + apply popUntilType_ok, Hk.
    + specialize (Hin [diploma; root]). cbn [newNode h_type allowedChild].
      destruct (typeOf hp _); try reflexivity;
        exfalso; (assert (Hr : root ∈ [diploma; root]) by (right; left));
        specialize (Hin Hr); repeat (apply elem_of_cons in Hin as [Hin|Hin]; [discriminate|]);
        apply elem_of_nil in Hin; exact Hin.
  - apply addChild_ok; try assumption; try reflexivity; try discriminate.
    + apply popUntilType_ok, Hk.
    + intros _. cbn. eauto.
    + specialize (Hin [chapter; diploma; root]). cbn [newNode h_type allowedChild].
      destruct (typeOf hp _); try reflexivity;
        exfalso; (assert (Hr : root ∈ [chapter; diploma; root]) by (right; right; left));
        specialize (Hin Hr); repeat (apply elem_of_cons in Hin as [Hin|Hin]; [discriminate|]);
        apply elem_of_nil in Hin; exact Hin.
Qed.

Lemma classify_not_root text ty : classify text = Some ty -> ty <> root.
Proof.
  unfold classify. destruct (re_test re_diploma text); [intros [= <-]; discriminate|].
  destruct (re_test re_structure text); [intros [= <-]; discriminate|].
  destruct (re_test re_article text); [intros [= <-]; discriminate | discriminate].
Qed.

Lemma buildLoop_ok fuel lines b :
  storeOk (fst b) -> stackOk (fst b) (snd b) ->
  storeOk (fst (buildLoop fuel lines b)) /\
  stackOk (fst (buildLoop fuel lines b)) (snd (buildLoop fuel lines b)).
Proof.
  revert lines b. induction fuel as [|f IH]; intros lines [hp stack] Hs Hk;
    cbn [buildLoop]; [split; assumption|].
  destruct lines as [|line following]; [split; assumption|]. cbv zeta.
  destruct (classify _) as [ty|] eqn:Ec.
  - destruct (if re_test re_strict_preambulo _ then _ else _) as [headerText following'].
    pose proof (placeNode_ok hp stack ty headerText Hs Hk (classify_not_root _ _ Ec)) as [H1 H2].
    apply IH; assumption.
  - pose proof (addBody_ok (trim (line_text line)) hp stack Hs Hk) as [H1 H2].
    apply IH; assumption.
Qed.

Lemma buildStore_ok lines : storeOk (fst (buildStore lines)).
Proof.
  unfold buildStore. apply buildLoop_ok; cbn [fst snd].
  - split; [exists []; reflexivity|]. intros [|id] n H; [|discriminate].
    injection H as <-. cbn. split; [reflexivity|]. split; [discriminate | constructor].
  - apply stackOk_root. simpl. lia.
Qed.

(** ** The tree read off the store *)

Lemma reify_wellKinded hp :
  storeOk hp ->
  forall fuel id n, hp !! id = Some n -> length hp <= fuel + id ->
    wellKinded (reify fuel hp id) = true /\
    ntype (reify fuel hp id) = h_type n /\
    text (reify fuel hp id) = h_text n.
Proof.
  intros [_ Hall]. induction fuel as [|f IH]; intros id n Hid Hlen.
  - apply lookup_lt_Some in Hid. lia.
  - cbn [reify]. rewrite Hid. cbn [wellKinded ntype text children].
    split; [|split; reflexivity]. destruct (Hall id n Hid) as (_ & Hart & Hch).
    apply andb_true_iff. split.
    + destruct (bool_decide (h_type n = article)) eqn:E; [|reflexivity].
      apply bool_decide_eq_true in E. apply bool_decide_eq_true, Hart, E.
    + apply forallb_forall. intros t Ht. apply in_map_iff in Ht as (c & <- & Hc).
      rewrite Forall_forall in Hch. apply list_elem_of_In in Hc.
      destruct (Hch c Hc) as (Hlt & cn & Hcn & Hal).
      destruct (IH c cn Hcn ltac:(lia)) as (Hw & Hty & _).
      rewrite Hw, Hty, Hal. reflexivity.
Qed.

(** Reading the tree does not run out of fuel. *)
Lemma reify_fuel hp :
  storeOk hp ->
  forall f1 f2 id, id < length hp -> length hp <= f1 + id -> length hp <= f2 + id ->
    reify f1 hp id = reify f2 hp id.
Proof.
  intros [_ Hall]. induction f1 as [|f1 IH]; intros f2 id Hid H1 H2; [lia|].
  destruct f2 as [|f2]; [lia|]. cbn [reify].
  destruct (hp !! id) as [n|] eqn:E; [|reflexivity]. f_equal.
  destruct (Hall id n E) as (_ & _ & Hch). apply map_ext_in. intros c Hc.
  rewrite Forall_forall in Hch. apply list_elem_of_In in Hc.
  destruct (Hch c Hc) as (Hlt & cn & Hcn & _). apply lookup_lt_Some in Hcn.
  apply IH; lia.
Qed.

Lemma buildTree_wellKinded lines :
  wellKinded (buildTree lines) = true /\
  ntype (buildTree lines) = root /\
  text (buildTree lines) = None.
Proof.
  unfold buildTree. pose proof (buildStore_ok lines) as Hs.
  destruct (Hs) as [[cs H0] _].
  destruct (reify_wellKinded _ Hs (length (fst (buildStore lines))) 0 _ H0 ltac:(lia))
    as (Hw & Hty & Htx).
  split; [exact Hw|]. split; [exact Hty | exact Htx].
Qed.

Lemma wellKinded_children ty h t cs :
  wellKinded (Node ty h t cs) = true ->
  Forall (fun c => allowedChild ty (ntype c) = true /\ wellKinded c = true) cs.
Proof.
  cbn [wellKinded ntype children]. intros H. apply andb_true_iff in H as [_ H].
  rewrite forallb_forall in H. apply Forall_forall. intros c Hc.
  apply list_elem_of_In, H, andb_true_iff in Hc. exact Hc.
Qed.

Lemma wellKinded_edges n :
  wellKinded n = true -> Forall (fun e => allowedChild (fst e) (snd e) = true) (edges n).
Proof.
  induction n as [ty h t cs IH] using BteNode_forall_ind. intros Hw.
  apply wellKinded_children in Hw. cbn [edges ntype children].
  apply List.Forall_flat_map. rewrite Forall_forall in IH, Hw |- *. intros c Hc.
  destruct (Hw c Hc) as [Hal Hwc]. constructor; [exact Hal | apply IH; assumption].
Qed.

Lemma wellKinded_nodes n :
  wellKinded n = true -> Forall (fun x => ntype x = article -> is_Some (text x)) (nodes n).
Proof.
  induction n as [ty h t cs IH] using BteNode_forall_ind. intros Hw.
  pose proof (wellKinded_children _ _ _ _ Hw) as Hc. cbn [nodes children]. constructor.
  - cbn [wellKinded ntype text] in *. apply andb_true_iff in Hw as [Hw _]. intros ->.
    cbn in Hw. apply bool_decide_eq_true in Hw. exact Hw.
  - apply List.Forall_flat_map. rewrite Forall_forall in IH, Hc |- *. intros c Hcin.
    apply IH; [exact Hcin|]. apply Hc, Hcin.
Qed.

Lemma kindsFrom_child p c :
  allowedChild p c = true -> sublist (p :: kindsFrom c) (kindsFrom p).
Proof.
  destruct p, c; cbn; try discriminate; intros _;
    repeat first [apply sublist_skip | apply sublist_cons | apply sublist_nil].
Qed.

Lemma wellKinded_paths n :
  wellKinded n = true ->
  Forall (fun p => head p = Some (ntype n) /\ sublist p (kindsFrom (ntype n))) (paths n).
Proof.
  induction n as [ty h t cs IH] using BteNode_forall_ind. intros Hw.
  apply wellKinded_children in Hw. cbn [paths ntype children]. constructor.
  - split; [reflexivity|]. destruct ty; cbn;
      repeat first [apply sublist_skip | apply sublist_nil | apply sublist_cons].
  - apply List.Forall_map, List.Forall_flat_map. rewrite Forall_forall in IH, Hw |- *.
    intros c Hc. destruct (Hw c Hc) as [Hal Hwc]. specialize (IH c Hc Hwc).
    eapply Forall_impl; [exact IH|]. intros p [_ Hp]. split; [reflexivity|].
    etrans; [|apply kindsFrom_child, Hal]. apply sublist_skip, Hp.
Qed.

Lemma wellKinded_height n : wellKinded n = true -> height n + rank (ntype n) <= 4.
Proof.
  induction n as [ty h t cs IH] using BteNode_forall_ind. intros Hw.
  apply wellKinded_children in Hw. cbn [height ntype children].
  assert (Hmax : list_max (map height cs) <= 3 - rank ty).
  { apply list_max_le, List.Forall_map. rewrite Forall_forall in IH, Hw |- *. intros c Hc.
    destruct (Hw c Hc) as [Hal Hwc]. specialize (IH c Hc Hwc).
    destruct ty, (ntype c); cbn in *; try discriminate; lia. }
  destruct ty; cbn in *; [lia | lia | lia |].
  destruct cs as [|c cs']; [cbn; lia|]. exfalso.
  apply Forall_cons_1 in Hw as [[Hal _] _]. destruct (ntype c); discriminate.
Qed.

(** ** The trees the builder produces *)

Lemma wellKinded_no_root_below n :
  wellKinded n = true -> Forall (fun x => ntype x <> root) (flat_map nodes (children n)).
Proof.
  induction n as [ty h t cs IH] using BteNode_forall_ind. intros Hw.
  apply wellKinded_children in Hw. cbn [children].
  apply List.Forall_flat_map. rewrite Forall_forall in IH, Hw |- *. intros c Hc.
  destruct (Hw c Hc) as [Hal Hwc]. destruct c as [cty ch ct ccs]. cbn [nodes children ntype] in *.
  constructor; [destruct cty; [destruct ty; discriminate | discriminate..]|].
  apply (IH _ Hc Hwc).
Qed.

(** C5: along every edge of the tree a diploma hangs under the root, a
    chapter under a diploma or the root, an article under a chapter, a
    diploma or the root; the top of the tree is the root and no node below
    it has that kind. *)
Theorem buildTree_parent_kinds (lines : list TextLine) :
  ntype (buildTree lines) = root /\
  Forall (fun x => ntype x <> root) (flat_map nodes (children (buildTree lines))) /\
  Forall (fun e =>
            match snd e with
            | diploma => fst e = root
            | chapter => fst e = diploma \/ fst e = root
            | article => fst e = chapter \/ fst e = diploma \/ fst e = root
            | root => False
            end) (edges (buildTree lines)).
Proof.
  destruct (buildTree_wellKinded lines) as (Hw & Hty & _). split; [exact Hty|].
  split; [apply wellKinded_no_root_below, Hw|].
  eapply Forall_impl; [apply wellKinded_edges, Hw|]. intros [p c]. cbn [fst snd].
  destruct p, c; cbn; try discriminate; auto.
Qed.

(** C6: the root of the tree has no text, and it is the only node of kind
    root; every article has its text set, from its creation on. *)
Theorem buildTree_text_fields (lines : list TextLine) :
  ntype (buildTree lines) = root /\
  text (buildTree lines) = None /\
  Forall (fun x => ntype x <> root) (flat_map nodes (children (buildTree lines))) /\
  Forall (fun x => ntype x = article -> is_Some (text x)) (nodes (buildTree lines)) /\
  forall headerText, h_text (newNode article headerText) = Some [].
Proof.
  destruct (buildTree_wellKinded lines) as (Hw & Hty & Htx).
  split; [exact Hty|]. split; [exact Htx|]. split; [apply wellKinded_no_root_below, Hw|].
  split; [apply wellKinded_nodes, Hw | reflexivity].
Qed.

(** C10: the kinds along every path from the root are a subsequence of
    root, diploma, chapter, article that starts with root, so a path has at
    most four nodes and the tree at most four levels. *)
Theorem buildTree_paths_ordered (lines : list TextLine) :
  Forall (fun p => head p = Some root /\
                   sublist p [root; diploma; chapter; article] /\
                   length p <= 4) (paths (buildTree lines)) /\
  height (buildTree lines) <= 4.
Proof.
  destruct (buildTree_wellKinded lines) as (Hw & Hty & _). split.
  - eapply Forall_impl; [apply wellKinded_paths, Hw|]. rewrite Hty. intros p [Hh Hs].
    split; [exact Hh|]. split; [exact Hs|]. apply sublist_length in Hs. exact Hs.
  - pose proof (wellKinded_height _ Hw). lia.
Qed.

(** ** Header merging *)

Lemma mergeHeader_spec headerText following :
  mergeHeader headerText following =
  (headerText ++ flat_map (fun l => SP :: trim (line_text l)) (takeWhile continuesHeader following),
   dropWhile continuesHeader following).
Proof.
  revert headerText. induction following as [|l rest IH]; intros headerText;
    cbn [mergeHeader takeWhile dropWhile flat_map].
  - rewrite app_nil_r. reflexivity.
  - unfold continuesHeader at 1 3. destruct (looksLikeTitle _).
    + rewrite IH. cbn [flat_map]. rewrite <- !app_assoc. reflexivity.
    + cbn [flat_map]. rewrite app_nil_r. reflexivity.
Qed.



(** The conditions of [looksLikeTitle], one by one. *)
Lemma looksLikeTitle_conditions s :
  looksLikeTitle s = true <->
  0 < js_length s /\ js_length s < 250 /\
  re_test re_article s = false /\ re_test re_structure s = false /\
  re_test re_diploma s = false /\ re_test re_numbered s = false /\
  re_test re_preambulo s = false /\ re_test re_end_punct s = false.
Proof.
  unfold looksLikeTitle. rewrite !andb_true_iff, !negb_true_iff, !Nat.ltb_lt. tauto.
Qed.

(** The loop does not depend on its fuel once there is as much of it as
    there are lines. *)
Lemma dropWhile_length {A} (f : A -> bool) l : length (dropWhile f l) <= length l.
Proof. induction l as [|x l IH]; simpl; [lia|]. destruct (f x); simpl; lia. Qed.

Lemma buildLoop_fuel f1 f2 lines b :
  length lines <= f1 -> length lines <= f2 -> buildLoop f1 lines b = buildLoop f2 lines b.
Proof.
  revert f2 lines b. induction f1 as [|f1 IH]; intros f2 lines b H1 H2.
  - destruct lines; [|simpl in H1; lia]. destruct f2; reflexivity.
  - destruct lines as [|line following]; [destruct f2; reflexivity|].
    destruct f2 as [|f2]; [simpl in H2; lia|]. cbn [buildLoop]. cbv zeta.
    cbn [length] in H1, H2.
    destruct (classify _).
    + destruct (re_test re_strict_preambulo _).
      * apply IH; lia.
      * rewrite mergeHeader_spec. pose proof (dropWhile_length continuesHeader following).
        apply IH; lia.
    + apply IH; lia.
Qed.

(** ** The tree after normalisation

    [cleanTreeText] rewrites the texts and nothing else, so what holds of
    the kinds in the builder's tree holds in the document that [parse]
    returns. *)

Lemma cleanTreeText_wellKinded n :
  ntype (cleanTreeText n) = ntype n /\
  (wellKinded n = true -> wellKinded (cleanTreeText n) = true).
Proof.
  induction n as [ty h t cs IH] using BteNode_forall_ind.
  split; [reflexivity|]. intros Hw. pose proof (wellKinded_children _ _ _ _ Hw) as Hc.
  cbn [cleanTreeText wellKinded ntype text children] in *.
  apply andb_true_iff in Hw as [Ht _]. apply andb_true_iff. split.
  - destruct (bool_decide (ty = article)); [|reflexivity].
    apply bool_decide_eq_true in Ht. apply bool_decide_eq_true.
    destruct Ht as [x ->]. cbn. eauto.
  - apply forallb_forall. intros c' Hc'. apply in_map_iff in Hc' as (c & <- & Hin).
    rewrite Forall_forall in IH, Hc. apply list_elem_of_In in Hin.
    destruct (IH c Hin) as [Hty Hwk]. destruct (Hc c Hin) as [Hal Hwc].
    rewrite Hty, Hal, (Hwk Hwc). reflexivity.
Qed.

Lemma parse_returns_well_kinded_tree h pages file :
  exists doc, parse h pages file = Returned doc /\
    ntype (doc_root doc) = root /\ wellKinded (doc_root doc) = true /\
    doc_type doc = docType file /\ doc_url doc = url file.
Proof.
  unfold parse. cbv zeta.
  destruct (extractGlobalMetadata_returns h (extractTextFromPdf pages) file) as (md & -> & _).
  eexists. split; [reflexivity|]. cbn [doc_root doc_type doc_url].
  destruct (buildTree_wellKinded (cleanNoise (extractTextFromPdf pages))) as (Hw & Hty & _).
  destruct (cleanTreeText_wellKinded (buildTree (cleanNoise (extractTextFromPdf pages))))
    as [Hty' Hw'].
  rewrite Hty', Hty. auto.
Qed.

(** ** Worked examples *)

Example lines_of_two_rows :
  extractTextFromPdf
    [[mkPageItem (U "geral.") 680 80 false; mkPageItem (U "1.º") 700 60 false;
      mkPageItem (U "Artigo") 700 10 false; mkPageItem (U "Disposição") 680 10 false]]
  = [mkTextLine (U "Artigo 1.º") 700 false 1; mkTextLine (U "Disposição geral.") 680 false 1].
Proof. vm_compute. reflexivity. Qed.

Example tree_of_article :
  buildTree [tl "Artigo 1.º"; tl "Disposição geral."]
  = Node root None None [Node article (Some (U "Artigo 1.º")) (Some (U "Disposição geral.")) []].
Proof. vm_compute. reflexivity. Qed.

Example article_under_diploma_without_chapter :
  buildTree [tl "Portaria n.º 1/2024:"; tl "Capítulo I"; tl "Artigo 1.º"; tl "Texto.";
             tl "Decreto-Lei n.º 2;"; tl "Artigo 1.º"; tl "Outro."]
  = Node root None None
      [Node diploma (Some (U "Portaria n.º 1/2024:")) None
         [Node chapter (Some (U "Capítulo I")) None
            [Node article (Some (U "Artigo 1.º")) (Some (U "Texto.")) []]];
       Node diploma (Some (U "Decreto-Lei n.º 2;")) None
         [Node article (Some (U "Artigo 1.º")) (Some (U "Outro.")) []]].
Proof. vm_compute. reflexivity. Qed.

Example page_number_is_noise :
  cleanNoise [tl "Artigo 1.º"; tl "42"; tl "BTE 12 | 345"; tl "PRIVADO"; tl "Disposição geral."]
  = [tl "Artigo 1.º"; tl "Disposição geral."].
Proof. vm_compute. reflexivity. Qed.

Example wrapped_word_is_joined : normalizeText (U "traba-
lho") = U "trabalho".
Proof. vm_compute. reflexivity. Qed.

Example enumeration_keeps_its_newline : normalizeText (U "o seguinte:
1. primeiro
segundo") = U "o seguinte:
1. primeiro segundo".
Proof. vm_compute. reflexivity. Qed.

Example metadata_of_header_line :
  extractGlobalMetadata sampleHost
    [tl "foo"; tl " 15 de Janeiro de 2024 | n.º 3 | Vol. 91"] file1
  = Returned (mkMetadata (U "2024-01-15") (U "BTE n.º 3, Vol. 91, de 15 de Janeiro de 2024")).
Proof. vm_compute. reflexivity. Qed.

Example metadata_of_bare_date :
  extractGlobalMetadata sampleHost [tl "foo"; tl "Lisboa, 5 março 2024, bar"] file1
  = Returned (mkMetadata (U "2024-03-05") (U "BTE n.º 7, de 5 março 2024")).
Proof. vm_compute. reflexivity. Qed.

Example metadata_without_signal :
  extractGlobalMetadata sampleHost [tl "foo"; tl "bar"] file1
  = Returned (mkMetadata (U "2024-01-01") (U "BTE n.º 7, de 2024")).
Proof. vm_compute. reflexivity. Qed.

(** Text that is found but is not a date gives today's date, as the comment
    of [convertDateToISO] says. *)
Example metadata_of_unparsed_text :
  extractGlobalMetadata sampleHost [tl "foo | N.º 12|vol.3"] file1
  = Returned (mkMetadata (today sampleHost) (U "BTE n.º 12, Vol. 3, de foo")).
Proof. vm_compute. reflexivity. Qed.

Example metadata_of_blank_header :
  extractGlobalMetadata sampleHost [tl "5 março 2024"; tl " | n.º 5 | Vol. 2"] file1
  = Returned (mkMetadata (U "2024-01-01") (U "BTE n.º 5, Vol. 2, de 2024")).
Proof. vm_compute. reflexivity. Qed.

(** * Further properties of the code *)

(** ** Line reconstruction: the shape of the output *)

Lemma groupItems_cons i item items cur lastY :
  groupItems i (item :: items) cur lastY =
  if negb (lastY =? -1)%Z && (5 <? Z.abs (item_y item - lastY))%Z
  then flushLine i cur lastY ++ groupItems i items (item_text item ++ [SP]) (item_y item)
  else groupItems i items (cur ++ item_text item ++ [SP]) (item_y item).
Proof. reflexivity. Qed.

Lemma groupItems_nil i cur lastY : groupItems i [] cur lastY = flushLine i cur lastY.
Proof. reflexivity. Qed.

Lemma trimEnd_nil_iff s : trimEnd s = [] <-> forallb isSpace s = true.
Proof.
  destruct s as [|c s']; [split; reflexivity|]. cbn [trimEnd].
  destruct (forallb isSpace (c :: s')); split; congruence.
Qed.

Lemma trim_nonempty_head s c t : trim s = c :: t -> isSpace c = false.
Proof.
  unfold trim, trimStart. intros H.
  pose proof (head_space_skip s) as Hh.
  destruct (skip isSpace s) as [|d r] eqn:E; [discriminate|].
  cbn [trimEnd] in H. destruct (forallb isSpace (d :: r)); [discriminate|].
  injection H as <- _. exact Hh.
Qed.

Lemma flushLine_shape i cur lastY :
  Forall (fun l => line_text l <> [] /\ trim (line_text l) = line_text l /\
                   isBold l = false /\ page l = i /\ line_y l = lastY)
         (flushLine i cur lastY).
Proof.
  unfold flushLine. destruct (trim cur) as [|c t] eqn:E; constructor; [|constructor].
  cbn [line_text isBold page line_y]. split; [discriminate|].
  split; [rewrite <- E; apply trim_fixed | auto].
Qed.

Lemma flushLine_length i cur lastY :
  length (flushLine i cur lastY) <= (if bool_decide (visible cur = []) then 0 else 1).
Proof.
  unfold flushLine. destruct (trim cur) as [|c t] eqn:E; [simpl; lia|].
  destruct (bool_decide (visible cur = [])) eqn:B; [|simpl; lia]. exfalso.
  apply bool_decide_eq_true in B. pose proof (trim_nonempty_head _ _ _ E) as Hc.
  assert (Hin : c ∈ cur).
  { unfold trim, trimStart in E. apply (skip_elem isSpace), trimEnd_elem. rewrite E. left. }
  assert (Hv : c ∈ visible cur).
  { unfold visible. apply list_elem_of_In, filter_In. split; [apply list_elem_of_In, Hin|].
    rewrite Hc. reflexivity. }
  rewrite B in Hv. apply elem_of_nil in Hv. exact Hv.
Qed.

Lemma flushLine_shape_at (P : Z -> Prop) i cur lastY :
  (visible cur <> [] -> P lastY) ->
  Forall (fun l => line_text l <> [] /\ trim (line_text l) = line_text l /\
                   isBold l = false /\ page l = i /\ P (line_y l))
         (flushLine i cur lastY).
Proof.
  intros Hcur. pose proof (flushLine_length i cur lastY) as Hlen.
  destruct (bool_decide (visible cur = [])) eqn:B.
  - destruct (flushLine i cur lastY); [constructor | simpl in Hlen; lia].
  - apply bool_decide_eq_false in B. eapply Forall_impl; [apply flushLine_shape|].
    intros l (H1 & H2 & H3 & H4 & H5). repeat (split; [assumption|]).
    rewrite H5. apply Hcur, B.
Qed.

Lemma groupItems_shape (P : Z -> Prop) i items cur lastY :
  (visible cur <> [] -> P lastY) ->
  (forall it, it ∈ items -> P (item_y it)) ->
  Forall (fun l => line_text l <> [] /\ trim (line_text l) = line_text l /\
                   isBold l = false /\ page l = i /\ P (line_y l))
         (groupItems i items cur lastY).
Proof.
  revert cur lastY. induction items as [|item items IH]; intros cur lastY Hcur Hitems.
  - rewrite groupItems_nil. apply flushLine_shape_at, Hcur.
  - rewrite groupItems_cons.
    assert (Hnext : forall cur', Forall (fun l => line_text l <> [] /\
                trim (line_text l) = line_text l /\ isBold l = false /\ page l = i /\
                P (line_y l)) (groupItems i items cur' (item_y item))).
    { intros cur'. apply IH; [intros _; apply Hitems; left|].
      intros it Hit. apply Hitems. right. exact Hit. }
    destruct (_ && _); [|apply Hnext]. apply Forall_app. split; [|apply Hnext].
    apply flushLine_shape_at, Hcur.
Qed.

Lemma pageLines_shape i items :
  Forall (fun l => line_text l <> [] /\ trim (line_text l) = line_text l /\
                   isBold l = false /\ page l = i /\
                   exists it, it ∈ items /\ line_y l = item_y it)
         (pageLines i items).
Proof.
  unfold pageLines.
  apply (groupItems_shape (fun y => exists it, it ∈ items /\ y = item_y it)).
  - intros H. exfalso. apply H. reflexivity.
  - intros it Hit. exists it. split; [|reflexivity]. rewrite <- (sortItems_perm items). exact Hit.
Qed.

Lemma pagesFrom_shape i pages :
  Forall (fun l => line_text l <> [] /\ trim (line_text l) = line_text l /\
                   isBold l = false /\
                   exists k items, page l = i + k /\ pages !! k = Some items /\
                     exists it, it ∈ items /\ line_y l = item_y it)
         (pagesFrom i pages).
Proof.
  revert i. induction pages as [|items pages IH]; intros i; [constructor|].
  cbn [pagesFrom]. apply Forall_app. split.
  - eapply Forall_impl; [apply pageLines_shape|].
    intros l (H1 & H2 & H3 & H4 & H5). repeat (split; [assumption|]).
    exists 0, items. split; [lia|]. split; [reflexivity | exact H5].
  - eapply Forall_impl; [apply (IH (S i))|].
    intros l (H1 & H2 & H3 & k & its & Hp & Hk & H5). repeat (split; [assumption|]).
    exists (S k), its. split; [lia|]. split; [exact Hk | exact H5].
Qed.

(** X1: every reconstructed line has a text that is not empty and has no
    whitespace at its ends, is not bold, lies on a page of the document,
    and carries the Y of one of that page's items. *)
Theorem extractTextFromPdf_lines_well_formed (pages : list (list PageItem)) :
  Forall (fun l => line_text l <> [] /\ trim (line_text l) = line_text l /\
                   isBold l = false /\ 1 <= page l <= length pages /\
                   exists items it, pages !! (page l - 1) = Some items /\
                                    it ∈ items /\ line_y l = item_y it)
         (extractTextFromPdf pages).
Proof.
  unfold extractTextFromPdf. eapply Forall_impl; [apply pagesFrom_shape|].
  intros l (H1 & H2 & H3 & k & items & Hp & Hk & it & Hit & Hy).
  repeat (split; [assumption|]). pose proof (lookup_lt_Some _ _ _ Hk). split; [lia|].
  exists items, it. replace (page l - 1) with k by lia. auto.
Qed.

(** X2: the lines come out page by page: their page numbers never
    decrease. *)
Theorem extractTextFromPdf_in_page_order (pages : list (list PageItem)) :
  StronglySorted le (map page (extractTextFromPdf pages)).
Proof.
  unfold extractTextFromPdf. generalize 1.
  induction pages as [|items pages IH]; intros i; [constructor|].
  cbn [pagesFrom]. rewrite map_app. apply StronglySorted_app_2; [| |apply IH].
  - intros x1 x2 H1 H2. apply list_elem_of_fmap in H1 as (l1 & -> & H1).
    apply list_elem_of_fmap in H2 as (l2 & -> & H2).
    pose proof (pageLines_shape i items) as Ha. rewrite Forall_forall in Ha.
    destruct (Ha l1 H1) as (_ & _ & _ & -> & _).
    pose proof (pagesFrom_shape (S i) pages) as Hb. rewrite Forall_forall in Hb.
    destruct (Hb l2 H2) as (_ & _ & _ & k & _ & -> & _). lia.
  - assert (Ha : Forall (fun l => page l = i) (pageLines i items)).
    { eapply Forall_impl; [apply pageLines_shape|]. intros l H. apply H. }
    induction Ha as [|l ls Hl Hls IHa]; [constructor|].
    cbn [map]. constructor; [exact IHa|].
    apply Forall_forall. intros x Hx.
    apply list_elem_of_fmap in Hx as (l' & -> & Hl').
    rewrite Forall_forall in Hls. rewrite Hl, (Hls l' Hl'). lia.
Qed.

(** ** Line reconstruction: nothing lost, nothing invented *)

Lemma visible_app s t : visible (s ++ t) = visible s ++ visible t.
Proof. apply List.filter_app. Qed.


Lemma visible_nil_iff s : visible s = [] <-> forallb isSpace s = true.
Proof.
  induction s as [|c s IH]; [split; reflexivity|]. cbn [visible List.filter forallb].
  destruct (isSpace c); cbn [negb andb]; [exact IH|]. split; discriminate.
Qed.






Lemma visibleItems_cons it items :
  length (visibleItems (it :: items)) =
  (if bool_decide (visible (item_text it) = []) then 0 else 1) + length (visibleItems items).
Proof.
  unfold visibleItems. cbn [List.filter].
  destruct (forallb isSpace (item_text it)) eqn:E; cbn [negb].
  - rewrite bool_decide_eq_true_2 by (apply visible_nil_iff, E). reflexivity.
  - rewrite bool_decide_eq_false_2; [reflexivity|].
    intros H. apply visible_nil_iff in H. congruence.
Qed.

Lemma groupItems_length i items cur lastY :
  length (groupItems i items cur lastY) <=
  (if bool_decide (visible cur = []) then 0 else 1) + length (visibleItems items).
Proof.
  revert cur lastY. induction items as [|item items IH]; intros cur lastY.
  - rewrite groupItems_nil. pose proof (flushLine_length i cur lastY). simpl. lia.
  - rewrite groupItems_cons, visibleItems_cons.
    assert (Hsp : forall s, visible (s ++ [SP]) = visible s).
    { intros s. rewrite visible_app. apply app_nil_r. }
    destruct (_ && _).
    + rewrite length_app. pose proof (flushLine_length i cur lastY).
      pose proof (IH (item_text item ++ [SP]) (item_y item)) as H1.
      rewrite Hsp in H1. lia.
    + pose proof (IH ((cur ++ item_text item) ++ [SP]) (item_y item)) as H1.
      rewrite Hsp, visible_app in H1.
      assert (Hor : visible cur ++ visible (item_text item) = [] <->
                    visible cur = [] /\ visible (item_text item) = []).
      { split; [apply app_eq_nil | intros [-> ->]; reflexivity]. }
      rewrite (app_assoc cur). repeat case_bool_decide; tauto || lia.
Qed.

Lemma visibleItems_perm items items' :
  items ≡ₚ items' -> length (visibleItems items) = length (visibleItems items').
Proof.
  intros H. induction H as [|x l l' _ IH|x y l|l l' l'' _ IH1 _ IH2].
  - reflexivity.
  - rewrite !visibleItems_cons, IH. reflexivity.
  - rewrite !visibleItems_cons. lia.
  - congruence.
Qed.

(** X4: there are at most as many lines as items that show a character
    other than whitespace; pages and items that show nothing give no line. *)
Theorem extractTextFromPdf_line_count (pages : list (list PageItem)) :
  length (extractTextFromPdf pages) <= length (visibleItems (concat pages)).
Proof.
  unfold extractTextFromPdf. generalize 1.
  induction pages as [|items pages IH]; intros i; [simpl; lia|].
  cbn [pagesFrom concat]. rewrite length_app. unfold visibleItems at 1.
  rewrite List.filter_app, length_app. fold (visibleItems items). fold (visibleItems (concat pages)).
  specialize (IH (S i)). unfold pageLines.
  pose proof (groupItems_length i (sortItems items) [] (-1)) as H.
  rewrite (visibleItems_perm _ _ (sortItems_perm items)) in H.
  rewrite bool_decide_eq_true_2 in H by reflexivity. lia.
Qed.

Lemma groupItems_onLaterPage k i items cur lastY :
  groupItems (k + i) items cur lastY = map (onLaterPage k) (groupItems i items cur lastY).
Proof.
  revert cur lastY. induction items as [|item items IH]; intros cur lastY.
  - rewrite !groupItems_nil. unfold flushLine. destruct (trim cur); reflexivity.
  - rewrite !groupItems_cons. destruct (_ && _); [|apply IH].
    rewrite map_app, IH. f_equal. unfold flushLine. destruct (trim cur); reflexivity.
Qed.

Lemma pagesFrom_onLaterPage k i pages :
  pagesFrom (k + i) pages = map (onLaterPage k) (pagesFrom i pages).
Proof.
  revert i. induction pages as [|items pages IH]; intros i; [reflexivity|].
  cbn [pagesFrom]. rewrite map_app. unfold pageLines. rewrite groupItems_onLaterPage.
  f_equal. replace (S (k + i)) with (k + S i) by lia. apply IH.
Qed.

Lemma pagesFrom_app i ps qs :
  pagesFrom i (ps ++ qs) = pagesFrom i ps ++ pagesFrom (length ps + i) qs.
Proof.
  revert i. induction ps as [|items ps IH]; intros i; [reflexivity|].
  cbn [app pagesFrom length]. rewrite IH, <- app_assoc. do 3 f_equal. lia.
Qed.

(** X5: pages are processed one by one, no state passes from a page to the
    next: the lines of a document made of two parts are the lines of the
    first part followed by those of the second, renumbered. *)
Theorem extractTextFromPdf_app (ps qs : list (list PageItem)) :
  extractTextFromPdf (ps ++ qs) =
  extractTextFromPdf ps ++ map (onLaterPage (length ps)) (extractTextFromPdf qs).
Proof.
  unfold extractTextFromPdf. rewrite pagesFrom_app, pagesFrom_onLaterPage. reflexivity.
Qed.

(** ** Text normaliser: what it keeps and what its output looks like *)

Lemma greedy_cls_inv p i s cs k z :
  greedy_cls p i s cs k = Some z ->
  exists pre s', s = pre ++ s' /\ forallb p pre = true /\
                 k (MState (i + length pre) s' cs) = Some z.
Proof.
  revert i. induction s as [|c s' IH]; intros i; cbn [greedy_cls].
  - intros H. exists [], []. rewrite Nat.add_0_r. auto.
  - destruct (p c) eqn:Hc.
    + destruct (greedy_cls p (S i) s' cs k) as [z'|] eqn:E.
      * intros [= <-]. apply IH in E as (pre & s2 & -> & Hp & Hk).
        exists (c :: pre), s2. cbn [forallb length app]. rewrite Hc, Hp.
        replace (i + S (length pre)) with (S i + length pre) by lia. auto.
      * intros H. exists [], (c :: s'). rewrite Nat.add_0_r. auto.
    + intros H. exists [], (c :: s'). rewrite Nat.add_0_r. auto.
Qed.

Lemma m_star_cls_inv p x k z :
  m (Star true (Cls p)) x k = Some z ->
  exists pre s', rest x = pre ++ s' /\ forallb p pre = true /\
                 k (MState (pos x + length pre) s' (caps x)) = Some z.
Proof. rewrite m_star_cls'. apply greedy_cls_inv. Qed.

Lemma m_plus_cls_inv p x k z :
  m (Plus (Cls p)) x k = Some z ->
  exists pre s', rest x = pre ++ s' /\ pre <> [] /\ forallb p pre = true /\
                 k (MState (pos x + length pre) s' (caps x)) = Some z.
Proof.
  unfold Plus. rewrite m_seq. intros E. apply m_cls_step in E as (c & s1 & Hr & Hc & E).
  rewrite m_star_cls' in E. unfold advance in E. cbn [pos rest caps] in E.
  apply greedy_cls_inv in E as (pre & s2 & -> & Hp & E).
  exists (c :: pre), s2. cbn [forallb length app]. rewrite Hc, Hp, Hr.
  replace (pos x + S (length pre)) with (S (pos x) + length pre) by lia.
  repeat split; auto.
Qed.

Lemma ink_app s t : ink (s ++ t) = ink s ++ ink t.
Proof. apply List.filter_app. Qed.

Lemma ink_cons_space c s : isSpace c = true -> ink (c :: s) = ink s.
Proof. intros H. unfold ink. cbn [List.filter]. rewrite H. reflexivity. Qed.

Lemma ink_cons c s : ink (c :: s) = ink [c] ++ ink s.
Proof. apply (ink_app [c] s). Qed.

Lemma ink_spaces s : forallb isSpace s = true -> ink s = [].
Proof.
  induction s as [|c s IH]; [reflexivity|]. cbn [forallb]. intros [Hc Hs]%andb_true_iff.
  rewrite ink_cons_space by exact Hc. apply IH, Hs.
Qed.

Lemma ink_skip s : ink (skip isSpace s) = ink s.
Proof.
  induction s as [|c s IH]; [reflexivity|]. cbn [skip].
  destruct (isSpace c) eqn:E; [|reflexivity]. rewrite IH, ink_cons_space by exact E. reflexivity.
Qed.

Lemma ink_trimEnd s : ink (trimEnd s) = ink s.
Proof.
  induction s as [|c s IH]; [reflexivity|]. cbn [trimEnd].
  destruct (forallb isSpace (c :: s)) eqn:E; [symmetry; apply ink_spaces, E|].
  rewrite (ink_cons c), (ink_cons c s), IH. reflexivity.
Qed.

Lemma ink_trim s : ink (trim s) = ink s.
Proof. unfold trim, trimStart. rewrite ink_trimEnd. apply ink_skip. Qed.

Lemma ink_coll b s : ink (coll b s) = ink s.
Proof.
  revert b. induction s as [|c s IH]; intros b; [reflexivity|]. cbn [coll].
  destruct (isSpace c) eqn:E.
  - rewrite (ink_cons_space c) by exact E.
    destruct b; [apply IH|]. destruct (head_in isSpace s).
    + rewrite ink_cons_space by apply SP_space. apply IH.
    + rewrite ink_cons_space by exact E. apply IH.
  - rewrite (ink_cons c), (ink_cons c s), IH. reflexivity.
Qed.

Lemma ink_unwrap s : ink (unwrap_spec s) = ink s.
Proof.
  induction s as [|c s IH]; [reflexivity|]. cbn [unwrap_spec].
  destruct (N.eqb_spec c NL) as [->|Hc]; cbn [andb].
  - rewrite (ink_cons_space NL s) by apply NL_space.
    destruct (negb (enum_ahead s)).
    + rewrite ink_cons_space by apply SP_space. exact IH.
    + rewrite ink_cons_space by apply NL_space. exact IH.
  - rewrite (ink_cons c), (ink_cons c s), IH. reflexivity.
Qed.

(** A global replacement keeps what each single match keeps. *)
Lemma replace_go_ink p tmpl fuel i s :
  (forall j s' y, match_at p j s' = Some y ->
     ink (tmpl (caps y)) ++ ink (rest y) = ink s') ->
  ink (replace_go p tmpl fuel i s) = ink s.
Proof.
  intros Hm. revert i s. induction fuel as [|f IH]; intros i s; [reflexivity|].
  cbn [replace_go]. destruct (match_at p i s) as [y|] eqn:E.
  - pose proof (Hm _ _ _ E) as Hy. pose proof (match_at_inv _ _ _ _ E) as [Hsuf Hpos].
    destruct (Nat.eqb_spec (pos y) i) as [Heq|Hne].
    + assert (Hr : rest y = s).
      { destruct Hsuf as [l Hl]. assert (length l = 0) as Hl0.
        { apply (f_equal length) in Hl. rewrite length_app in Hl. lia. }
        destruct l; [exact (eq_sym Hl) | discriminate]. }
      rewrite Hr in Hy. destruct s as [|c s'].
      * rewrite app_nil_r in Hy. exact Hy.
      * rewrite ink_app, (ink_cons c (replace_go _ _ _ _ _)), IH, <- ink_cons. exact Hy.
    + rewrite ink_app, IH. exact Hy.
  - destruct s as [|c s']; [reflexivity|].
    rewrite (ink_cons c (replace_go _ _ _ _ _)), IH, <- ink_cons. reflexivity.
Qed.

Lemma ink_hyphen s : ink (HYPHEN :: s) = ink s.
Proof. reflexivity. Qed.

Lemma spaced_hyphen_match_ink i s y :
  match_at re_spaced_hyphen i s = Some y ->
  ink (join_groups (caps y)) ++ ink (rest y) = ink s.
Proof.
  unfold match_at, re_spaced_hyphen. cbn [pat_re pat_ncaps Seqs].
  destruct (m _ _ Some) as [z|] eqn:E; [|discriminate]. intros [= <-]. cbn [caps rest].
  rewrite m_seq, m_group in E.
  apply m_cls_step in E as (c & s1 & Hs & _ & E). cbn [rest] in Hs. subst s.
  rewrite m_seq in E. apply m_plus_cls_inv in E as (w1 & s2 & Hr1 & _ & Hw1 & E).
  unfold set_cap, advance in Hr1, E. cbn [pos rest caps] in Hr1, E. subst s1.
  rewrite m_seq in E. apply m_cls_step in E as (h & s3 & Hr2 & Hh & E).
  cbn [rest] in Hr2. subst s2. apply N.eqb_eq in Hh. subst h.
  rewrite m_seq in E. apply m_plus_cls_inv in E as (w2 & s4 & Hr3 & _ & Hw2 & E).
  unfold advance in Hr3, E. cbn [pos rest caps] in Hr3, E. subst s3.
  rewrite m_group in E. apply m_cls_step in E as (c2 & s5 & Hr4 & _ & E).
  cbn [rest] in Hr4. subst s4. injection E as <-.
  unfold set_cap, advance. cbn [pos rest caps].
  match goal with |- context [take (S ?a - ?a) (c2 :: s5)] =>
    replace (S a - a) with 1 by lia end.
  replace (S i - i) with 1 by lia.
  change (join_groups _) with [c; c2].
  rewrite (ink_cons c (w1 ++ _)), !ink_app, (ink_spaces w1), ink_hyphen, ink_app,
    (ink_spaces w2), (ink_cons c [c2]), (ink_cons c2 s5) by assumption.
  cbn [app]. rewrite <- app_assoc. reflexivity.
Qed.

Lemma line_break_space c : oneof [13; 10]%N c = true -> isSpace c = true.
Proof.
  unfold oneof. cbn [existsb]. rewrite !orb_true_iff, !N.eqb_eq.
  intros [->|[->|H]]; [reflexivity | reflexivity | discriminate].
Qed.

Lemma wrap_hyphen_match_ink i s y :
  match_at re_wrap_hyphen i s = Some y ->
  ink (join_groups (caps y)) ++ ink (rest y) = ink s.
Proof.
  unfold match_at, re_wrap_hyphen. cbn [pat_re pat_ncaps Seqs].
  destruct (m _ _ Some) as [z|] eqn:E; [|discriminate]. intros [= <-]. cbn [caps rest].
  rewrite m_seq, m_group in E.
  apply m_cls_step in E as (c & s1 & Hs & _ & E). cbn [rest] in Hs. subst s.
  rewrite m_seq in E. apply m_cls_step in E as (h & s2 & Hr1 & Hh & E).
  unfold set_cap, advance in Hr1, E. cbn [pos rest caps] in Hr1, E. subst s1.
  apply N.eqb_eq in Hh. subst h.
  rewrite m_seq in E. apply m_star_cls_inv in E as (w1 & s3 & Hr2 & Hw1 & E).
  cbn [pos rest caps] in Hr2, E. subst s2.
  rewrite m_seq in E. apply m_plus_cls_inv in E as (nl & s4 & Hr3 & _ & Hnl & E).
  cbn [pos rest caps] in Hr3, E. subst s3.
  rewrite m_seq in E. apply m_star_cls_inv in E as (w2 & s5 & Hr4 & Hw2 & E).
  cbn [pos rest caps] in Hr4, E. subst s4.
  rewrite m_group in E. apply m_cls_step in E as (c2 & s6 & Hr5 & _ & E).
  cbn [rest] in Hr5. subst s5. injection E as <-.
  unfold set_cap, advance. cbn [pos rest caps].
  match goal with |- context [take (S ?a - ?a) (c2 :: s6)] =>
    replace (S a - a) with 1 by lia end.
  replace (S i - i) with 1 by lia.
  change (join_groups _) with [c; c2].
  assert (Hnl' : forallb isSpace nl = true).
  { apply forallb_forall. intros x Hx. apply line_break_space.
    rewrite forallb_forall in Hnl. apply Hnl, Hx. }
  rewrite (ink_cons c (HYPHEN :: _)), ink_hyphen, !ink_app, (ink_spaces w1), (ink_spaces nl),
    (ink_spaces w2), (ink_cons c [c2]), (ink_cons c2 s6) by assumption.
  cbn [app]. rewrite <- app_assoc. reflexivity.
Qed.

(** X6: the normaliser changes nothing but whitespace and hyphens: the
    other characters of a text come out unchanged and in their order. *)
Theorem normalizeText_keeps_ink (s : jsstring) : ink (normalizeText s) = ink s.
Proof.
  destruct s as [|c s']; [reflexivity|]. rewrite normalizeText_unfold.
  rewrite ink_trim, collapseSpaces_spec, ink_coll, unwrapNewlines_spec, ink_unwrap.
  unfold joinWrapHyphen, joinSpacedHyphen, replace_all.
  rewrite (replace_go_ink _ _ _ _ _ wrap_hyphen_match_ink).
  apply (replace_go_ink _ _ _ _ _ spaced_hyphen_match_ink).
Qed.

(** X7: whatever the input, a normalised text has no whitespace at either
    end, no two whitespace characters in a row, and no newline left but in
    front of an enumeration marker. *)
Theorem normalizeText_normal_form (s : jsstring) :
  trim (normalizeText s) = normalizeText s /\
  NoAdj (normalizeText s) /\
  NLok (normalizeText s).
Proof.
  destruct s as [|c s']; [repeat split|]. rewrite normalizeText_unfold.
  rewrite unwrapNewlines_spec, collapseSpaces_spec.
  split; [apply trim_fixed|]. unfold trim, trimStart. split.
  - apply NoAdj_trimEnd, NoAdj_skip, NoAdj_coll.
  - apply NLok_trimEnd, NLok_skip, NLok_coll, NLok_unwrap.
Qed.

(** X8: normalising never makes a text longer. *)
Theorem normalizeText_length (s : jsstring) : length (normalizeText s) <= length s.
Proof.
  destruct s as [|c s']; [reflexivity|]. rewrite normalizeText_unfold.
  set (t := c :: s').
  etrans; [apply trim_length|]. rewrite collapseSpaces_spec. etrans; [apply coll_length|].
  rewrite unwrapNewlines_spec, unwrap_spec_length.
  etrans; [apply (replace_go_length _ _ _ _ _ wrap_hyphen_match_shrinks)|].
  apply (replace_go_length _ _ _ _ _ spaced_hyphen_match_shrinks).
Qed.

(** ** Metadata: which lines decide *)

Lemma scanLines_take n i lines st k :
  i + n <= k -> scanLines n i (take k lines) st = scanLines n i lines st.
Proof.
  revert i st. induction n as [|n IH]; intros i st Hk; [reflexivity|].
  cbn [scanLines]. rewrite lookup_take_lt by lia.
  destruct (lines !! i) as [line|]; [|reflexivity].
  destruct (re_match headerLineRegex _); [reflexivity|]. apply IH. lia.
Qed.

(** X9: only the first ten lines are looked at: the metadata of a document
    are those of its first ten lines. *)
Theorem extractGlobalMetadata_window
    (h : Host) (lines : list TextLine) (file : DownloadedFile) :
  extractGlobalMetadata h lines file = extractGlobalMetadata h (take 10 lines) file.
Proof.
  unfold extractGlobalMetadata. rewrite length_take.
  replace (Nat.min (Nat.min 10 (length lines)) 10) with (Nat.min (length lines) 10) by lia.
  rewrite scanLines_take by lia. reflexivity.
Qed.

Lemma re_test_match p s : re_test p s = true <-> exists cs, re_match p s = Some cs.
Proof.
  unfold re_test, re_match. rewrite bool_decide_eq_true.
  destruct (search_from p 0 s) as [y|]; cbn [fmap option_fmap option_map].
  - split; [eauto | intros _; eexists; reflexivity].
  - split; [intros [? [=]] | intros [? [=]]].
Qed.

Lemma re_test_no_match p s : re_test p s = false <-> re_match p s = None.
Proof.
  unfold re_test, re_match. rewrite bool_decide_eq_false.
  destruct (search_from p 0 s) as [y|]; cbn [fmap option_fmap option_map].
  - split; [intros H; exfalso; apply H; eexists; reflexivity | discriminate].
  - split; [reflexivity | intros _ [? [=]]].
Qed.

(** The scan stops at the first line that matches the header pattern, and
    its result is read off that line alone. *)
Lemma scanLines_header n i lines st j hl cs :
  i <= j < i + n ->
  lines !! j = Some hl ->
  (forall j' l, i <= j' < j -> lines !! j' = Some l ->
     re_match headerLineRegex (trim (line_text l)) = None) ->
  re_match headerLineRegex (trim (line_text hl)) = Some cs ->
  scanLines n i lines st =
  match group 1 cs with
  | None => Thrown
  | Some g => Returned (mkScan (Some (trim g)) (group 3 cs) (group 2 cs))
  end.
Proof.
  revert i st. induction n as [|n IH]; intros i st Hj Hl Hpre Hhl; [lia|].
  cbn [scanLines]. destruct (decide (i = j)) as [->|Hne].
  - rewrite Hl, Hhl. reflexivity.
  - destruct (lines !! i) as [line|] eqn:El.
    2:{ apply lookup_ge_None in El. apply lookup_lt_Some in Hl. lia. }
    rewrite (Hpre i line) by (lia || exact El).
    apply IH; [lia | exact Hl | | exact Hhl].
    intros j' l Hj'. apply Hpre. lia.
Qed.

(** X10: the first line of the window that matches the header pattern
    decides alone: the lines before it, a date found in them included, and
    the lines after it have no influence on the metadata. *)
Theorem extractGlobalMetadata_header_line_decides
    (h : Host) (pre post : list TextLine) (hl : TextLine) (file : DownloadedFile) :
  length pre < 10 ->
  forallb (fun l => negb (re_test headerLineRegex (trim (line_text l)))) pre = true ->
  re_test headerLineRegex (trim (line_text hl)) = true ->
  extractGlobalMetadata h (pre ++ hl :: post) file = extractGlobalMetadata h [hl] file.
Proof.
  intros Hlen Hpre [cs Hcs]%re_test_match. unfold extractGlobalMetadata.
  rewrite (scanLines_header _ 0 (pre ++ hl :: post) _ (length pre) hl cs).
  - rewrite (scanLines_header _ 0 [hl] _ 0 hl cs); [reflexivity | simpl; lia | reflexivity | | exact Hcs].
    intros j' l Hj'. lia.
  - rewrite length_app. simpl. lia.
  - rewrite lookup_app_r by lia. rewrite Nat.sub_diag. reflexivity.
  - intros j' l Hj' Hl. rewrite lookup_app_l in Hl by lia.
    rewrite forallb_forall in Hpre. apply re_test_no_match, negb_true_iff, Hpre.
    apply list_elem_of_In, list_elem_of_lookup. eauto.
  - exact Hcs.
Qed.

Lemma extractGlobalMetadata_header_line_witness :
  extractGlobalMetadata sampleHost
    ([tl "2 de janeiro de 2023"] ++
     tl "15 de março de 2024 | n.º 11 | Vol. 91" :: [tl "8 de maio de 2022"]) file1 =
  extractGlobalMetadata sampleHost [tl "15 de março de 2024 | n.º 11 | Vol. 91"] file1.
Proof.
  apply (extractGlobalMetadata_header_line_decides sampleHost
           [tl "2 de janeiro de 2023"] [tl "8 de maio de 2022"]
           (tl "15 de março de 2024 | n.º 11 | Vol. 91") file1);
    [simpl; lia | vm_compute; reflexivity | vm_compute; reflexivity].
Defined.

(** A match of the date expression is never empty. *)
Lemma dateRegex_match_nonempty txt cs :
  re_match dateRegex txt = Some cs -> exists c t, group 0 cs = Some (c :: t).
Proof.
  unfold re_match. destruct (search_from dateRegex 0 txt) as [y|] eqn:E; [|discriminate].
  intros [= <-]. apply search_from_inv in E as (j & s' & E).
  unfold match_at in E. destruct (m _ _ Some) as [z|] eqn:Hm; [|discriminate].
  injection E as <-. cbn [caps].
  unfold dateRegex in Hm. cbn [pat_re pat_ncaps] in Hm.
  change (Seqs (Cls isDigit :: ?t)) with (Seq (Cls isDigit) (Seqs t)) in Hm.
  rewrite m_seq in Hm. apply m_cls_step in Hm as (c & s1 & Hr & _ & Hm).
  cbn [rest] in Hr. subst s'.
  apply m_reach in Hm as (y & (Hsuf & Hpos & Hlen & _) & Hy). injection Hy as ->.
  unfold advance in *. cbn [pos rest caps] in *. apply suffix_length in Hsuf.
  unfold group. rewrite list_lookup_insert_eq by (rewrite Hlen, length_replicate; lia).
  destruct (pos z - j) as [|k] eqn:Ek; [lia|]. cbn [take]. eauto.
Qed.

Lemma scanLines_date_known n i lines st :
  i + n <= length lines ->
  truthy (foundDateText st) = true ->
  (forall j l, i <= j < i + n -> lines !! j = Some l ->
     re_match headerLineRegex (trim (line_text l)) = None) ->
  scanLines n i lines st = Returned st.
Proof.
  revert i. induction n as [|n IH]; intros i Hlen Ht Hno; [reflexivity|].
  cbn [scanLines]. destruct (lines !! i) as [line|] eqn:El.
  2:{ apply lookup_ge_None in El. lia. }
  rewrite (Hno i line) by (lia || exact El). rewrite Ht. cbn [negb].
  apply IH; [lia | exact Ht |]. intros j l Hj. apply Hno. lia.
Qed.

Lemma scanLines_skip n i lines st j :
  i <= j <= i + n -> j <= length lines ->
  (forall j' l, i <= j' < j -> lines !! j' = Some l ->
     re_match headerLineRegex (trim (line_text l)) = None /\
     re_match dateRegex (trim (line_text l)) = None) ->
  scanLines n i lines st = scanLines (n - (j - i)) j lines st.
Proof.
  revert i st. induction n as [|n IH]; intros i st Hj Hlen Hno.
  - replace j with i by lia. reflexivity.
  - destruct (decide (i = j)) as [->|Hne].
    { rewrite Nat.sub_diag, Nat.sub_0_r. reflexivity. }
    cbn [scanLines]. destruct (lines !! i) as [line|] eqn:El.
    2:{ apply lookup_ge_None in El. lia. }
    destruct (Hno i line ltac:(lia) El) as [-> ->].
    replace (S n - (j - i)) with (n - (j - S i)) by lia.
    destruct (negb (truthy (foundDateText st))); apply IH; try lia;
      intros j' l Hj'; apply Hno; lia.
Qed.

(** X11: when no line of the window matches the header pattern, the first
    line with a date decides alone: later dates are not looked at. *)
Theorem extractGlobalMetadata_first_date_decides
    (h : Host) (pre post : list TextLine) (dl : TextLine) (file : DownloadedFile) :
  length pre < 10 ->
  forallb (fun l => negb (re_test headerLineRegex (trim (line_text l))))
          (take 10 (pre ++ dl :: post)) = true ->
  forallb (fun l => negb (re_test dateRegex (trim (line_text l)))) pre = true ->
  re_test dateRegex (trim (line_text dl)) = true ->
  extractGlobalMetadata h (pre ++ dl :: post) file = extractGlobalMetadata h [dl] file.
Proof.
  intros Hlen Hnh Hnd [cs Hcs]%re_test_match.
  set (lines := pre ++ dl :: post) in *.
  assert (Hhead : forall j l, j < Nat.min (length lines) 10 -> lines !! j = Some l ->
            re_match headerLineRegex (trim (line_text l)) = None).
  { intros j l Hj Hl. rewrite forallb_forall in Hnh.
    apply re_test_no_match, negb_true_iff, Hnh, list_elem_of_In, list_elem_of_lookup.
    exists j. rewrite lookup_take_lt by lia. exact Hl. }
  assert (Hdl : lines !! length pre = Some dl).
  { subst lines. rewrite lookup_app_r by lia. rewrite Nat.sub_diag. reflexivity. }
  assert (HL : length lines = length pre + S (length post)).
  { subst lines. rewrite length_app. reflexivity. }
  destruct (dateRegex_match_nonempty _ _ Hcs) as (c & t & Hg).
  unfold extractGlobalMetadata.
  set (st0 := mkScan (Some []) (Some []) (Some (number file))).
  assert (E1 : scanLines (Nat.min (length lines) 10) 0 lines st0 =
               Returned (mkScan (group 0 cs) (Some []) (Some (number file)))).
  { rewrite (scanLines_skip _ 0 lines st0 (length pre)); [|lia|lia|].
    2:{ intros j' l Hj' Hl. split; [apply (Hhead j'); [lia | exact Hl]|].
        subst lines. rewrite lookup_app_l in Hl by lia. rewrite forallb_forall in Hnd.
        apply re_test_no_match, negb_true_iff, Hnd, list_elem_of_In, list_elem_of_lookup.
        eauto. }
    destruct (Nat.min (length lines) 10 - (length pre - 0)) as [|n] eqn:En; [lia|].
    cbn [scanLines]. rewrite Hdl, (Hhead (length pre) dl) by (lia || exact Hdl).
    cbn [st0 foundDateText truthy negb foundVolume foundNumber]. rewrite Hcs.
    apply scanLines_date_known; [lia | cbn [foundDateText]; rewrite Hg; reflexivity |].
    intros j l Hj. apply Hhead. lia. }
  assert (E2 : scanLines (Nat.min (length [dl]) 10) 0 [dl] st0 =
               Returned (mkScan (group 0 cs) (Some []) (Some (number file)))).
  { cbn [length Nat.min scanLines lookup list_lookup].
    rewrite (Hhead (length pre) dl) by (lia || exact Hdl).
    cbn [st0 foundDateText truthy negb foundVolume foundNumber]. rewrite Hcs. reflexivity. }
  rewrite E1, E2. reflexivity.
Qed.

Lemma extractGlobalMetadata_first_date_witness :
  extractGlobalMetadata sampleHost
    ([tl "Propriedade do Ministério"] ++
     tl "Lisboa, 8 de Maio de 2022" :: [tl "2 de janeiro de 2023"]) file1 =
  extractGlobalMetadata sampleHost [tl "Lisboa, 8 de Maio de 2022"] file1.
Proof.
  apply (extractGlobalMetadata_first_date_decides sampleHost
           [tl "Propriedade do Ministério"] [tl "2 de janeiro de 2023"]
           (tl "Lisboa, 8 de Maio de 2022") file1);
    [simpl; lia | vm_compute; reflexivity | vm_compute; reflexivity | vm_compute; reflexivity].
Defined.

(** ** Tree builder: the tree keeps the order of the document *)

Lemma flat_map_ext_in {A B} (f g : A -> list B) (l : list A) :
  (forall a, a ∈ l -> f a = g a) -> flat_map f l = flat_map g l.
Proof.
  induction l as [|a l IH]; intros H; [reflexivity|]. cbn [flat_map].
  rewrite (H a) by left. rewrite IH; [reflexivity|]. intros b Hb. apply H. right. exact Hb.
Qed.

Lemma elem_of_flat_map {A B} (f : A -> list B) (l : list A) (b : B) :
  b ∈ flat_map f l <-> exists a, a ∈ l /\ b ∈ f a.
Proof.
  rewrite list_elem_of_In, in_flat_map. split; intros (a & Ha & Hb); exists a;
    rewrite ?list_elem_of_In in *; auto.
Qed.

Lemma storeOk_children hp id n c :
  storeOk hp -> hp !! id = Some n -> c ∈ h_children n -> id < c < length hp.
Proof.
  intros [_ Hall] Hid Hc. destruct (Hall id n Hid) as (_ & _ & Hch).
  rewrite Forall_forall in Hch. destruct (Hch c Hc) as (Hlt & cn & Hcn & _).
  apply lookup_lt_Some in Hcn. lia.
Qed.

Lemma preorder_fuel hp :
  storeOk hp ->
  forall f1 f2 id, length hp <= f1 + id -> length hp <= f2 + id ->
    preorder f1 hp id = preorder f2 hp id.
Proof.
  intros Hs. induction f1 as [|f1 IH]; intros f2 id H1 H2.
  - destruct f2 as [|f2]; [reflexivity|]. cbn [preorder].
    rewrite (proj2 (lookup_ge_None hp id)) by lia. reflexivity.
  - destruct f2 as [|f2].
    + cbn [preorder]. rewrite (proj2 (lookup_ge_None hp id)) by lia. reflexivity.
    + cbn [preorder]. destruct (hp !! id) as [n|] eqn:E; [|reflexivity]. f_equal.
      apply flat_map_ext_in. intros c Hc.
      pose proof (storeOk_children _ _ _ _ Hs E Hc). apply IH; lia.
Qed.

Lemma preorder_ge hp :
  storeOk hp -> forall f id x, x ∈ preorder f hp id -> id <= x.
Proof.
  intros Hs. induction f as [|f IH]; intros id x Hx; [apply elem_of_nil in Hx; contradiction|].
  cbn [preorder] in Hx. destruct (hp !! id) as [n|] eqn:E; [|apply elem_of_nil in Hx; contradiction].
  apply elem_of_cons in Hx as [->|Hx]; [lia|].
  apply elem_of_flat_map in Hx as (c & Hc & Hx).
  pose proof (storeOk_children _ _ _ _ Hs E Hc). apply IH in Hx. lia.
Qed.

(** Reading the tree visits the nodes in pre-order. *)
Lemma reify_preorder hp :
  storeOk hp ->
  forall f id, id < length hp -> length hp <= f + id ->
    map content (nodes (reify f hp id)) = map (contentAt hp) (preorder f hp id).
Proof.
  intros Hs. induction f as [|f IH]; intros id Hid Hf; [lia|].
  cbn [reify preorder]. destruct (hp !! id) as [n|] eqn:E.
  2:{ apply lookup_ge_None in E. lia. }
  cbn [nodes children map]. f_equal.
  - unfold content, contentAt. rewrite E. reflexivity.
  - assert (Hch : Forall (fun c => id < c < length hp) (h_children n)).
    { apply Forall_forall. intros c Hc. apply (storeOk_children _ _ _ _ Hs E Hc). }
    induction Hch as [|c cs Hc _ IHc]; [reflexivity|].
    cbn [map flat_map]. rewrite !map_app, IHc, IH by lia. reflexivity.
Qed.

(** A subtree that does not hold node [t] is not touched when [t] gets a
    new child. *)
Lemma preorder_unchanged hp g t x :
  storeOk hp ->
  forall f c, c < length hp -> t ∉ preorder f hp c ->
    preorder f (alter g t (hp ++ [x])) c = preorder f hp c.
Proof.
  intros Hs. induction f as [|f IH]; intros c Hc Ht; [reflexivity|].
  cbn [preorder] in *. destruct (hp !! c) as [n|] eqn:E.
  2:{ apply lookup_ge_None in E. lia. }
  apply not_elem_of_cons in Ht as [Hne Ht].
  rewrite list_lookup_alter_ne by exact Hne. rewrite lookup_app_l by exact Hc. rewrite E.
  f_equal. apply flat_map_ext_in. intros ch Hch.
  pose proof (storeOk_children _ _ _ _ Hs E Hch). apply IH; [lia|].
  intros Hin. apply Ht, elem_of_flat_map. eauto.
Qed.

Lemma preorder_same_children hp hp' :
  (forall id, h_children <$> hp' !! id = h_children <$> hp !! id) ->
  forall f id, preorder f hp' id = preorder f hp id.
Proof.
  intros Hch. induction f as [|f IH]; intros id; [reflexivity|]. cbn [preorder].
  specialize (Hch id). destruct (hp' !! id) as [n'|], (hp !! id) as [n|]; try discriminate.
  - injection Hch as ->. f_equal. apply flat_map_ext_in. intros c _. apply IH.
  - reflexivity.
Qed.

Lemma preorder_S f hp id :
  preorder (S f) hp id =
  match hp !! id with
  | Some n => id :: flat_map (preorder f hp) (h_children n)
  | None => []
  end.
Proof. reflexivity. Qed.

Lemma chain_cons hp c p rest :
  chain hp (c :: p :: rest) =
  ((p < c /\ exists n, hp !! p = Some n /\ last (h_children n) = Some c) /\
   chain hp (p :: rest)).
Proof. reflexivity. Qed.

Lemma chain_tail hp c below : chain hp (c :: below) -> chain hp below.
Proof. destruct below as [|p rest]; [intros; exact I|]. cbn [chain]. tauto. Qed.

Lemma spineOk_pop hp cur below : spineOk hp (cur :: below) -> spineOk hp below.
Proof.
  intros [Hc Hf]. split; [eapply chain_tail, Hc|]. apply Forall_cons_1 in Hf. tauto.
Qed.

Lemma popUntilType_spine hp types stack :
  spineOk hp stack -> spineOk hp (popUntilType hp types stack).
Proof.
  induction stack as [|cur below IH]; intros H; [exact H|].
  cbn [popUntilType]. destruct below as [|b below']; [exact H|].
  destruct (bool_decide _); [exact H|]. apply IH. eapply spineOk_pop, H.
Qed.

Lemma spineOk_root hp stack : stackOk hp stack -> spineOk hp stack -> spineOk hp [0].
Proof.
  intros [Hl _] [_ Hf]. split; [exact I|]. apply last_Some in Hl as [l' ->].
  apply Forall_app in Hf as [_ Hf]. exact Hf.
Qed.

Lemma chain_same_children hp hp' stack :
  (forall id, h_children <$> hp' !! id = h_children <$> hp !! id) ->
  chain hp stack -> chain hp' stack.
Proof.
  intros Hch. induction stack as [|c below IH]; [intros; exact I|].
  destruct below as [|p rest]; [intros; exact I|]. cbn [chain].
  intros [(Hlt & n & Hn & Hlast) Hrest]. split; [|apply IH, Hrest].
  split; [exact Hlt|]. specialize (Hch p). rewrite Hn in Hch.
  destruct (hp' !! p) as [n'|]; [|discriminate]. injection Hch as Hch.
  exists n'. rewrite Hch. auto.
Qed.

Lemma chain_keep hp g t x stack :
  Forall (fun s => s < length hp) stack ->
  (forall a, head stack = Some a -> a <= t) ->
  chain hp stack -> chain (alter g t (hp ++ [x])) stack.
Proof.
  induction stack as [|c below IH]; [intros; exact I|].
  destruct below as [|p rest]; [intros; exact I|]. cbn [chain].
  intros Hf Hhd [(Hlt & n & Hn & Hlast) Hrest].
  pose proof (Hhd c eq_refl) as Hct. apply Forall_cons_1 in Hf as [_ Hf].
  split.
  - split; [exact Hlt|]. exists n. split; [|exact Hlast].
    rewrite list_lookup_alter_ne by lia. rewrite lookup_app_l; [exact Hn|].
    apply lookup_lt_Some in Hn. exact Hn.
  - apply IH; [exact Hf | | exact Hrest]. intros a [= <-]. lia.
Qed.

(** A new child under the top of the stack comes last in the pre-order of
    every entry of the stack. *)
Lemma spine_push_claim hp stack x :
  storeOk hp -> stackOk hp stack -> spineOk hp stack -> h_children x = [] ->
  Forall (fun s => forall f, S (length hp) <= f + s ->
            preorder f (alter (pushChild (length hp)) (top stack) (hp ++ [x])) s =
            preorder f hp s ++ [length hp]) stack.
Proof.
  intros Hs Hk [Hchain Hpre] Hx.
  pose proof (stackOk_top _ _ Hk) as Htop. destruct Hk as [_ Hlt].
  set (n := length hp) in *. set (t := top stack) in *.
  set (hp' := alter (pushChild n) t (hp ++ [x])).
  assert (Hnew : forall f, preorder (S f) hp' n = [n]).
  { intros f. cbn [preorder]. unfold hp'. rewrite list_lookup_alter_ne by lia.
    rewrite lookup_app_r by (unfold n; lia). replace (n - length hp) with 0 by (unfold n; lia).
    cbn. rewrite Hx. reflexivity. }
  assert (Hbase : forall f, S n <= f + t -> preorder f hp' t = preorder f hp t ++ [n]).
  { intros f Hf. destruct f as [|[|f]]; [lia|lia|].
    rewrite (preorder_S (S f) hp' t), (preorder_S (S f) hp t).
    destruct (hp !! t) as [nt|] eqn:Et.
    2:{ apply lookup_ge_None in Et. unfold n in Htop. lia. }
    unfold hp' at 1. rewrite list_lookup_alter_eq, lookup_app_l, Et by exact Htop.
    cbn [fmap option_fmap option_map pushChild h_children].
    rewrite flat_map_app. cbn [flat_map]. rewrite Hnew, app_nil_r. cbn [app]. f_equal.
    f_equal. apply flat_map_ext_in. intros c Hc.
    pose proof (storeOk_children _ _ _ _ Hs Et Hc).
    apply preorder_unchanged; [exact Hs | lia |].
    intros Hin. apply (preorder_ge _ Hs) in Hin. lia. }
  destruct stack as [|t0 below]; [constructor|]. change t with t0 in *. clear t.
  assert (Hgen : forall a st, a <= t0 ->
            (forall f, S n <= f + a -> preorder f hp' a = preorder f hp a ++ [n]) ->
            chain hp (a :: st) ->
            Forall (fun s => preorder n hp s = seq s (n - s)) (a :: st) ->
            Forall (fun s => s < n) (a :: st) ->
            Forall (fun s => forall f, S n <= f + s ->
                      preorder f hp' s = preorder f hp s ++ [n]) (a :: st)).
  { intros a st. revert a. induction st as [|b st IH]; intros a Ha Hca Hch Hp Hl.
    { constructor; [exact Hca | constructor]. }
    constructor; [exact Hca|]. cbn [chain] in Hch.
    destruct Hch as [(Hba & nb & Hnb & Hlast) Hrest].
    apply Forall_cons_1 in Hp as [Hpa Hp]. pose proof Hp as Hp'.
    apply Forall_cons_1 in Hp' as [Hpb _].
    apply Forall_cons_1 in Hl as [Hla Hl].
    apply IH; [lia | | exact Hrest | exact Hp | exact Hl].
    intros f Hf. destruct f as [|f]; [lia|].
    apply last_Some in Hlast as [cs Hcs].
    rewrite (preorder_S f hp' b), (preorder_S f hp b).
    unfold hp' at 1. rewrite list_lookup_alter_ne by lia.
    rewrite lookup_app_l by (apply lookup_lt_Some in Hnb; exact Hnb). rewrite Hnb, Hcs.
    rewrite !flat_map_app. cbn [flat_map]. rewrite !app_nil_r.
    rewrite (Hca f) by lia. cbn [app]. rewrite <- app_assoc. f_equal. f_equal.
    apply flat_map_ext_in. intros c Hc.
    assert (Hcin : c ∈ h_children nb) by (rewrite Hcs; apply elem_of_app; left; exact Hc).
    pose proof (storeOk_children _ _ _ _ Hs Hnb Hcin).
    apply preorder_unchanged; [exact Hs | lia |]. intros Hin.
    (* the nodes under [c] come before [a] *)
    assert (Hb : preorder (S f) hp b = seq b (n - b)).
    { rewrite <- Hpb. apply preorder_fuel; [exact Hs | lia | lia]. }
    assert (Hfa : preorder f hp a = seq a (n - a)).
    { rewrite <- Hpa. apply preorder_fuel; [exact Hs | lia | lia]. }
    rewrite preorder_S, Hnb, Hcs, flat_map_app in Hb. cbn [flat_map] in Hb.
    rewrite app_nil_r, Hfa in Hb.
    replace (n - b) with ((a - b) + (n - a)) in Hb by lia.
    rewrite seq_app in Hb. replace (b + (a - b)) with a in Hb by lia.
    change (b :: flat_map (preorder f hp) cs ++ seq a (n - a)) with
      ((b :: flat_map (preorder f hp) cs) ++ seq a (n - a)) in Hb.
    apply app_inj_2 in Hb as [Hb _]; [|reflexivity].
    assert (Ht : t0 ∈ seq b (a - b)).
    { rewrite <- Hb. right. apply elem_of_flat_map. eauto. }
    apply elem_of_seq in Ht. lia. }
  apply Hgen; [lia | exact Hbase | exact Hchain | exact Hpre | exact Hlt].
Qed.

Lemma spine_push hp stack x :
  storeOk hp -> stackOk hp stack -> spineOk hp stack -> h_children x = [] ->
  spineOk (alter (pushChild (length hp)) (top stack) (hp ++ [x])) (length hp :: stack).
Proof.
  intros Hs Hk Hsp Hx. pose proof (spine_push_claim hp stack x Hs Hk Hsp Hx) as Hclaim.
  pose proof (stackOk_top _ _ Hk) as Htop. destruct Hsp as [Hchain Hpre].
  destruct Hk as [Hlast Hlt].
  set (n := length hp) in *. set (t := top stack) in *.
  set (hp' := alter (pushChild n) t (hp ++ [x])) in *.
  assert (Hlen : length hp' = S n).
  { unfold hp'. rewrite length_alter, length_app. cbn [length]. unfold n. lia. }
  split.
  - destruct stack as [|t0 below]; [discriminate|]. change t with t0 in *.
    rewrite chain_cons. split.
    + split; [exact Htop|]. destruct (hp !! t0) as [nt|] eqn:Et.
      2:{ apply lookup_ge_None in Et. unfold n in Htop. lia. }
      exists (pushChild n nt). split.
      * unfold hp'. rewrite list_lookup_alter_eq, lookup_app_l, Et by exact Htop. reflexivity.
      * cbn [pushChild h_children]. apply last_snoc.
    + apply chain_keep; [exact Hlt | | exact Hchain]. intros a [= <-]. lia.
  - rewrite Hlen. constructor.
    + cbn [preorder]. unfold hp'. rewrite list_lookup_alter_ne by lia.
      rewrite lookup_app_r by (unfold n; lia).
      replace (n - length hp) with 0 by (unfold n; lia). cbn. rewrite Hx.
      replace (S n - n) with 1 by lia. reflexivity.
    + rewrite Forall_forall in Hclaim, Hpre, Hlt. apply Forall_forall. intros s Hin.
      rewrite (Hclaim s Hin) by lia. pose proof (Hlt s Hin).
      rewrite (preorder_fuel hp Hs (S n) n s) by (unfold n; lia).
      rewrite (Hpre s Hin). replace (S n - s) with (S (n - s)) by lia.
      rewrite seq_S. replace (s + (n - s)) with n by lia. reflexivity.
Qed.

Lemma addChild_builderOk hp stack node :
  storeOk hp -> stackOk hp stack -> spineOk hp stack ->
  h_children node = [] ->
  storeOk (fst (addChild (hp, stack) node)) ->
  stackOk (fst (addChild (hp, stack) node)) (snd (addChild (hp, stack) node)) ->
  builderOk (addChild (hp, stack) node).
Proof.
  intros Hs Hk Hsp Hch Hs' Hk'. split; [exact Hs'|]. split; [exact Hk'|]. split.
  - apply spine_push; assumption.
  - cbn [addChild fst snd top hd]. rewrite length_alter, length_app. cbn [length]. lia.
Qed.

Lemma placeNode_builderOk hp stack ty headerText :
  builderOk (hp, stack) -> ty <> root ->
  builderOk (placeNode (hp, stack) (newNode ty headerText)).
Proof.
  intros (Hs & Hk & Hsp & _) Hty. cbn [fst snd] in *.
  pose proof (placeNode_ok hp stack ty headerText Hs Hk Hty) as [Hs' Hk'].
  unfold placeNode in *. cbn [newNode h_type] in *.
  destruct ty; [contradiction| | |].
  - apply addChild_builderOk; try assumption; try reflexivity.
    + apply stackOk_root, storeOk_length, Hs.
    + eapply spineOk_root; eassumption.
  - apply addChild_builderOk; try assumption; try reflexivity.
    + apply popUntilType_ok, Hk.
    + apply popUntilType_spine, Hsp.
  - apply addChild_builderOk; try assumption; try reflexivity.
    + apply popUntilType_ok, Hk.
    + apply popUntilType_spine, Hsp.
Qed.

Lemma addBody_builderOk text hp stack :
  builderOk (hp, stack) -> builderOk (addBody text (hp, stack)).
Proof.
  intros (Hs & Hk & Hsp & Htop). cbn [fst snd] in *.
  pose proof (addBody_ok text hp stack Hs Hk) as [Hs' Hk'].
  split; [exact Hs'|]. split; [exact Hk'|].
  cbn [addBody] in *. destruct (bool_decide (typeOf hp (top stack) = root)); cbn [fst snd].
  { split; assumption. }
  assert (Hch : forall id, h_children <$> alter (appendText text) (top stack) hp !! id =
                           h_children <$> hp !! id).
  { intros id. destruct (decide (top stack = id)) as [<-|Hne].
    - rewrite list_lookup_alter_eq. destruct (hp !! top stack); reflexivity.
    - rewrite list_lookup_alter_ne by exact Hne. reflexivity. }
  split; [|rewrite length_alter; exact Htop].
  destruct Hsp as [Hc Hf]. split; [eapply chain_same_children; eassumption|].
  rewrite length_alter. eapply Forall_impl; [exact Hf|]. cbv beta. intros s Hp.
  rewrite (preorder_same_children _ _ Hch). exact Hp.
Qed.

Lemma buildLoop_builderOk fuel lines b : builderOk b -> builderOk (buildLoop fuel lines b).
Proof.
  revert lines b. induction fuel as [|f IH]; intros lines [hp stack] Hb;
    cbn [buildLoop]; [exact Hb|].
  destruct lines as [|line following]; [exact Hb|]. cbv zeta.
  destruct (classify _) as [ty|] eqn:Ec.
  - destruct (if re_test re_strict_preambulo _ then _ else _) as [headerText following'].
    apply IH, placeNode_builderOk; [exact Hb | eapply classify_not_root, Ec].
  - apply IH, addBody_builderOk, Hb.
Qed.

Lemma initialBuilder_ok : builderOk ([rootNode], [0]).
Proof.
  split; [|split; [|split]]; cbn [fst snd].
  - split; [exists []; reflexivity|]. intros [|id] n H; [|discriminate].
    injection H as <-. cbn. split; [reflexivity|]. split; [discriminate | constructor].
  - apply stackOk_root. simpl. lia.
  - split; [exact I|]. constructor; [reflexivity | constructor].
  - reflexivity.
Qed.

Lemma map_contentAt_seq front l :
  map (contentAt (front ++ l)) (seq (length front) (length l)) = map hcontent l.
Proof.
  revert front. induction l as [|n l IH]; intros front; [reflexivity|].
  cbn [length seq map]. f_equal.
  - unfold contentAt. rewrite lookup_app_r by lia. rewrite Nat.sub_diag. reflexivity.
  - specialize (IH (front ++ [n])). rewrite <- app_assoc, length_app in IH.
    cbn [length app] in IH. rewrite Nat.add_1_r in IH. exact IH.
Qed.

(** The tree read from the top down, each node before its children, gives
    the nodes in the order in which the builder made them. *)
Lemma buildTree_creation_order lines :
  map content (nodes (buildTree lines)) = map hcontent (fst (buildStore lines)).
Proof.
  unfold buildTree. pose proof (buildLoop_builderOk (length lines) lines _ initialBuilder_ok)
    as (Hs & Hk & [_ Hf] & _).
  fold (buildStore lines) in *. set (hp := fst (buildStore lines)) in *.
  rewrite (reify_preorder hp Hs) by (pose proof (storeOk_length _ Hs); lia).
  destruct Hk as [Hl _]. apply last_Some in Hl as [l' Hl]. rewrite Hl in Hf.
  apply Forall_app in Hf as [_ Hf]. apply Forall_cons_1 in Hf as [H0 _].
  rewrite H0, Nat.sub_0_r. apply (map_contentAt_seq [] hp).
Qed.

Lemma map_hcontent_alter g i (l : store) :
  (forall n, hcontent (g n) = hcontent n) -> map hcontent (alter g i l) = map hcontent l.
Proof.
  intros Hg. revert i. induction l as [|n l IH]; intros i; [reflexivity|].
  destruct i as [|i]; cbn [alter list_alter map]; [rewrite Hg; reflexivity|].
  f_equal. apply IH.
Qed.

Lemma addChild_store hp stack node :
  stackOk hp stack ->
  exists front stack',
    addChild (hp, stack) node = (front ++ [node], stack') /\
    map hcontent front = map hcontent hp.
Proof.
  intros Hk. pose proof (stackOk_top _ _ Hk) as Htop. cbn [addChild].
  exists (alter (pushChild (length hp)) (top stack) hp), (length hp :: stack). split.
  - rewrite alter_app_l by exact Htop. reflexivity.
  - apply map_hcontent_alter. reflexivity.
Qed.

Lemma placeNode_store hp stack ty headerText :
  storeOk hp -> stackOk hp stack -> ty <> root ->
  exists front stack',
    placeNode (hp, stack) (newNode ty headerText) = (front ++ [newNode ty headerText], stack') /\
    map hcontent front = map hcontent hp.
Proof.
  intros Hs Hk Hty. unfold placeNode. cbn [newNode h_type].
  destruct ty; [contradiction| | |]; apply addChild_store.
  - apply stackOk_root, storeOk_length, Hs.
  - apply popUntilType_ok, Hk.
  - apply popUntilType_ok, Hk.
Qed.

Lemma entryBody_hcontent text n :
  entryBody text (hcontent n) =
  if bool_decide (h_type n = root) then hcontent n else hcontent (appendText text n).
Proof. reflexivity. Qed.

Lemma buildLoop_outline fuel lines front lastn stack :
  builderOk (front ++ [lastn], stack) ->
  map hcontent (fst (buildLoop fuel lines (front ++ [lastn], stack))) =
  map hcontent front ++ outlineLoop fuel lines (hcontent lastn).
Proof.
  revert lines front lastn stack.
  induction fuel as [|f IH]; intros lines front lastn stack Hb.
  { cbn [buildLoop outlineLoop fst]. rewrite map_app. reflexivity. }
  cbn [buildLoop outlineLoop]. destruct lines as [|line following].
  { cbn [fst]. rewrite map_app. reflexivity. }
  cbv zeta. destruct (classify _) as [ty|] eqn:Ec.
  - destruct (if re_test re_strict_preambulo _ then _ else _) as [headerText following'].
    pose proof (classify_not_root _ _ Ec) as Hty.
    pose proof (placeNode_builderOk _ _ ty headerText Hb Hty) as Hb'.
    destruct Hb as (Hs & Hk & _). cbn [fst snd] in Hs, Hk.
    destruct (placeNode_store _ _ ty headerText Hs Hk Hty) as (front' & stack' & Hp & Hm).
    rewrite Hp in *. rewrite (IH _ _ _ _ Hb'), Hm, map_app, <- app_assoc. reflexivity.
  - pose proof (addBody_builderOk (trim (line_text line)) _ _ Hb) as Hb'.
    destruct Hb as (_ & _ & _ & Htop). cbn [fst snd] in Htop.
    rewrite length_app in Htop. cbn [length] in Htop.
    assert (Ht : top stack = length front) by lia.
    cbn [addBody] in *. rewrite Ht in *.
    assert (Hty : typeOf (front ++ [lastn]) (length front) = h_type lastn).
    { unfold typeOf. rewrite lookup_app_r by lia. rewrite Nat.sub_diag. reflexivity. }
    rewrite Hty in *. rewrite entryBody_hcontent.
    destruct (bool_decide (h_type lastn = root)).
    + apply (IH _ _ _ _ Hb').
    + replace (length front) with (length front + 0) in Hb' |- * by lia.
      rewrite alter_app_r in Hb' |- *. cbn [alter list_alter] in Hb' |- *.
      apply (IH _ _ _ _ Hb').
Qed.

(** X12: read from the top down, each node before its children, the tree
    is the document in its order: the root, then every heading with its
    kind, its merged header and the text of the lines up to the next
    heading.  The tree drops no heading and moves none. *)
Theorem buildTree_outline (lines : list TextLine) :
  map content (nodes (buildTree lines)) = outline lines.
Proof.
  rewrite buildTree_creation_order. unfold buildStore, outline.
  apply (buildLoop_outline (length lines) lines [] rootNode [0] initialBuilder_ok).
Qed.

(** ** Tree builder: text in front of the first heading *)

Lemma buildLoop_leading fuel pre rest :
  Forall (fun l => classify (trim (line_text l)) = None) pre ->
  buildLoop (length pre + fuel) (pre ++ rest) initialBuilder = buildLoop fuel rest initialBuilder.
Proof.
  induction 1 as [|l pre Hl _ IH]; [reflexivity|].
  cbn [length Nat.add app buildLoop]. cbv zeta. rewrite Hl. exact IH.
Qed.

(** X13: the lines in front of the first heading are dropped: they leave
    no trace in the tree, and a document without a heading gives a root
    without children. *)
Theorem buildTree_drops_leading_text (pre rest : list TextLine) :
  Forall (fun l => classify (trim (line_text l)) = None) pre ->
  buildTree (pre ++ rest) = buildTree rest /\
  buildTree pre = Node root None None [].
Proof.
  intros Hpre.
  assert (H : forall rest', buildStore (pre ++ rest') = buildStore rest').
  { intros rest'. unfold buildStore. rewrite length_app.
    apply (buildLoop_leading (length rest') pre rest' Hpre). }
  split.
  - unfold buildTree. rewrite H. reflexivity.
  - unfold buildTree. rewrite <- (app_nil_r pre), H. reflexivity.
Qed.

Lemma buildTree_drops_leading_text_witness :
  buildTree ([tl "Entre a Associação e o Sindicato"; tl "foi acordado o seguinte."] ++
             [tl "Artigo 1.º"; tl "Âmbito"]) =
  buildTree [tl "Artigo 1.º"; tl "Âmbito"].
Proof.
  apply (buildTree_drops_leading_text
           [tl "Entre a Associação e o Sindicato"; tl "foi acordado o seguinte."]
           [tl "Artigo 1.º"; tl "Âmbito"]).
  repeat constructor; vm_compute; reflexivity.
Defined.

(** ** The stack ([popUntilType]) *)

(** X14: popping takes entries off the top of the stack, none of them of a
    kind asked for, and stops at the first entry of such a kind or at the
    last entry of the stack, which it never takes. *)
Theorem popUntilType_spec (hp : store) (types : list NodeType) (stack : list nat) :
  exists popped,
    stack = popped ++ popUntilType hp types stack /\
    Forall (fun id => typeOf hp id ∉ types) popped /\
    (stack <> [] -> popUntilType hp types stack <> []) /\
    (1 < length (popUntilType hp types stack) ->
     typeOf hp (top (popUntilType hp types stack)) ∈ types) /\
    last (popUntilType hp types stack) = last stack.
Proof.
  induction stack as [|cur below IH].
  { exists []. repeat split; try constructor; auto. cbn. lia. }
  cbn [popUntilType]. destruct below as [|b below'].
  { exists []. repeat split; try constructor; auto. cbn. lia. }
  destruct (bool_decide (typeOf hp cur ∈ types)) eqn:E.
  - exists []. apply bool_decide_eq_true in E. repeat split; try constructor; auto.
  - apply bool_decide_eq_false in E. destruct IH as (popped & Heq & Hf & Hne & Htop & Hlast).
    exists (cur :: popped). split; [cbn [app]; f_equal; exact Heq|].
    split; [constructor; assumption|]. split; [intros _; apply Hne; discriminate|].
    split; [exact Htop|]. rewrite Hlast. reflexivity.
Qed.

(** ** Tree builder: what a node holds *)

Lemma classify_not_title text ty : classify text = Some ty -> looksLikeTitle text = false.
Proof.
  unfold classify, looksLikeTitle.
  destruct (re_test re_diploma text); [intros _; rewrite !andb_false_r; reflexivity|].
  destruct (re_test re_structure text); [intros _; rewrite !andb_false_r; reflexivity|].
  destruct (re_test re_article text); [intros _; rewrite !andb_false_r; reflexivity|].
  discriminate.
Qed.

Lemma mergeHeader_app_heading headerText a hl rest :
  looksLikeTitle (trim (line_text hl)) = false ->
  mergeHeader headerText (a ++ hl :: rest) =
  (fst (mergeHeader headerText a), snd (mergeHeader headerText a) ++ hl :: rest).
Proof.
  intros Hhl. revert headerText. induction a as [|l a IH]; intros headerText.
  - cbn [app mergeHeader fst snd]. rewrite Hhl. reflexivity.
  - cbn [app mergeHeader]. destruct (looksLikeTitle (trim (line_text l))); [apply IH|].
    reflexivity.
Qed.

Lemma splitHeader_app_heading text a hl rest :
  looksLikeTitle (trim (line_text hl)) = false ->
  splitHeader text (a ++ hl :: rest) =
  (fst (splitHeader text a), snd (splitHeader text a) ++ hl :: rest).
Proof.
  intros Hhl. unfold splitHeader. destruct (re_test re_strict_preambulo _); [reflexivity|].
  apply mergeHeader_app_heading, Hhl.
Qed.

Lemma splitHeader_rest text a :
  exists taken, a = taken ++ snd (splitHeader text a).
Proof.
  unfold splitHeader. destruct (re_test re_strict_preambulo _); [exists []; reflexivity|].
  revert text. induction a as [|l a IH]; intros text; [exists []; reflexivity|].
  cbn [mergeHeader]. destruct (looksLikeTitle _); [|exists []; reflexivity].
  destruct (IH (text ++ [SP] ++ trim (line_text l))) as [taken Ht].
  exists (l :: taken). cbn [app]. f_equal. exact Ht.
Qed.

Lemma splitHeader_length text a : length (snd (splitHeader text a)) <= length a.
Proof.
  destruct (splitHeader_rest text a) as [taken Ht]. rewrite Ht at 2. rewrite length_app. lia.
Qed.

Lemma outlineLoop_S f line following cur :
  outlineLoop (S f) (line :: following) cur =
  match classify (trim (line_text line)) with
  | Some matchedType =>
      cur :: outlineLoop f (snd (splitHeader (trim (line_text line)) following))
               (newEntry matchedType (fst (splitHeader (trim (line_text line)) following)))
  | None => outlineLoop f following (entryBody (trim (line_text line)) cur)
  end.
Proof.
  cbn [outlineLoop]. cbv zeta. unfold splitHeader.
  destruct (classify _); [|reflexivity].
  destruct (if re_test re_strict_preambulo _ then _ else _). reflexivity.
Qed.

Lemma outlineLoop_fuel f1 f2 lines cur :
  length lines <= f1 -> length lines <= f2 -> outlineLoop f1 lines cur = outlineLoop f2 lines cur.
Proof.
  revert f2 lines cur. induction f1 as [|f1 IH]; intros f2 lines cur H1 H2.
  - destruct lines; [|simpl in H1; lia]. destruct f2; reflexivity.
  - destruct lines as [|line following]; [destruct f2; reflexivity|].
    destruct f2 as [|f2]; [simpl in H2; lia|]. rewrite !outlineLoop_S.
    cbn [length] in H1, H2. pose proof (splitHeader_length (trim (line_text line)) following).
    destruct (classify _); [f_equal|]; apply IH; lia.
Qed.

(** From a heading on, the outline does not depend on what came before. *)
Lemma outlineLoop_app_heading f f1 f2 pre hl rest ty cur x :
  classify (trim (line_text hl)) = Some ty ->
  length (pre ++ hl :: rest) <= f -> length pre <= f1 -> length (hl :: rest) <= f2 ->
  outlineLoop f (pre ++ hl :: rest) cur =
  outlineLoop f1 pre cur ++ tail (outlineLoop f2 (hl :: rest) x).
Proof.
  intros Hty. pose proof (classify_not_title _ _ Hty) as Hnt. intros Hf H1 H2.
  destruct f2 as [|f2]; [cbn [length] in H2; lia|].
  rewrite (outlineLoop_S f2 hl rest x), Hty. cbn [tail].
  pose proof (splitHeader_length (trim (line_text hl)) rest) as Hsl.
  set (T := outlineLoop f2 _ _).
  assert (HT : forall f', length rest <= f' ->
            outlineLoop f' (snd (splitHeader (trim (line_text hl)) rest))
              (newEntry ty (fst (splitHeader (trim (line_text hl)) rest))) = T).
  { intros f' Hf'. apply outlineLoop_fuel; cbn [length] in H2; lia. }
  clearbody T. clear H2 x f2.
  revert f1 pre cur Hf H1. induction f as [|f IH]; intros f1 pre cur Hf H1.
  { rewrite length_app in Hf. cbn [length] in Hf. lia. }
  destruct pre as [|l pre].
  - cbn [app]. rewrite outlineLoop_S, Hty.
    replace (outlineLoop f1 [] cur) with [cur] by (destruct f1; reflexivity).
    cbn [app]. f_equal. apply HT. cbn [length app] in Hf. lia.
  - destruct f1 as [|f1]; [cbn [length] in H1; lia|].
    cbn [app]. rewrite !outlineLoop_S. cbn [length app] in Hf, H1.
    rewrite length_app in Hf.
    destruct (classify (trim (line_text l))).
    + rewrite splitHeader_app_heading by exact Hnt. cbn [fst snd app]. f_equal.
      pose proof (splitHeader_length (trim (line_text l)) pre).
      apply IH; [rewrite length_app; cbn [length] in *; lia | lia].
    + apply IH; [rewrite length_app; lia | lia].
Qed.

(** X15: a heading starts afresh: what the tree holds from a heading on
    does not depend on the lines before it, and what it holds before does
    not depend on the lines from the heading on. *)
Theorem buildTree_heading_starts_afresh
    (pre rest : list TextLine) (hl : TextLine) (ty : NodeType) :
  classify (trim (line_text hl)) = Some ty ->
  map content (nodes (buildTree (pre ++ hl :: rest))) =
  map content (nodes (buildTree pre)) ++ tail (map content (nodes (buildTree (hl :: rest)))).
Proof.
  intros Hty. rewrite !buildTree_outline. unfold outline.
  apply (outlineLoop_app_heading _ _ _ pre hl rest ty); [exact Hty | lia | lia | lia].
Qed.

Lemma buildTree_heading_starts_afresh_witness :
  map content (nodes (buildTree ([tl "Artigo 1.º"; tl "Âmbito"; tl "O presente acordo aplica-se."]
                                 ++ tl "Artigo 2.º" :: [tl "Vigência"]))) =
  map content (nodes (buildTree [tl "Artigo 1.º"; tl "Âmbito"; tl "O presente acordo aplica-se."]))
  ++ tail (map content (nodes (buildTree (tl "Artigo 2.º" :: [tl "Vigência"])))).
Proof.
  apply (buildTree_heading_starts_afresh
           [tl "Artigo 1.º"; tl "Âmbito"; tl "O presente acordo aplica-se."] [tl "Vigência"]
           (tl "Artigo 2.º") article).
  vm_compute. reflexivity.
Defined.

Lemma entryBody_fold_truthy ty hd c t (body : list jsstring) :
  ty <> root ->
  fold_left (fun e text => entryBody text e) body (ty, hd, Some (c :: t)) =
  (ty, hd, Some ((c :: t) ++ flat_map (cons NL) body)).
Proof.
  intros Hty. revert c t. induction body as [|b body IH]; intros c t.
  - cbn [fold_left flat_map]. rewrite app_nil_r. reflexivity.
  - cbn [fold_left flat_map]. unfold entryBody at 2.
    rewrite bool_decide_eq_false_2 by exact Hty. cbn [truthy toStr].
    cbn [app]. rewrite (IH c (t ++ NL :: b)). cbn [app].
    rewrite <- !app_assoc. reflexivity.
Qed.

Lemma entryBody_fold ty hd (t0 : jsval) (body : list jsstring) :
  ty <> root -> truthy t0 = false -> body <> [] ->
  fold_left (fun e text => entryBody text e) body (ty, hd, t0) =
  (ty, hd, Some (joinNL (dropWhile (fun s => bool_decide (s = [])) body))).
Proof.
  intros Hty. revert t0. induction body as [|b body IH]; intros t0 Ht0 Hne; [contradiction|].
  cbn [fold_left dropWhile]. unfold entryBody at 2.
  rewrite bool_decide_eq_false_2 by exact Hty. rewrite Ht0. cbn [truthy app].
  destruct b as [|c t].
  - rewrite bool_decide_eq_true_2 by reflexivity.
    destruct body as [|b' body']; [reflexivity|].
    apply IH; [reflexivity | discriminate].
  - rewrite bool_decide_eq_false_2 by discriminate.
    rewrite (entryBody_fold_truthy ty hd c t body Hty). reflexivity.
Qed.

Lemma outlineLoop_bodies f fol cur :
  Forall (fun l => classify (trim (line_text l)) = None) fol ->
  length fol <= f ->
  outlineLoop f fol cur =
  [fold_left (fun e text => entryBody text e) (map (fun l => trim (line_text l)) fol) cur].
Proof.
  intros Hfol. revert f cur. induction Hfol as [|l fol Hl _ IH]; intros f cur Hf.
  - destruct f; reflexivity.
  - destruct f as [|f]; [cbn [length] in Hf; lia|].
    rewrite outlineLoop_S, Hl. cbn [map fold_left]. apply IH. cbn [length] in Hf. lia.
Qed.

(** X16: a heading followed by lines that are no headings gives one node:
    its header is the heading with the lines that continue it, its text
    the remaining lines, trimmed and joined by newlines, blank lines at
    the start left out. *)
Theorem buildTree_section
    (hl : TextLine) (body : list TextLine) (ty : NodeType) :
  classify (trim (line_text hl)) = Some ty ->
  Forall (fun l => classify (trim (line_text l)) = None) body ->
  map content (nodes (buildTree (hl :: body))) =
  [(root, None, None);
   (ty, Some (fst (splitHeader (trim (line_text hl)) body)),
    bodyText ty (map (fun l => trim (line_text l))
                   (snd (splitHeader (trim (line_text hl)) body))))].
Proof.
  intros Hty Hbody. rewrite buildTree_outline. unfold outline. cbn [length].
  rewrite outlineLoop_S, Hty. f_equal.
  destruct (splitHeader_rest (trim (line_text hl)) body) as [taken Ht].
  set (fol := snd (splitHeader (trim (line_text hl)) body)) in *.
  assert (Hfol : Forall (fun l => classify (trim (line_text l)) = None) fol).
  { rewrite Ht in Hbody. apply Forall_app in Hbody. tauto. }
  rewrite (outlineLoop_bodies _ fol _ Hfol).
  2:{ rewrite Ht, length_app. lia. }
  f_equal. pose proof (classify_not_root _ _ Hty) as Hnr. unfold newEntry, bodyText.
  destruct (map _ fol) as [|b bs] eqn:Em; [reflexivity|].
  rewrite entryBody_fold; [reflexivity | exact Hnr | | discriminate].
  destruct (bool_decide (ty = article)); reflexivity.
Qed.

Lemma buildTree_section_witness :
  map content (nodes (buildTree (tl "Cláusula 3.ª" ::
                                 [tl "Vigência e denúncia"; tl "1- O acordo vigora por um ano.";
                                  tl "2- Pode ser denunciado."]))) =
  [(root, None, None);
   (article, Some (U "Cláusula 3.ª Vigência e denúncia"),
    Some (U "1- O acordo vigora por um ano." ++ [NL] ++ U "2- Pode ser denunciado."))].
Proof.
  rewrite (buildTree_section (tl "Cláusula 3.ª")
             [tl "Vigência e denúncia"; tl "1- O acordo vigora por um ano.";
              tl "2- Pode ser denunciado."] article);
    [vm_compute; reflexivity | vm_compute; reflexivity | repeat constructor; vm_compute; reflexivity].
Defined.

(** ** Dates: the conversion of a Portuguese date *)

Lemma run_length p s : run p s + length (skip p s) = length s.
Proof.
  induction s as [|c s IH]; [reflexivity|]. cbn [run skip].
  destruct (p c); cbn [length]; lia.
Qed.

Lemma skip_blank_app ws s :
  forallb isSpace ws = true -> skip isSpace (ws ++ s) = skip isSpace s.
Proof.
  induction ws as [|c ws IH]; [reflexivity|]. cbn [forallb app skip].
  intros [-> H]%andb_true_iff. apply IH, H.
Qed.

Lemma run_blank_app ws s :
  forallb isSpace ws = true -> run isSpace (ws ++ s) = length ws + run isSpace s.
Proof.
  induction ws as [|c ws IH]; [reflexivity|]. cbn [forallb app run length].
  intros [-> H]%andb_true_iff. rewrite IH by exact H. reflexivity.
Qed.

(** [/\s+/] at a position: the whole run of whitespace there. *)
Lemma match_at_ws i s :
  match_at re_ws i s =
  match s with
  | c :: s' =>
      if isSpace c
      then Some (MState (S i + run isSpace s') (skip isSpace s')
                   [Some (take (S i + run isSpace s' - i) s)])
      else None
  | [] => None
  end.
Proof.
  unfold match_at, re_ws. cbn [pat_re pat_ncaps]. unfold Plus. rewrite m_seq, m_cls.
  destruct s as [|c s']; [reflexivity|]. destruct (isSpace c); [|reflexivity].
  rewrite m_star_cls.
  rewrite (greedy_cls_first isSpace (S i) s' _ Some
             (MState (S i + run isSpace s') (skip isSpace s') (replicate 1 None)) eq_refl).
  reflexivity.
Qed.

(** The pattern of the word [de] between whitespace at a position. *)
Lemma match_at_de i s :
  match_at re_de i s =
  match s with
  | c :: s' =>
      if isSpace c then
        match skip isSpace s' with
        | 100%N :: 101%N :: w :: s3 =>
            if isSpace w
            then Some (MState (S (S (S (S i + run isSpace s'))) + run isSpace s3)
                         (skip isSpace s3)
                         [Some (take (S (S (S (S i + run isSpace s'))) + run isSpace s3 - i) s)])
            else None
        | _ => None
        end
      else None
  | [] => None
  end.
Proof.
  unfold match_at, re_de. cbn [pat_re pat_ncaps Seqs].
  unfold Plus at 1. rewrite m_seq, m_seq, m_cls.
  destruct s as [|c s']; [reflexivity|]. destruct (isSpace c) eqn:Hc; [|reflexivity].
  rewrite m_star_cls. rewrite greedy_cls_longest.
  2:{ intros j c0 s0 Hc0. rewrite m_seq.
      change (Lit (U "de")) with (Seq (Cls (chr 100%N)) (Cls (chr 101%N))). rewrite m_seq, m_cls.
      unfold chr. destruct (N.eqb_spec c0 100%N) as [->|]; [discriminate Hc0 | reflexivity]. }
  rewrite m_seq.
  change (Lit (U "de")) with (Seq (Cls (chr 100%N)) (Cls (chr 101%N))).
  rewrite m_seq, m_cls.
  destruct (skip isSpace s') as [|c1 s1]; [reflexivity|]. unfold chr at 1.
  destruct (N.eqb_spec c1 100%N) as [->|Hne].
  2:{ destruct c1 as [|p]; [reflexivity|].
      repeat (destruct p as [p|p|]; try reflexivity); contradiction. }
  rewrite m_cls. destruct s1 as [|c2 s2]; [reflexivity|]. unfold chr at 1.
  destruct (N.eqb_spec c2 101%N) as [->|Hne].
  2:{ destruct c2 as [|p]; [reflexivity|].
      repeat (destruct p as [p|p|]; try reflexivity); contradiction. }
  unfold Plus. rewrite m_seq, m_cls. destruct s2 as [|w s3]; [reflexivity|].
  destruct (isSpace w); [|reflexivity]. rewrite m_star_cls.
  rewrite (greedy_cls_first isSpace _ s3 _ Some
             (MState (S (S (S (S i + run isSpace s'))) + run isSpace s3) (skip isSpace s3)
                     (replicate 1 None)) eq_refl).
  reflexivity.
Qed.

Lemma match_at_de_test i s :
  match_at re_de i s =
  match s with
  | c :: s' =>
      if isSpace c && deAhead (skip isSpace s') then
        Some (MState (S (S (S (S i + run isSpace s'))) + run isSpace (drop 3 (skip isSpace s')))
                (skip isSpace (drop 3 (skip isSpace s')))
                [Some (take (S (S (S (S i + run isSpace s')))
                             + run isSpace (drop 3 (skip isSpace s')) - i) s)])
      else None
  | [] => None
  end.
Proof.
  rewrite match_at_de. destruct s as [|c s']; [reflexivity|].
  destruct (isSpace c); [|reflexivity]. cbn [andb].
  destruct (skip isSpace s') as [|c1 [|c2 [|w s3]]]; unfold deAhead.
  - reflexivity.
  - destruct c1 as [|p]; [reflexivity|]. repeat (destruct p as [p|p|]; try reflexivity).
  - destruct c1 as [|p]; [reflexivity|]. repeat (destruct p as [p|p|]; try reflexivity);
      (destruct c2 as [|q]; [reflexivity|]; repeat (destruct q as [q|q|]; try reflexivity)).
  - destruct c1 as [|p]; [reflexivity|]. repeat (destruct p as [p|p|]; try reflexivity);
      (destruct c2 as [|q]; [reflexivity|]; repeat (destruct q as [q|q|]; try reflexivity)).
Qed.

Lemma skip_nonspace s : head_in isSpace s = false -> skip isSpace s = s.
Proof. destruct s as [|c s']; [reflexivity|]. cbn [head_in skip]. intros ->. reflexivity. Qed.

Lemma match_at_de_word i s : head_in isSpace s = false -> match_at re_de i s = None.
Proof.
  intros H. rewrite match_at_de_test. destruct s as [|c s']; [reflexivity|].
  cbn [head_in] in H. rewrite H. reflexivity.
Qed.

Lemma replace_go_S p tmpl f i s :
  replace_go p tmpl (S f) i s =
  match match_at p i s with
  | Some y =>
      if pos y =? i then
        match s with
        | [] => tmpl (caps y)
        | c :: s' => tmpl (caps y) ++ c :: replace_go p tmpl f (S i) s'
        end
      else tmpl (caps y) ++ replace_go p tmpl f (pos y) (rest y)
  | None =>
      match s with
      | [] => []
      | c :: s' => c :: replace_go p tmpl f (S i) s'
      end
  end.
Proof. reflexivity. Qed.

Lemma split_go_S p f i acc c s' :
  split_go p (S f) i acc (c :: s') =
  match match_at p i (c :: s') with
  | Some y =>
      if (pos y =? i) && bool_decide (acc = [])
      then split_go p f (S i) (acc ++ [c]) s'
      else acc :: split_go p f (pos y) [] (rest y)
  | None => split_go p f (S i) (acc ++ [c]) s'
  end.
Proof. reflexivity. Qed.


Lemma dropDe_nil i : dropDe i [] = [].
Proof. unfold dropDe. rewrite replace_go_S, match_at_de_word; reflexivity. Qed.

Lemma dropDe_word i w s :
  isWord w = true -> dropDe i (w ++ s) = w ++ dropDe (i + length w) s.
Proof.
  revert i. induction w as [|c w IH]; intros i Hw.
  - cbn [app length]. rewrite Nat.add_0_r. reflexivity.
  - cbn [isWord forallb] in Hw. apply andb_true_iff in Hw as [Hc Hw].
    apply negb_true_iff in Hc. unfold dropDe. cbn [app length].
    rewrite replace_go_S, match_at_de_word by (cbn [head_in]; exact Hc). f_equal.
    fold (dropDe (S i) (w ++ s)). rewrite IH by exact Hw.
    replace (S i + length w) with (i + S (length w)) by lia. reflexivity.
Qed.

Lemma dropDe_blank i ws s :
  forallb isSpace ws = true -> head_in isSpace s = false -> deAhead s = false ->
  dropDe i (ws ++ s) = ws ++ dropDe (i + length ws) s.
Proof.
  intros Hws Hs Hde. revert i Hws. induction ws as [|c ws IH]; intros i Hws.
  - cbn [app length]. rewrite Nat.add_0_r. reflexivity.
  - cbn [forallb] in Hws. apply andb_true_iff in Hws as [Hc Hws].
    unfold dropDe. cbn [app length].
    rewrite replace_go_S, match_at_de_test, Hc, (skip_blank_app ws s Hws), (skip_nonspace s Hs), Hde.
    cbn [andb]. f_equal. fold (dropDe (S i) (ws ++ s)). rewrite IH by exact Hws.
    replace (S i + length ws) with (i + S (length ws)) by lia. reflexivity.
Qed.

Lemma dropDe_de i ws1 ws2 s :
  isBlank ws1 = true -> isBlank ws2 = true -> head_in isSpace s = false ->
  exists j, dropDe i (ws1 ++ U "de" ++ ws2 ++ s) = [SP] ++ dropDe j s.
Proof.
  intros H1 H2 Hs. destruct ws1 as [|c ws1]; [discriminate|]. destruct ws2 as [|w ws2]; [discriminate|].
  cbn [isBlank forallb] in H1, H2.
  apply andb_true_iff in H1 as [Hc H1]. apply andb_true_iff in H2 as [Hw H2].
  change (U "de") with [100%N; 101%N]. unfold dropDe. cbn [app length].
  rewrite replace_go_S, match_at_de_test, Hc.
  rewrite !(skip_blank_app ws1 _ H1).
  assert (Hsk : forall r : jsstring, skip isSpace (100%N :: r) = 100%N :: r) by reflexivity.
  rewrite !Hsk. cbn [deAhead drop andb]. rewrite Hw. rewrite !drop_0.
  rewrite (skip_blank_app ws2 s H2), (skip_nonspace s Hs). cbn [pos rest caps].
  match goal with |- context [(?a =? i)] => destruct (Nat.eqb_spec a i) as [He|_]; [lia|] end.
  eexists. cbn [one_space app]. f_equal.
  apply replace_go_fuel; rewrite ?length_app; cbn [length]; rewrite ?length_app; lia.
Qed.

Lemma split_go_fuel p f1 f2 i acc s :
  2 * length s + (if bool_decide (acc = []) then 0 else 1) < f1 ->
  2 * length s + (if bool_decide (acc = []) then 0 else 1) < f2 ->
  split_go p f1 i acc s = split_go p f2 i acc s.
Proof.
  revert f2 i acc s. induction f1 as [|f1 IH]; intros f2 i acc s H1 H2; [lia|].
  destruct f2 as [|f2]; [lia|]. destruct s as [|c s']; [reflexivity|].
  rewrite !split_go_S. cbn [length] in H1, H2.
  assert (Hadv : split_go p f1 (S i) (acc ++ [c]) s' = split_go p f2 (S i) (acc ++ [c]) s').
  { apply IH; repeat case_bool_decide; lia. }
  destruct (match_at p i (c :: s')) as [y|] eqn:E; [|exact Hadv].
  destruct ((pos y =? i) && bool_decide (acc = [])) eqn:Ec; [exact Hadv|].
  f_equal. apply match_at_inv in E as [Hsuf Hpos]. apply suffix_length in Hsuf.
  cbn [length] in Hsuf, Hpos.
  apply andb_false_iff in Ec as [Ec|Ec].
  - apply Nat.eqb_neq in Ec.
    apply IH; rewrite bool_decide_eq_true_2 by reflexivity; repeat case_bool_decide; lia.
  - apply bool_decide_eq_false in Ec. rewrite bool_decide_eq_false_2 in H1, H2 by exact Ec.
    apply IH; rewrite bool_decide_eq_true_2 by reflexivity; lia.
Qed.


Lemma splitWs_nil i acc : splitWs i acc [] = [acc].
Proof. reflexivity. Qed.

Lemma splitWs_word i acc w s :
  isWord w = true -> splitWs i acc (w ++ s) = splitWs (i + length w) (acc ++ w) s.
Proof.
  revert i acc. induction w as [|c w IH]; intros i acc Hw.
  - cbn [app length]. rewrite Nat.add_0_r, app_nil_r. reflexivity.
  - cbn [isWord forallb] in Hw. apply andb_true_iff in Hw as [Hc Hw].
    apply negb_true_iff in Hc. unfold splitWs. cbn [app length].
    replace (2 * S (length (w ++ s)) + 2) with (S (2 * length (w ++ s) + 3)) by lia.
    rewrite split_go_S, match_at_ws, Hc.
    rewrite (split_go_fuel _ _ (2 * length (w ++ s) + 2)).
    + fold (splitWs (S i) (acc ++ [c]) (w ++ s)). rewrite IH by exact Hw.
      rewrite <- app_assoc. replace (S i + length w) with (i + S (length w)) by lia. reflexivity.
    + case_bool_decide; lia.
    + case_bool_decide; lia.
Qed.

Lemma splitWs_blank i acc ws s :
  isBlank ws = true -> head_in isSpace s = false ->
  exists j, splitWs i acc (ws ++ s) = acc :: splitWs j [] s.
Proof.
  intros Hws Hs. destruct ws as [|c ws]; [discriminate|]. cbn [isBlank forallb] in Hws.
  apply andb_true_iff in Hws as [Hc Hws]. unfold splitWs. cbn [app length].
  replace (2 * S (length (ws ++ s)) + 2) with (S (2 * length (ws ++ s) + 3)) by lia.
  rewrite split_go_S, match_at_ws, Hc. cbn [pos rest].
  rewrite (skip_blank_app ws s Hws), (skip_nonspace s Hs).
  destruct (Nat.eqb_spec (S i + run isSpace (ws ++ s)) i) as [He|_]; [lia|]. cbn [andb].
  eexists. f_equal. apply split_go_fuel; rewrite ?length_app, bool_decide_eq_true_2 by reflexivity; lia.
Qed.

Lemma run_skip_split p s : exists pre, s = pre ++ skip p s /\ forallb p pre = true.
Proof.
  induction s as [|c s IH]; [exists []; split; reflexivity|]. cbn [skip].
  destruct (p c) eqn:E; [|exists []; split; reflexivity].
  destruct IH as (pre & Hs & Hp). exists (c :: pre). cbn [app forallb]. rewrite E, Hp.
  split; [f_equal; exact Hs | reflexivity].
Qed.

Lemma isDateSep_inv sep :
  isDateSep sep = true ->
  isBlank sep = true \/
  exists ws1 ws2, sep = ws1 ++ U "de" ++ ws2 /\ isBlank ws1 = true /\ isBlank ws2 = true.
Proof.
  destruct sep as [|c sep']; [discriminate|]. cbn [isDateSep].
  intros [Hc H]%andb_true_iff.
  destruct (run_skip_split isSpace sep') as (pre & Hs & Hp).
  destruct (skip isSpace sep') as [|c1 r] eqn:Er.
  - left. cbn [isBlank forallb]. rewrite Hc, Hs, app_nil_r, Hp. reflexivity.
  - right. apply andb_true_iff in H as [Hde Hrest].
    destruct r as [|c2 [|w r']].
    { exfalso. unfold deAhead in Hde. destruct c1 as [|q]; [discriminate|].
      repeat (destruct q as [q|q|]; try discriminate). }
    { exfalso. unfold deAhead in Hde. destruct c1 as [|q]; [discriminate|].
      repeat (destruct q as [q|q|]; try discriminate).
      destruct c2 as [|q]; [discriminate|]. repeat (destruct q as [q|q|]; try discriminate). }
    assert (c1 = 100%N /\ c2 = 101%N) as [-> ->].
    { unfold deAhead in Hde.
      destruct c1 as [|q]; [discriminate|]. repeat (destruct q as [q|q|]; try discriminate).
      destruct c2 as [|q]; [discriminate|]. repeat (destruct q as [q|q|]; try discriminate).
      split; reflexivity. }
    exists (c :: pre), (w :: r'). split; [|split].
    + rewrite Hs. reflexivity.
    + cbn [isBlank forallb]. rewrite Hc, Hp. reflexivity.
    + exact Hrest.
Qed.

Lemma dropDe_sep i sep s :
  isDateSep sep = true -> head_in isSpace s = false -> deAhead s = false ->
  exists j sep', dropDe i (sep ++ s) = sep' ++ dropDe j s /\ isBlank sep' = true.
Proof.
  intros Hsep Hs Hde. apply isDateSep_inv in Hsep as [Hb|(ws1 & ws2 & -> & H1 & H2)].
  - exists (i + length sep), sep. split; [|exact Hb].
    apply dropDe_blank; [|exact Hs | exact Hde]. destruct sep; [discriminate | exact Hb].
  - destruct (dropDe_de i ws1 ws2 s H1 H2 Hs) as [j Hj].
    exists j, [SP]. rewrite <- !app_assoc. split; [exact Hj | reflexivity].
Qed.

Lemma word_head w s : isWord w = true -> w <> [] -> head_in isSpace (w ++ s) = false.
Proof.
  destruct w as [|c w]; [contradiction|]. cbn [isWord forallb app head_in].
  intros [Hc _]%andb_true_iff _. apply negb_true_iff, Hc.
Qed.

Lemma digits_word d : forallb isDigit d = true -> isWord d = true.
Proof.
  unfold isWord. rewrite !forallb_forall. intros H c Hc. specialize (H c Hc).
  destruct (isSpace c) eqn:E; [|reflexivity]. rewrite (space_not_digit c E) in H. discriminate.
Qed.

Lemma digits_not_de d s : forallb isDigit d = true -> d <> [] -> deAhead (d ++ s) = false.
Proof.
  destruct d as [|c d]; [contradiction|]. cbn [forallb app]. intros [Hc _]%andb_true_iff _.
  unfold deAhead. destruct c as [|q]; [reflexivity|].
  repeat (destruct q as [q|q|]; try reflexivity); discriminate.
Qed.

Lemma digits_js_length d : forallb isDigit d = true -> js_length d = length d.
Proof.
  induction d as [|c d IH]; [reflexivity|]. cbn [forallb]. intros [Hc Hd]%andb_true_iff.
  cbn [js_length fold_right length]. fold (js_length d). rewrite IH by exact Hd.
  unfold isDigit, in_range in Hc. apply andb_true_iff in Hc as [_ Hc]. apply N.leb_le in Hc.
  destruct (N.ltb_spec 65535 c); [lia | reflexivity].
Qed.

Lemma month_names mo code :
  assoc mo monthTable = Some code ->
  isWord mo = true /\ mo <> [] /\ (forall t, deAhead (mo ++ t) = false) /\
  mapLookup mo = Some (MonthCode code).
Proof.
  intros H. assert (Hl : mapLookup mo = Some (MonthCode code)) by (unfold mapLookup; rewrite H; reflexivity).
  unfold monthTable, assoc, str_eqb in H.
  repeat case_bool_decide; try discriminate; subst mo;
    (split; [vm_compute; reflexivity|]; split; [vm_compute; discriminate|];
     split; [intros t; reflexivity | exact Hl]).
Qed.

Lemma digits_not_in_map d : forallb isDigit d = true -> d <> [] -> mapLookup d = None.
Proof.
  destruct d as [|c d]; [contradiction|]. cbn [forallb]. intros [Hc _]%andb_true_iff _.
  assert (Hne : forall k : jsstring, head_in isDigit k = false -> c :: d <> k).
  { intros k Hk E. rewrite <- E in Hk. cbn [head_in] in Hk. congruence. }
  unfold mapLookup, monthTable, assoc, str_eqb.
  repeat (rewrite bool_decide_eq_false_2 by (apply Hne; vm_compute; reflexivity)).
  rewrite bool_decide_eq_false_2; [reflexivity|]. unfold objectPrototypeKeys. intros Hin.
  repeat (apply elem_of_cons in Hin as [Hin|Hin];
          [revert Hin; apply Hne; vm_compute; reflexivity|]).
  apply elem_of_nil in Hin. exact Hin.
Qed.

(** The two string steps of the conversion on a date in words. *)
Lemma date_parts d sep1 mo sep2 y code :
  forallb isDigit d = true -> d <> [] ->
  isDateSep sep1 = true -> isDateSep sep2 = true ->
  assoc mo monthTable = Some code ->
  forallb isDigit y = true -> y <> [] ->
  split re_ws (replace_all re_de one_space (d ++ sep1 ++ mo ++ sep2 ++ y)) = [d; mo; y].
Proof.
  intros Hd Hdne Hs1 Hs2 Hmo Hy Hyne.
  destruct (month_names mo code Hmo) as (Hw & Hne & Hde & _).
  pose proof (digits_word d Hd) as Hdw. pose proof (digits_word y Hy) as Hyw.
  assert (Hy0 : head_in isSpace y = false).
  { rewrite <- (app_nil_r y). apply word_head; assumption. }
  assert (Hyde : deAhead y = false).
  { rewrite <- (app_nil_r y). apply digits_not_de; assumption. }
  unfold replace_all. fold (dropDe 0 (d ++ sep1 ++ mo ++ sep2 ++ y)).
  rewrite dropDe_word by exact Hdw.
  destruct (dropDe_sep (0 + length d) sep1 (mo ++ sep2 ++ y) Hs1
              (word_head mo _ Hw Hne) (Hde _)) as (j1 & sep1' & -> & Hb1).
  rewrite dropDe_word by exact Hw.
  destruct (dropDe_sep (j1 + length mo) sep2 y Hs2 Hy0 Hyde) as (j2 & sep2' & -> & Hb2).
  rewrite <- (app_nil_r y) at 1. rewrite dropDe_word, dropDe_nil, app_nil_r by exact Hyw.
  set (s := d ++ sep1' ++ mo ++ sep2' ++ y).
  assert (Hs : split re_ws s = splitWs 0 [] s).
  { unfold split, splitWs. destruct s as [|c s'] eqn:Es.
    - subst s. destruct d; [contradiction | discriminate].
    - apply split_go_fuel; rewrite bool_decide_eq_true_2 by reflexivity; lia. }
  rewrite Hs. subst s. rewrite splitWs_word by exact Hdw. cbn [app].
  destruct (splitWs_blank (0 + length d) d sep1' (mo ++ sep2' ++ y) Hb1
              (word_head mo _ Hw Hne)) as (k1 & ->).
  rewrite splitWs_word by exact Hw. cbn [app].
  destruct (splitWs_blank (k1 + length mo) mo sep2' y Hb2 Hy0) as (k2 & ->).
  rewrite <- (app_nil_r y) at 1. rewrite splitWs_word by exact Hyw. reflexivity.
Qed.

(** X17: a date in words is converted to the ISO date it names: day, month
    name and year, separated by whitespace with or without the word [de],
    give the year, the number of the month and the day padded to two
    digits. *)
Theorem convertDateToISO_date_in_words
    (h : Host) (ptDate d sep1 mo sep2 y code : jsstring) :
  toLowerCase h ptDate = d ++ sep1 ++ mo ++ sep2 ++ y ->
  forallb isDigit d = true -> d <> [] ->
  isDateSep sep1 = true -> isDateSep sep2 = true ->
  assoc mo monthTable = Some code ->
  forallb isDigit y = true -> length y = 4 ->
  convertDateToISO h (Some ptDate) = Returned (y ++ U "-" ++ code ++ U "-" ++ padStart2 d).
Proof.
  intros Hlow Hd Hdne Hs1 Hs2 Hmo Hy Hylen.
  assert (Hyne : y <> []) by (destruct y; [discriminate | discriminate]).
  unfold convertDateToISO. cbv zeta.
  rewrite Hlow, (date_parts d sep1 mo sep2 y code) by assumption.
  destruct (month_names mo code Hmo) as (_ & _ & _ & Hlk).
  cbn [length Nat.ltb Nat.leb findIndex].
  rewrite (digits_not_in_map d Hd Hdne), Hlk. cbn [mapTruthy fmap option_fmap option_map default].
  unfold id. cbn [Nat.ltb Nat.leb Nat.add Nat.sub andb lookup list_lookup toStr].
  rewrite Hlk. cbn [mapTruthy mapText].
  rewrite (digits_js_length y Hy), Hylen. cbn [Nat.eqb andb].
  assert (Hp : truthy (Some (padStart2 d)) = true).
  { assert (Hne : padStart2 d <> []).
    { unfold padStart2. destruct (2 <=? js_length d); [exact Hdne|].
      intros E. apply app_eq_nil in E as [_ E]. contradiction. }
    destruct (padStart2 d); [contradiction | reflexivity]. }
  rewrite Hp. destruct y; [contradiction|]. reflexivity.
Qed.

Lemma convertDateToISO_date_in_words_witness :
  convertDateToISO sampleHost (Some (U "15 de Março  2024")) = Returned (U "2024-03-15").
Proof.
  apply (convertDateToISO_date_in_words sampleHost (U "15 de Março  2024")
           (U "15") (U " de ") (U "março") (U "  ") (U "2024") (U "03"));
    try (vm_compute; reflexivity); vm_compute; discriminate.
Defined.

(** ** Noise filter: the tests in closed form *)

Lemma search_from_bol r n i s :
  search_from (Pattern (Seq Bol r) n) (S i) s = None.
Proof.
  revert i. induction s as [|c s IH]; intros i; cbn [search_from];
    unfold match_at; cbn [pat_re pat_ncaps]; rewrite m_seq; cbn [m pos Nat.eqb].
  - reflexivity.
  - apply IH.
Qed.

Lemma re_test_bol r n s :
  re_test (Pattern (Seq Bol r) n) s =
  bool_decide (is_Some (m r (MState 0 s (replicate n None)) Some)).
Proof.
  unfold re_test. destruct s as [|c s]; cbn [search_from]; unfold match_at;
    cbn [pat_re pat_ncaps]; rewrite m_seq; cbn [m pos Nat.eqb].
  - destruct (m r _ Some); apply bool_decide_ext; split; intros [z Hz]; try discriminate; eauto.
  - rewrite search_from_bol.
    destruct (m r _ Some); apply bool_decide_ext; split; intros [z Hz]; try discriminate; eauto.
Qed.

Lemma skip_nil_iff p s : skip p s = [] <-> forallb p s = true.
Proof.
  induction s as [|c s IH]; [split; reflexivity|]. cbn [skip forallb].
  destruct (p c); cbn [andb]; [exact IH | split; discriminate].
Qed.

(** A class repeated to the end of the text. *)
Lemma m_star_cls_eol p x :
  is_Some (m (Star true (Cls p)) x (fun y => m Eol y Some)) <-> forallb p (rest x) = true.
Proof.
  rewrite m_star_cls', greedy_cls_longest by reflexivity.
  cbn [m rest]. rewrite <- skip_nil_iff. destruct (skip p (rest x)); split; try discriminate; eauto.
  - intros [z Hz]. discriminate.
Qed.

(** X18: a line is dropped as a page number exactly when its trimmed text
    is a non-empty run of ASCII digits. *)
Theorem onlyDigits_spec (txt : jsstring) :
  onlyDigits txt = true <-> txt <> [] /\ forallb isDigit txt = true.
Proof.
  unfold onlyDigits, re_only_digits. cbn [Seqs]. rewrite re_test_bol, bool_decide_eq_true.
  unfold Plus. rewrite !m_seq, m_cls. destruct txt as [|c s].
  - split; [intros [z Hz]; discriminate | intros [H _]; contradiction].
  - cbn [forallb]. destruct (isDigit c); cbn [andb].
    + cbv beta. rewrite m_star_cls_eol. cbn [rest]. split; [split; [discriminate | assumption] | tauto].
    + split; [intros [z Hz]; discriminate | intros [_ H]; discriminate].
Qed.

Lemma is_Some_alt a b x k :
  is_Some (m (Alt a b) x k) <-> is_Some (m a x k) \/ is_Some (m b x k).
Proof.
  rewrite m_alt. destruct (m a x k) as [z|].
  - split; [left; eauto | eauto].
  - split; [right; assumption | intros [[z Hz]|H]; [discriminate | exact H]].
Qed.

Lemma m_cls_state p x k :
  m (Cls p) x k =
  match rest x with
  | c :: s => if p c then k (advance x s) else None
  | [] => None
  end.
Proof. reflexivity. Qed.

Lemma m_LitI lit x k :
  m (LitI lit) x k =
  if startsWith_i lit (rest x)
  then k (MState (pos x + length lit) (drop (length lit) (rest x)) (caps x))
  else None.
Proof.
  unfold LitI. revert x. induction lit as [|c lit IH]; intros x.
  - cbn [map Seqs m startsWith_i length drop]. rewrite Nat.add_0_r. destruct x. reflexivity.
  - destruct lit as [|c' lit'].
    + cbn [map Seqs]. rewrite (m_cls_state). destruct (rest x) as [|d s]; [reflexivity|].
      cbn [startsWith_i length drop]. destruct (chr_i c d); [|reflexivity].
      cbn [andb]. unfold advance. rewrite drop_0, Nat.add_1_r. reflexivity.
    + change (Seqs (map (fun c0 => Cls (chr_i c0)) (c :: c' :: lit'))) with
        (Seq (Cls (chr_i c)) (Seqs (map (fun c0 => Cls (chr_i c0)) (c' :: lit')))).
      rewrite m_seq, m_cls_state. destruct (rest x) as [|d s]; [reflexivity|].
      cbn [startsWith_i]. destruct (chr_i c d); [|reflexivity]. cbn [andb].
      rewrite IH. unfold advance. cbn [pos rest caps].
      change (length (c :: c' :: lit')) with (S (length (c' :: lit'))). cbn [drop].
      replace (pos x + S (length (c' :: lit'))) with (S (pos x) + length (c' :: lit')) by lia.
      reflexivity.
Qed.

Lemma m_star_cls_end p x k :
  (forall y, is_Some (k y) <-> rest y = []) ->
  is_Some (m (Star true (Cls p)) x k) <-> forallb p (rest x) = true.
Proof.
  intros Hk. rewrite m_star_cls', greedy_cls_longest.
  - rewrite Hk. cbn [rest]. apply skip_nil_iff.
  - intros j c s' _. destruct (k _) as [z|] eqn:E; [|reflexivity].
    assert (H : is_Some (k (MState j (c :: s') (caps x)))) by (rewrite E; eauto).
    apply Hk in H. discriminate.
Qed.

Lemma drop_nil_length {A} (l : list A) n : n <= length l -> drop n l = [] <-> length l = n.
Proof.
  intros Hn. split.
  - intros H. apply (f_equal length) in H. rewrite length_drop in H. cbn in H. lia.
  - intros <-. apply drop_all.
Qed.

Lemma startsWith_i_length lit s : startsWith_i lit s = true -> length lit <= length s.
Proof.
  revert s. induction lit as [|c lit IH]; intros s; [cbn; lia|].
  destruct s as [|d s]; [discriminate|]. cbn [startsWith_i length].
  intros [_ H]%andb_true_iff. apply IH in H. lia.
Qed.

Section Caption.
Variable k : cont.
Hypothesis Hk : forall y, is_Some (k y) <-> rest y = [].

Lemma caption_exact lit x :
  is_Some (m (LitI lit) x k) <-> equals_i lit (rest x) = true.
Proof using Hk.
  rewrite m_LitI. unfold equals_i. destruct (startsWith_i lit (rest x)) eqn:E; cbn [andb].
  - rewrite Hk. cbn [rest]. rewrite drop_nil_length by (apply startsWith_i_length, E).
    rewrite Nat.eqb_eq. reflexivity.
  - split; [intros [z Hz]; discriminate | discriminate].
Qed.

Lemma caption_start lit x :
  is_Some (m (Seq (LitI lit) (Star true (Cls dot))) x k) <->
  startsWith_i lit (rest x) && forallb dot (drop (length lit) (rest x)) = true.
Proof using Hk.
  rewrite m_seq, m_LitI. destruct (startsWith_i lit (rest x)); cbn [andb].
  - rewrite (m_star_cls_end _ _ _ Hk). reflexivity.
  - split; [intros [z Hz]; discriminate | discriminate].
Qed.
End Caption.

(** X19: a line is dropped as a category caption exactly when its trimmed
    text is one of the five captions, in any letter case, or starts with
    one of the two caption words, in any letter case, with no line break
    after it: whatever follows such a word on the line goes with it. *)
Theorem categoryCaption_spec (txt : jsstring) :
  categoryCaption txt = true <->
  existsb (fun lit => equals_i lit txt) captions = true \/
  existsb (fun lit => startsWith_i lit txt && forallb dot (drop (length lit) txt))
          captionStarts = true.
Proof.
  unfold categoryCaption, ignorePatterns. cbn [Seqs]. rewrite re_test_bol, bool_decide_eq_true.
  rewrite m_seq, m_group.
  set (x0 := MState 0 txt (replicate 2 None)).
  set (k := fun y : mstate => (fun y0 : mstate => m Eol y0 Some) (set_cap 1 x0 y)).
  assert (Hk : forall y, is_Some (k y) <-> rest y = []).
  { intros y. unfold k. cbn [m set_cap rest]. destruct (rest y); split; try discriminate; eauto.
    intros [z Hz]. discriminate. }
  cbn [Alts]. rewrite !is_Some_alt.
  rewrite !(caption_exact k Hk), !(caption_start k Hk).
  cbn [existsb captions captionStarts]. subst x0. cbn [rest].
  rewrite !orb_true_iff. clear k Hk.
  assert (Hf : false = true <-> False) by (split; [discriminate | contradiction]).
  rewrite !Hf.
  repeat match goal with
         | |- context [?x = true] => generalize (x = true); intro
         end.
  tauto.
Qed.

(** ** The crawler *)

Lemma uint_chars_inj d d' : uint_chars d = uint_chars d' -> d = d'.
Proof.
  revert d'. induction d as [|d IH|d IH|d IH|d IH|d IH|d IH|d IH|d IH|d IH|d IH];
    intros [|e|e|e|e|e|e|e|e|e|e]; cbn [uint_chars]; intros H;
    try discriminate; try reflexivity; injection H as H; f_equal; apply IH, H.
Qed.

Lemma toString_inj n n' : toString n = toString n' -> n = n'.
Proof. intros H. apply DecimalNat.Unsigned.to_uint_inj, uint_chars_inj, H. Qed.

Section CrawlerFacts.
Context {Buffer : Type} (get : nat -> jsstring -> option (Response Buffer))
        (config : CrawlerConfig).

Local Abbreviation fetchUrls := (fetchUrls Buffer get).
Local Abbreviation fetchDocument := (fetchDocument Buffer get config).
Local Abbreviation scanFrom := (scanFrom Buffer get config).
Local Abbreviation loopYears := (loopYears Buffer get config).
Local Abbreviation crawlAll := (crawlAll Buffer get config).
Local Abbreviation maxFail := (MAX_CONSECUTIVE_FAILURES config).
Local Abbreviation identifyBoletins_separatas := (identifyBoletins_separatas Buffer get config).
Local Abbreviation available := (available Buffer get config).
Local Abbreviation answersPdf := (answersPdf Buffer get).

Lemma fetchUrls_inv urls ty y n c r c' :
  fetchUrls urls ty y n c = (r, c') ->
  totalCollected c' = totalCollected c /\ maxLimit c' = maxLimit c /\
  match r with
  | Some d =>
      limitReached c = false /\
      exists u t resp, u ∈ urls /\ get t u = Some resp /\ isPdf resp = true /\
        d = mkFetched (mkDownloadedFile u ty y n) (body resp)
  | None => True
  end.
Proof.
  revert c. induction urls as [|u urls IH]; intros c; cbn [fetchUrls].
  - intros [= <- <-]. auto.
  - destruct (limitReached c) eqn:El; [intros [= <- <-]; auto|].
    assert (Htick : limitReached (tick c) = false) by exact El.
    destruct (get (clock c) u) as [resp|] eqn:Eg.
    + destruct (isPdf resp) eqn:Ep.
      * intros [= <- <-]. cbn. split; [reflexivity|]. split; [reflexivity|].
        split; [reflexivity|]. exists u, (clock c), resp. repeat split; auto. left.
      * intros H. apply IH in H as (H1 & H2 & H3). cbn in H1, H2.
        split; [exact H1|]. split; [exact H2|]. destruct r; [|exact I].
        destruct H3 as (_ & u' & t & resp' & Hu & Hg & Hp & Hd).
        split; [reflexivity|]. exists u', t, resp'. repeat split; auto. right. exact Hu.
    + intros H. apply IH in H as (H1 & H2 & H3). cbn in H1, H2.
      split; [exact H1|]. split; [exact H2|]. destruct r; [|exact I].
      destruct H3 as (_ & u' & t & resp' & Hu & Hg & Hp & Hd).
      split; [reflexivity|]. exists u', t, resp'. repeat split; auto. right. exact Hu.
Qed.

Lemma scanFrom_S f ty y num fails c :
  scanFrom (S f) ty y num fails c =
  if limitReached c then ([], c, true)
  else if maxFail <=? fails then ([], c, true)
  else
    match fetchDocument ty y (toString num) c with
    | (Some doc, c1) =>
        let '(docs, c2, fin) := scanFrom f ty y (S num) 0 (collect c1) in
        (doc :: docs, c2, fin)
    | (None, c1) => scanFrom f ty y (S num) (S fails) c1
    end.
Proof. reflexivity. Qed.

Lemma limit_step (c c1 : Crawler) :
  withinLimit c -> limitReached c = false ->
  totalCollected c1 = totalCollected c -> maxLimit c1 = maxLimit c ->
  withinLimit (collect c1).
Proof.
  unfold withinLimit, limitReached, collect. cbn [maxLimit totalCollected].
  intros Hw Hl Ht Hm. rewrite Hm, Ht. destruct (maxLimit c) as [l|]; [|exact I].
  apply Z.leb_gt in Hl. lia.
Qed.

(** A scan counts what it yields and stays within the limit. *)
Lemma scanFrom_count fuel ty y num fails c docs c' fin :
  scanFrom fuel ty y num fails c = (docs, c', fin) ->
  withinLimit c ->
  totalCollected c' = totalCollected c + length docs /\
  maxLimit c' = maxLimit c /\ withinLimit c'.
Proof.
  revert num fails c docs c' fin. induction fuel as [|f IH]; intros num fails c docs c' fin.
  { intros [= <- <- <-] Hw. cbn. auto. }
  rewrite scanFrom_S. destruct (limitReached c) eqn:El; [intros [= <- <- <-] Hw; cbn; auto|].
  destruct (maxFail <=? fails); [intros [= <- <- <-] Hw; cbn; auto|].
  destruct (fetchDocument ty y (toString num) c) as [[doc|] c1] eqn:Ef;
    apply fetchUrls_inv in Ef as (Ht & Hm & Hd).
  - destruct (scanFrom f ty y (S num) 0 (collect c1)) as [[docs1 c2] fin1] eqn:Es.
    intros [= <- <- <-] Hw.
    destruct (IH _ _ _ _ _ _ Es (limit_step c c1 Hw El Ht Hm)) as (H1 & H2 & H3).
    cbn [collect totalCollected maxLimit length] in *. split; [lia|]. split; [congruence | exact H3].
  - intros Hs Hw. assert (Hw1 : withinLimit c1).
    { unfold withinLimit in *. rewrite Hm, Ht. exact Hw. }
    destruct (IH _ _ _ _ _ _ Hs Hw1) as (H1 & H2 & H3).
    split; [lia|]. split; [congruence | exact H3].
Qed.

Lemma loopYears_count fuel ty years c docs c' fin :
  loopYears fuel ty years c = (docs, c', fin) ->
  withinLimit c ->
  totalCollected c' = totalCollected c + length docs /\
  maxLimit c' = maxLimit c /\ withinLimit c'.
Proof.
  revert c docs c' fin. induction years as [|yr years IH]; intros c docs c' fin; cbn [loopYears].
  { intros [= <- <- <-] Hw. cbn. auto. }
  destruct (limitReached c); [intros [= <- <- <-] Hw; cbn; auto|].
  unfold identifyBoletins_separatas.
  destruct (scanFrom fuel ty (opt_value yr) 1 0 c) as [[docs1 c1] fin1] eqn:Es.
  intros H Hw. destruct (scanFrom_count _ _ _ _ _ _ _ _ _ Es Hw) as (H1 & H2 & H3).
  destruct fin1.
  - destruct (loopYears fuel ty years c1) as [[docs2 c2] fin2] eqn:El.
    injection H as <- <- <-. destruct (IH _ _ _ _ El H3) as (H4 & H5 & H6).
    rewrite length_app. split; [lia|]. split; [congruence | exact H6].
  - injection H as <- <- <-. auto.
Qed.

Lemma crawlAll_count fuel limit scope t0 docs c fin :
  crawlAll fuel limit scope t0 = (docs, c, fin) ->
  totalCollected c = length docs /\ withinLimit c /\
  maxLimit c = match limit with
               | Some l => if (0 <? l)%Z then Some l else None
               | None => None
               end.
Proof.
  unfold crawlAll. cbv zeta.
  set (c0 := mkCrawler 0 _ t0).
  assert (Hm0 : maxLimit c0 = match limit with
                              | Some l => if (0 <? l)%Z then Some l else None
                              | None => None
                              end).
  { subst c0. cbn [maxLimit]. destruct limit as [l|]; [|reflexivity].
    destruct (Z.eqb_spec l 0) as [->|]; reflexivity. }
  assert (Hw0 : withinLimit c0).
  { unfold withinLimit. rewrite Hm0. cbn [totalCollected c0]. destruct limit as [l|]; [|exact I].
    destruct (Z.ltb_spec 0 l); [lia | exact I]. }
  destruct (_ && _); [intros [= <- <- <-]; auto|].
  destruct (if negb (bool_decide (issueYears scope = [])) && negb (limitReached c0)
            then loopYears fuel issue (issueYears scope) c0 else ([], c0, true))
    as [[docs1 c1] fin1] eqn:E1.
  assert (H1 : totalCollected c1 = length docs1 /\ maxLimit c1 = maxLimit c0 /\ withinLimit c1).
  { destruct (_ && _) in E1.
    - destruct (loopYears_count _ _ _ _ _ _ _ E1 Hw0) as (Ha & Hb & Hc). auto.
    - injection E1 as <- <- <-. auto. }
  destruct H1 as (Ht1 & Hm1 & Hw1). destruct fin1.
  - destruct (if negb (bool_decide (offprintYears scope = [])) && negb (limitReached c1)
              then loopYears fuel offprint (offprintYears scope) c1 else ([], c1, true))
      as [[docs2 c2] fin2] eqn:E2.
    intros [= <- <- <-]. rewrite length_app.
    destruct (_ && _) in E2.
    + destruct (loopYears_count _ _ _ _ _ _ _ E2 Hw1) as (Ha & Hb & Hc).
      split; [lia|]. split; [exact Hc | congruence].
    + injection E2 as <- <- <-. cbn [length]. split; [lia|]. split; [exact Hw1 | congruence].
  - intros [= <- <- <-]. split; [exact Ht1|]. split; [exact Hw1 | congruence].
Qed.

(** X20: with a limit, the crawl never yields more documents than the
    limit, however long it is left to run. *)
Theorem crawlAll_respects_limit (fuel : nat) (l : Z) (scope : Scope) (t0 : nat) :
  (0 < l)%Z ->
  (Z.of_nat (length (fst (fst (crawlAll fuel (Some l) scope t0)))) <= l)%Z.
Proof.
  intros Hl. destruct (crawlAll fuel (Some l) scope t0) as [[docs c] fin] eqn:E.
  destruct (crawlAll_count _ _ _ _ _ _ _ E) as (Ht & Hw & Hm). cbn [fst].
  unfold withinLimit in Hw. rewrite Hm in Hw.
  destruct (Z.ltb_spec 0 l); [lia | lia].
Qed.


(** The documents of a scan carry the kind and the year asked for and the
    URL made for their number, and their numbers go up in steps of at most
    the number of failures allowed. *)
Lemma scanFrom_numbers fuel ty y num fails c docs c' fin prev :
  scanFrom fuel ty y num fails c = (docs, c', fin) ->
  num = S (prev + fails) ->
  exists ns,
    map (fun d => number (file d)) docs = map toString ns /\
    gapsOk maxFail prev ns /\
    Forall (fun d => docType (file d) = ty /\ year (file d) = y /\
                     url (file d) ∈ generateUrlPatterns (BASE_URL config) ty y (number (file d)) /\
                     exists t resp, get t (url (file d)) = Some resp /\ isPdf resp = true /\
                                    buffer d = body resp) docs.
Proof.
  revert num fails c docs c' fin prev.
  induction fuel as [|f IH]; intros num fails c docs c' fin prev.
  { intros [= <- <- <-] _. exists []. repeat split; constructor. }
  rewrite scanFrom_S. destruct (limitReached c).
  { intros [= <- <- <-] _. exists []. repeat split; constructor. }
  destruct (Nat.leb_spec maxFail fails) as [|Hlt].
  { intros [= <- <- <-] _. exists []. repeat split; constructor. }
  destruct (fetchDocument ty y (toString num) c) as [[doc|] c1] eqn:Ef;
    apply fetchUrls_inv in Ef as (_ & _ & Hd).
  - destruct (scanFrom f ty y (S num) 0 (collect c1)) as [[docs1 c2] fin1] eqn:Es.
    intros [= <- <- <-] Hnum.
    destruct (IH _ _ _ _ _ _ num Es ltac:(lia)) as (ns & Hns & Hg & Hf).
    destruct Hd as (_ & u & t & resp & Hu & Hget & Hp & ->).
    exists (num :: ns). cbn [map file number gapsOk]. split; [f_equal; exact Hns|].
    split; [split; [lia | exact Hg]|]. constructor; [|exact Hf].
    cbn [file docType year url number buffer]. repeat split; eauto.
  - intros Hs Hnum. apply (IH _ _ _ _ _ _ prev Hs). lia.
Qed.

(** X21: the documents of a year come with the kind and the year asked
    for and the URL made for their number, which a request answered with a
    PDF; their numbers start at 1 or above and go up, the first at most the
    number of failures allowed, each next at most that much above the one
    before. *)
Theorem identifyBoletins_separatas_numbers
    (fuel : nat) (ty : BteDocumentType) (y : jsstring) (c : Crawler) :
  exists ns,
    map (fun d => number (file d)) (fst (fst (identifyBoletins_separatas fuel ty y c)))
      = map toString ns /\
    gapsOk maxFail 0 ns /\
    Forall (fun d => docType (file d) = ty /\ year (file d) = y /\
                     url (file d) ∈ generateUrlPatterns (BASE_URL config) ty y (number (file d)) /\
                     exists t resp, get t (url (file d)) = Some resp /\ isPdf resp = true /\
                                    buffer d = body resp)
           (fst (fst (identifyBoletins_separatas fuel ty y c))).
Proof.
  unfold identifyBoletins_separatas.
  destruct (scanFrom fuel ty y 1 0 c) as [[docs c'] fin] eqn:E. cbn [fst].
  apply (scanFrom_numbers _ _ _ _ _ _ _ _ _ 0 E). reflexivity.
Qed.

(** With a limit every scan comes to its end. *)
Lemma scanFrom_ends fuel ty y num fails c l :
  maxLimit c = Some l -> withinLimit c ->
  (Z.to_nat l - totalCollected c) * (maxFail + 1) + (maxFail - fails) < fuel ->
  snd (scanFrom fuel ty y num fails c) = true.
Proof.
  revert num fails c. induction fuel as [|f IH]; intros num fails c Hm Hw Hf;
    [exfalso; exact (Nat.nlt_0_r _ Hf)|].
  rewrite scanFrom_S. destruct (limitReached c) eqn:El; [reflexivity|].
  destruct (Nat.leb_spec maxFail fails) as [|Hlt]; [reflexivity|].
  assert (Hrem : totalCollected c < Z.to_nat l).
  { unfold limitReached in El. rewrite Hm in El. apply Z.leb_gt in El. lia. }
  destruct (fetchDocument ty y (toString num) c) as [[doc|] c1] eqn:Ef;
    apply fetchUrls_inv in Ef as (Ht & Hm1 & _).
  - pose proof (limit_step c c1 Hw El Ht Hm1) as Hw1.
    specialize (IH (S num) 0 (collect c1)).
    destruct (scanFrom f ty y (S num) 0 (collect c1)) as [[docs1 c2] fin1]. cbn [snd] in *.
    apply IH; [cbn [collect maxLimit]; congruence | exact Hw1 |].
    cbn [collect totalCollected]. rewrite Ht. nia.
  - apply IH; [congruence | unfold withinLimit in *; rewrite Hm1, Ht; exact Hw |].
    rewrite Ht. lia.
Qed.

Lemma loopYears_ends fuel ty years c l :
  maxLimit c = Some l -> withinLimit c ->
  Z.to_nat l * (maxFail + 1) + maxFail < fuel ->
  snd (loopYears fuel ty years c) = true.
Proof.
  intros Hm Hw Hf. revert c Hm Hw. induction years as [|yr years IH]; intros c Hm Hw;
    cbn [loopYears]; [reflexivity|].
  destruct (limitReached c); [reflexivity|]. unfold identifyBoletins_separatas.
  pose proof (scanFrom_ends fuel ty (opt_value yr) 1 0 c l Hm Hw ltac:(nia)) as He.
  destruct (scanFrom fuel ty (opt_value yr) 1 0 c) as [[docs1 c1] fin1] eqn:Es.
  cbn [snd] in He. subst fin1.
  destruct (scanFrom_count _ _ _ _ _ _ _ _ _ Es Hw) as (_ & Hm1 & Hw1).
  specialize (IH c1 ltac:(congruence) Hw1).
  destruct (loopYears fuel ty years c1) as [[docs2 c2] fin2]. exact IH.
Qed.

(** X22: with a limit the crawl always comes to its end, whatever the
    server answers: at most one request for each document under the limit
    and for each failure allowed between two of them. *)
Theorem crawlAll_ends (fuel : nat) (l : Z) (scope : Scope) (t0 : nat) :
  (0 < l)%Z ->
  Z.to_nat l * (maxFail + 1) + maxFail < fuel ->
  snd (crawlAll fuel (Some l) scope t0) = true.
Proof.
  intros Hl Hf. unfold crawlAll. cbv zeta.
  destruct (Z.eqb_spec l 0) as [|_]; [lia|]. destruct (Z.ltb_spec 0 l) as [_|]; [|lia].
  set (c0 := mkCrawler 0 (Some l) t0).
  assert (Hw0 : withinLimit c0) by (unfold withinLimit; cbn; lia).
  destruct (_ && _); [reflexivity|].
  destruct (if negb (bool_decide (issueYears scope = [])) && negb (limitReached c0)
            then loopYears fuel issue (issueYears scope) c0 else ([], c0, true))
    as [[docs1 c1] fin1] eqn:E1.
  assert (H1 : fin1 = true /\ maxLimit c1 = Some l /\ withinLimit c1).
  { destruct (_ && _) in E1.
    - pose proof (loopYears_ends fuel issue (issueYears scope) c0 l eq_refl Hw0 Hf) as He.
      rewrite E1 in He. destruct (loopYears_count _ _ _ _ _ _ _ E1 Hw0) as (_ & Hb & Hc). auto.
    - injection E1 as <- <- <-. auto. }
  destruct H1 as (-> & Hm1 & Hw1).
  destruct (if negb (bool_decide (offprintYears scope = [])) && negb (limitReached c1)
            then loopYears fuel offprint (offprintYears scope) c1 else ([], c1, true))
    as [[docs2 c2] fin2] eqn:E2.
  cbn [snd]. destruct (_ && _) in E2.
  - pose proof (loopYears_ends fuel offprint (offprintYears scope) c1 l Hm1 Hw1 Hf) as He.
    rewrite E2 in He. exact He.
  - injection E2 as <- <- <-. reflexivity.
Qed.

(** On a server that answers the same at all times, fetching a document
    succeeds exactly when it is there. *)
Lemma fetchUrls_stable urls ty y n c :
  (forall t u, get t u = get 0 u) -> limitReached c = false ->
  is_Some (fst (fetchUrls urls ty y n c)) <-> existsb (answersPdf 0) urls = true.
Proof.
  intros Hst. revert c. induction urls as [|u urls IH]; intros c Hl; cbn [fetchUrls existsb].
  - split; [intros [d Hd]; discriminate | discriminate].
  - rewrite Hl. unfold answersPdf at 1. rewrite (Hst (clock c) u).
    destruct (get 0 u) as [resp|].
    + destruct (isPdf resp); cbn [orb fst]; [split; eauto|]. apply IH. exact Hl.
    + cbn [orb]. apply IH. exact Hl.
Qed.

Lemma scanFrom_found fuel ty y num fails c docs c' lo :
  (forall t u, get t u = get 0 u) ->
  maxLimit c = None ->
  scanFrom fuel ty y num fails c = (docs, c', true) ->
  lo + fails = num ->
  (forall j, lo <= j < num -> available 0 ty y j = false) ->
  forall n,
    toString n ∈ map (fun d => number (file d)) docs <->
    num <= n /\ available 0 ty y n = true /\
    forall a, lo <= a -> a + maxFail <= n ->
      exists j, a <= j < a + maxFail /\ available 0 ty y j = true.
Proof.
  intros Hst. revert num fails c docs c' lo.
  induction fuel as [|f IH]; intros num fails c docs c' lo Hm Hs Hlo Hgap n; [discriminate|].
  rewrite scanFrom_S in Hs.
  assert (El : limitReached c = false) by (unfold limitReached; rewrite Hm; reflexivity).
  rewrite El in Hs.
  destruct (Nat.leb_spec maxFail fails) as [Hge|Hlt].
  { injection Hs as <- <-. cbn [map]. split; [intros H; apply elem_of_nil in H; contradiction|].
    intros (Hn & _ & Hwin). destruct (Hwin lo ltac:(lia) ltac:(lia)) as (j & Hj & Hav).
    rewrite Hgap in Hav by lia. discriminate. }
  pose proof (fetchUrls_stable (generateUrlPatterns (BASE_URL config) ty y (toString num))
                ty y (toString num) c Hst El) as Hav.
  fold (fetchDocument ty y (toString num) c) in Hav.
  fold (available 0 ty y num) in Hav.
  destruct (fetchDocument ty y (toString num) c) as [[doc|] c1] eqn:Ef;
    pose proof Ef as Ef'; apply fetchUrls_inv in Ef' as (_ & Hm1 & Hd); cbn [fst] in Hav.
  - assert (Hnum : available 0 ty y num = true) by (apply Hav; eauto).
    destruct (scanFrom f ty y (S num) 0 (collect c1)) as [[docs1 c2] fin1] eqn:Es.
    injection Hs as <- <- ->.
    destruct Hd as (_ & u & t & resp & _ & _ & _ & ->).
    assert (Hm2 : maxLimit (collect c1) = None) by (cbn; congruence).
    pose proof (IH (S num) 0 (collect c1) docs1 c2 (S num) Hm2 Es ltac:(lia)
                  ltac:(intros j Hj; lia) n) as IH'.
    cbn [map file number]. rewrite elem_of_cons.
    split.
    + intros [Heq|Hin].
      * apply toString_inj in Heq. subst n. split; [lia|]. split; [exact Hnum|].
        intros a Ha Hb. lia.
      * apply IH' in Hin as (Hn & Hna & Hwin). split; [lia|]. split; [exact Hna|].
        intros a Ha Hb. destruct (decide (a <= num)) as [Hle|Hgt].
        -- exists num. split; [lia | exact Hnum].
        -- apply Hwin; lia.
    + intros (Hn & Hna & Hwin). destruct (decide (n = num)) as [->|Hne]; [left; reflexivity|].
      right. apply IH'. split; [lia|]. split; [exact Hna|].
      intros a Ha Hb. apply Hwin; lia.
  - assert (Hnum : available 0 ty y num = false).
    { destruct (available 0 ty y num); [|reflexivity].
      destruct (proj2 Hav eq_refl) as [d Hd']. discriminate. }
    assert (Hm2 : maxLimit c1 = None) by congruence.
    rewrite (IH (S num) (S fails) c1 docs c' lo Hm2 Hs ltac:(lia)).
    2:{ intros j Hj. destruct (decide (j = num)) as [->|]; [exact Hnum | apply Hgap; lia]. }
    split; intros (Hn & Hna & Hwin); (split; [|split; [exact Hna | exact Hwin]]); [lia|].
    destruct (decide (n = num)) as [->|]; [congruence | lia].
Qed.

(** X23: on a server that answers the same at all times and without a
    limit, a scan that comes to its end has found exactly the documents
    that are there and have no run of missing numbers as long as the
    failures allowed anywhere before them: what lies behind such a run is
    never asked for. *)
Theorem identifyBoletins_separatas_finds
    (fuel : nat) (ty : BteDocumentType) (y : jsstring) (c : Crawler) (n : nat) :
  (forall t u, get t u = get 0 u) ->
  maxLimit c = None ->
  snd (identifyBoletins_separatas fuel ty y c) = true ->
  toString n ∈ map (fun d => number (file d)) (fst (fst (identifyBoletins_separatas fuel ty y c)))
  <->
  1 <= n /\ available 0 ty y n = true /\
  forall a, 1 <= a -> a + maxFail <= n ->
    exists j, a <= j < a + maxFail /\ available 0 ty y j = true.
Proof.
  intros Hst Hm Hfin. unfold identifyBoletins_separatas in *.
  destruct (scanFrom fuel ty y 1 0 c) as [[docs c'] fin] eqn:E. cbn [fst snd] in *. subst fin.
  apply (scanFrom_found _ _ _ _ _ _ _ _ 1 Hst Hm E); [reflexivity | intros j Hj; lia].
Qed.

End CrawlerFacts.

Lemma crawlAll_respects_limit_witness :
  (Z.of_nat (length (fst (fst (crawlAll unit sampleWeb DEFAULT_CONFIG 50 (Some 1%Z)
                                 sampleScope 0)))) <= 1)%Z.
Proof. apply (crawlAll_respects_limit sampleWeb DEFAULT_CONFIG 50 1 sampleScope 0). lia. Defined.

Lemma crawlAll_ends_witness :
  snd (crawlAll unit sampleWeb DEFAULT_CONFIG 50 (Some 2%Z) sampleScope 0) = true.
Proof.
  apply (crawlAll_ends sampleWeb DEFAULT_CONFIG 50 2 sampleScope 0); [lia | simpl; lia].
Defined.

Lemma identifyBoletins_separatas_finds_witness :
  toString 14 ∈ map (fun d => number (file d))
                  (fst (fst (identifyBoletins_separatas unit sampleWeb DEFAULT_CONFIG 50 issue
                               (U "2024") (mkCrawler 0 None 0))))
  <->
  1 <= 14 /\ available unit sampleWeb DEFAULT_CONFIG 0 issue (U "2024") 14 = true /\
  forall a, 1 <= a -> a + MAX_CONSECUTIVE_FAILURES DEFAULT_CONFIG <= 14 ->
    exists j, a <= j < a + MAX_CONSECUTIVE_FAILURES DEFAULT_CONFIG /\
              available unit sampleWeb DEFAULT_CONFIG 0 issue (U "2024") j = true.
Proof.
  apply (identifyBoletins_separatas_finds sampleWeb DEFAULT_CONFIG 50 issue (U "2024")
           (mkCrawler 0 None 0) 14);
    [intros t u; reflexivity | reflexivity | vm_compute; reflexivity].
Defined.

(** X24: within a kind and a year, documents with different numbers have
    different URLs. *)
Theorem generateUrlPatterns_injective
    (baseUrl : jsstring) (ty : BteDocumentType) (y : jsstring) (n n' : nat) :
  generateUrlPatterns baseUrl ty y (toString n) = generateUrlPatterns baseUrl ty y (toString n') ->
  n = n'.
Proof.
  destruct ty; cbn [generateUrlPatterns]; intros H; apply (f_equal (hd [])) in H;
    cbn [hd] in H; apply toString_inj.
  - do 4 apply app_inv_head in H. apply app_inv_tail in H. exact H.
  - do 2 apply app_inv_head in H. apply app_inv_tail in H. exact H.
Qed.

Lemma generateUrlPatterns_injective_witness : 7 = 7.
Proof.
  apply (generateUrlPatterns_injective (U "https://bte.gep.msess.gov.pt") issue (U "2024") 7 7).
  reflexivity.
Defined.
